(** * maggma: the S3 hybrid store and the utilities it rests on

    A shallow embedding of [src/maggma/utils.py] and
    [src/maggma/stores/aws.py].  Python values are an inductive type,
    dictionaries are insertion-ordered association lists, exceptions are
    an error monad, and the remote bucket is a finite map from object
    keys to objects together with the log of the calls made against it. *)

From Stdlib Require Import ZArith List String Ascii Bool Lia Permutation DecimalString.
From stdpp Require Import base option strings gmap.
Import ListNotations.

#[local] Open Scope string_scope.
#[local] Open Scope Z_scope.
#[local] Set Warnings "-register-all".

(** ** Exceptions and the error monad *)

(** The exceptions the modelled code can raise.  A [ClientError] carries
    the text of [e.response["Error"]["Code"]]. *)
Inductive exn : Type :=
| KeyError (k : string)
| TypeError
| ValueError
| OverflowError
| AttributeError
| RuntimeError (msg : string)
| ParamValidationError
| ClientError (code : string).

Inductive result (A : Type) : Type :=
| Ok (a : A)
| Raise (e : exn).
Arguments Ok {A} a.
Arguments Raise {A} e.

Definition bind {A B} (r : result A) (k : A -> result B) : result B :=
  match r with
  | Ok a => k a
  | Raise e => Raise e
  end.

Notation "x <- r ;; k" := (bind r (fun x => k))
  (at level 60, r at next level, right associativity).

Definition is_ok {A} (r : result A) : bool :=
  match r with Ok _ => true | Raise _ => false end.

(** ** Decimal digits *)

Definition digit_char (n : Z) : ascii :=
  ascii_of_nat (48 + Z.to_nat (n mod 10)).

Definition digit_val (c : ascii) : option Z :=
  let n := Z.of_nat (nat_of_ascii c) in
  if (48 <=? n) && (n <=? 57) then Some (n - 48) else None.

(** [zfill w n]: the last [w] decimal digits of [n], zero padded
    (Python's ["%0wd" % n] for [0 <= n < 10^w]). *)
Fixpoint zfill (w : nat) (n : Z) : string :=
  match w with
  | O => EmptyString
  | S w' => zfill w' (n / 10) +:+ String (digit_char n) EmptyString
  end.

(** All characters must be digits; the empty string has no value. *)
Fixpoint digits_acc (s : string) (acc : Z) : option Z :=
  match s with
  | EmptyString => Some acc
  | String c s' =>
      match digit_val c with
      | Some d => digits_acc s' (10 * acc + d)
      | None => None
      end
  end.

Definition digits (s : string) : option Z :=
  match s with
  | EmptyString => None
  | _ => digits_acc s 0
  end.

(** [int(s)] on a string: an optional sign and decimal digits.  (The
    blanks and digit-group underscores that [int] also accepts are not
    modelled; no error code has them.) *)
Definition py_int (s : string) : result Z :=
  match s with
  | String "-" s' => match digits s' with Some n => Ok (- n) | None => Raise ValueError end
  | String "+" s' => match digits s' with Some n => Ok n | None => Raise ValueError end
  | _ => match digits s with Some n => Ok n | None => Raise ValueError end
  end.

(** ** [datetime] (naive) and [timedelta(milliseconds=1)] *)

Record datetime : Type := mk_datetime {
  year : Z; month : Z; day : Z;
  hour : Z; minute : Z; second : Z; microsecond : Z
}.

Definition MINYEAR : Z := 1.
Definition MAXYEAR : Z := 9999.

Definition is_leap (y : Z) : bool :=
  (y mod 4 =? 0) && (negb (y mod 100 =? 0) || (y mod 400 =? 0)).

Definition days_in_month (y m : Z) : Z :=
  if m =? 2 then (if is_leap y then 29 else 28)
  else if (m =? 4) || (m =? 6) || (m =? 9) || (m =? 11) then 30
  else 31.

(** The checks the [datetime] constructor makes on its fields. *)
Definition valid_datetime (t : datetime) : bool :=
  (MINYEAR <=? year t) && (year t <=? MAXYEAR) &&
  (1 <=? month t) && (month t <=? 12) &&
  (1 <=? day t) && (day t <=? days_in_month (year t) (month t)) &&
  (0 <=? hour t) && (hour t <=? 23) &&
  (0 <=? minute t) && (minute t <=? 59) &&
  (0 <=? second t) && (second t <=? 59) &&
  (0 <=? microsecond t) && (microsecond t <=? 999999).

(** Comparison of datetimes is the lexicographic comparison of their
    fields, most significant first. *)
Definition lex (c : comparison) (k : comparison) : comparison :=
  match c with Eq => k | _ => c end.

Definition datetime_compare (a b : datetime) : comparison :=
  lex (year a ?= year b)
  (lex (month a ?= month b)
  (lex (day a ?= day b)
  (lex (hour a ?= hour b)
  (lex (minute a ?= minute b)
  (lex (second a ?= second b)
       (microsecond a ?= microsecond b)))))).

Definition datetime_le (a b : datetime) : Prop := datetime_compare a b <> Gt.
Definition datetime_lt (a b : datetime) : Prop := datetime_compare a b = Lt.

(** The day after [(y, m, d)]; past the last day of [MAXYEAR] the date
    is out of range. *)
Definition next_day (t : datetime) : result datetime :=
  if day t <? days_in_month (year t) (month t) then
    Ok (mk_datetime (year t) (month t) (day t + 1) 0 0 0 (microsecond t))
  else if month t <? 12 then
    Ok (mk_datetime (year t) (month t + 1) 1 0 0 0 (microsecond t))
  else if year t <? MAXYEAR then
    Ok (mk_datetime (year t + 1) 1 1 0 0 0 (microsecond t))
  else Raise OverflowError.

(** One second later, carrying into minutes, hours and days. *)
Definition next_second (t : datetime) : result datetime :=
  if second t <? 59 then
    Ok (mk_datetime (year t) (month t) (day t) (hour t) (minute t) (second t + 1) (microsecond t))
  else if minute t <? 59 then
    Ok (mk_datetime (year t) (month t) (day t) (hour t) (minute t + 1) 0 (microsecond t))
  else if hour t <? 23 then
    Ok (mk_datetime (year t) (month t) (day t) (hour t + 1) 0 0 (microsecond t))
  else next_day t.

Definition with_microsecond (t : datetime) (us : Z) : datetime :=
  mk_datetime (year t) (month t) (day t) (hour t) (minute t) (second t) us.

(** [dt + timedelta(milliseconds=1)]: a thousand microseconds later;
    [OverflowError] when the result is past [datetime.max]. *)
Definition add_millisecond (t : datetime) : result datetime :=
  let us := microsecond t + 1000 in
  if us <? 1000000 then Ok (with_microsecond t us)
  else next_second (with_microsecond t (us - 1000000)).

(** [dt.isoformat(timespec="milliseconds")]: the microseconds are
    truncated to milliseconds. *)
Definition isoformat_ms (t : datetime) : string :=
  zfill 4 (year t) +:+ "-" +:+ zfill 2 (month t) +:+ "-" +:+ zfill 2 (day t)
  +:+ "T" +:+ zfill 2 (hour t) +:+ ":" +:+ zfill 2 (minute t) +:+ ":"
  +:+ zfill 2 (second t) +:+ "." +:+ zfill 3 (microsecond t / 1000).

(** [utils.dt_to_isoformat_ceil_ms] *)
Definition dt_to_isoformat_ceil_ms (dt : datetime) : result string :=
  t <- add_millisecond dt ;;
  Ok (isoformat_ms t).

(** ** [datetime.strptime] on the two formats [isostr_to_dt] uses *)

(** Reads exactly [w] decimal digits. *)
Fixpoint read_digits (w : nat) (s : string) (acc : Z) : option (Z * string) :=
  match w with
  | O => Some (acc, s)
  | S w' =>
      match s with
      | String c s' =>
          match digit_val c with
          | Some d => read_digits w' s' (10 * acc + d)
          | None => None
          end
      | EmptyString => None
      end
  end.

Definition read_char (c : ascii) (s : string) : option string :=
  match s with
  | String c' s' => if Ascii.eqb c c' then Some s' else None
  | EmptyString => None
  end.

(** [%f]: one to six digits up to the end of the string, read as a
    fraction of a second. *)
Definition read_fraction (s : string) : option Z :=
  let n := String.length s in
  if (Nat.leb 1 n) && (Nat.leb n 6) then
    match digits s with
    | Some v => Some (v * 10 ^ Z.of_nat (6 - n))
    | None => None
    end
  else None.

Definition opt_bind {A B} (o : option A) (k : A -> option B) : option B :=
  match o with Some a => k a | None => None end.

(** The fields of ["%Y-%m-%dT%H:%M:%S"] and what follows them.  The
    fields are read at the fixed widths [isoformat] writes, which is
    exact on what [isoformat] writes; [strptime] also takes months,
    days, hours, minutes and seconds of one digit, and a [t] in lower
    case. *)
Definition read_date_time (s : string) : option (datetime * string) :=
  opt_bind (read_digits 4 s 0) (fun '(y, s) =>
  opt_bind (read_char "-" s) (fun s =>
  opt_bind (read_digits 2 s 0) (fun '(mo, s) =>
  opt_bind (read_char "-" s) (fun s =>
  opt_bind (read_digits 2 s 0) (fun '(d, s) =>
  opt_bind (read_char "T" s) (fun s =>
  opt_bind (read_digits 2 s 0) (fun '(h, s) =>
  opt_bind (read_char ":" s) (fun s =>
  opt_bind (read_digits 2 s 0) (fun '(mi, s) =>
  opt_bind (read_char ":" s) (fun s =>
  opt_bind (read_digits 2 s 0) (fun '(se, s) =>
  Some (mk_datetime y mo d h mi se 0, s)))))))))))).

Definition checked (t : datetime) : result datetime :=
  if valid_datetime t then Ok t else Raise ValueError.

(** [datetime.strptime(s, "%Y-%m-%dT%H:%M:%S.%f")] *)
Definition strptime_fraction (s : string) : result datetime :=
  match read_date_time s with
  | Some (t, rest) =>
      match opt_bind (read_char "." rest) read_fraction with
      | Some us => checked (with_microsecond t us)
      | None => Raise ValueError
      end
  | None => Raise ValueError
  end.

(** [datetime.strptime(s, "%Y-%m-%dT%H:%M:%S")] *)
Definition strptime_seconds (s : string) : result datetime :=
  match read_date_time s with
  | Some (t, EmptyString) => checked t
  | _ => Raise ValueError
  end.

(** [utils.isostr_to_dt] *)
Definition isostr_to_dt (s : string) : result datetime :=
  match strptime_fraction s with
  | Raise ValueError => strptime_seconds s
  | r => r
  end.

(** The largest datetime, [datetime.max]. *)
Definition datetime_max : datetime := mk_datetime 9999 12 31 23 59 59 999999.

(** [t] with its microseconds truncated to whole milliseconds. *)
Definition floor_ms (t : datetime) : datetime :=
  with_microsecond t (microsecond t / 1000 * 1000).

(** Two datetimes in the same millisecond: equal up to the microseconds
    within it. *)
Definition same_millisecond (a b : datetime) : Prop := floor_ms a = floor_ms b.

(** ** Python values and dictionaries *)

(** The values documents are made of.  A dictionary keeps its items in
    insertion order, one item per key. *)
Inductive value : Type :=
| VNone
| VBool (b : bool)
| VInt (n : Z)
| VStr (s : string)
| VDatetime (t : datetime)
| VList (l : list value)
| VDict (d : list (string * value)).

Abbreviation dict := (list (string * value)).

Definition datetime_eqb (a b : datetime) : bool :=
  match datetime_compare a b with Eq => true | _ => false end.

(** Structural equality of values. *)
Fixpoint value_eqb (a b : value) {struct a} : bool :=
  match a, b with
  | VNone, VNone => true
  | VBool x, VBool y => Bool.eqb x y
  | VInt x, VInt y => Z.eqb x y
  | VStr x, VStr y => String.eqb x y
  | VDatetime x, VDatetime y => datetime_eqb x y
  | VList l, VList m =>
      (fix go (l m : list value) {struct l} : bool :=
         match l, m with
         | [], [] => true
         | x :: l', y :: m' => value_eqb x y && go l' m'
         | _, _ => false
         end) l m
  | VDict l, VDict m =>
      (fix go (l m : dict) {struct l} : bool :=
         match l, m with
         | [], [] => true
         | (k, x) :: l', (k', y) :: m' => String.eqb k k' && value_eqb x y && go l' m'
         | _, _ => false
         end) l m
  | _, _ => false
  end.

(** [d.get(k)] *)
Fixpoint dict_get (d : dict) (k : string) : option value :=
  match d with
  | [] => None
  | (k', v) :: d' => if String.eqb k k' then Some v else dict_get d' k
  end.

(** [k in d] *)
Definition dict_has (d : dict) (k : string) : bool :=
  match dict_get d k with Some _ => true | None => false end.

(** [d[k]] *)
Definition getitem (d : dict) (k : string) : result value :=
  match dict_get d k with
  | Some v => Ok v
  | None => Raise (KeyError k)
  end.

(** [d[k] = v]: the item keeps its place when the key is there already,
    and goes last otherwise. *)
Fixpoint dict_set (d : dict) (k : string) (v : value) : dict :=
  match d with
  | [] => [(k, v)]
  | (k', v') :: d' =>
      if String.eqb k k' then (k, v) :: d' else (k', v') :: dict_set d' k v
  end.

(** [del d[k]] for a key that is there, [d.pop(k, None)] in general. *)
Fixpoint dict_del (d : dict) (k : string) : dict :=
  match d with
  | [] => []
  | (k', v') :: d' => if String.eqb k k' then d' else (k', v') :: dict_del d' k
  end.

(** [d.pop(k)]: [KeyError] when the key is absent. *)
Definition dict_pop (d : dict) (k : string) : result dict :=
  if dict_has d k then Ok (dict_del d k) else Raise (KeyError k).

(** [len(v)] *)
Definition py_len (v : value) : result Z :=
  match v with
  | VStr s => Ok (Z.of_nat (String.length s))
  | VList l => Ok (Z.of_nat (List.length l))
  | VDict d => Ok (Z.of_nat (List.length d))
  | _ => Raise TypeError
  end.

(** [s.lower()] on ASCII text. *)
Definition lower_char (c : ascii) : ascii :=
  let n := nat_of_ascii c in
  if (Nat.leb 65 n) && (Nat.leb n 90) then ascii_of_nat (n + 32) else c.

Fixpoint lower (s : string) : string :=
  match s with
  | EmptyString => EmptyString
  | String c s' => String (lower_char c) (lower s')
  end.

(** [s.strip("/")] *)
Fixpoint lstrip_slash (s : string) : string :=
  match s with
  | String "/" s' => lstrip_slash s'
  | _ => s
  end.

Fixpoint rstrip_slash (s : string) : string :=
  match s with
  | EmptyString => EmptyString
  | String c s' =>
      match rstrip_slash s' with
      | EmptyString => if Ascii.eqb c "/" then EmptyString else String c EmptyString
      | r => String c r
      end
  end.

Definition strip_slash (s : string) : string := rstrip_slash (lstrip_slash s).

(** [prefix + v] for a string [prefix]: a [TypeError] unless [v] is a
    string too. *)
Definition str_add (prefix : string) (v : value) : result string :=
  match v with
  | VStr s => Ok (prefix +:+ s)
  | _ => Raise TypeError
  end.

(** ** [utils.grouper] *)

(** [iter(lambda: list(islice(it, n)), [])]: chunks of [n] items are
    taken off the iterator until an empty chunk comes back.  Every
    chunk but an empty one consumes an item, so [fuel] larger than the
    length of the input is never used up. *)
Fixpoint grouper_from {A} (fuel : nat) (it : list A) (n : nat) : list (list A) :=
  match fuel with
  | O => []
  | S fuel' =>
      match firstn n it with
      | [] => []
      | chunk => chunk :: grouper_from fuel' (skipn n it) n
      end
  end.

Definition grouper {A} (iterable : list A) (n : nat) : list (list A) :=
  grouper_from (S (List.length iterable)) iterable n.

(** ** [pydash] on nested dictionaries

    [pydash] is a third-party library.  Its functions are modelled on
    paths of plain string keys through nested dictionaries, the
    documents [substitute]'s mongo-like keys address, and are exact
    there.  What [pydash] does besides is not modelled: a segment
    [[n]] of a key is a list index, a dot after a backslash does not
    split, and empty segments are dropped; [get] and [has] also index
    into lists and strings; [set_] leaves a path that runs through
    [None] alone. *)

(** [to_path("a.b.c")]: the keys between the dots, for plain keys:
    not empty, and without dot, bracket or backslash. *)
Fixpoint split_dots (s : string) (cur : string) : list string :=
  match s with
  | EmptyString => [cur]
  | String c s' =>
      if Ascii.eqb c "." then cur :: split_dots s' EmptyString
      else split_dots s' (cur +:+ String c EmptyString)
  end.

Definition to_path (key : string) : list string := split_dots key EmptyString.

(** The value at [path], if every key on the way is there; every
    value on the way is a dictionary. *)
Fixpoint lookup_path (v : value) (path : list string) : option value :=
  match path with
  | [] => Some v
  | k :: path' =>
      match v with
      | VDict d =>
          match dict_get d k with
          | Some v' => lookup_path v' path'
          | None => None
          end
      | _ => None
      end
  end.

(** [has(d, path)] *)
Definition has (d : dict) (path : list string) : bool :=
  match lookup_path (VDict d) path with Some _ => true | None => false end.

(** [get(d, path)], [None] by default. *)
Definition get (d : dict) (path : list string) : value :=
  match lookup_path (VDict d) path with Some v => v | None => VNone end.

(** [set_(d, path, v)]: missing dictionaries on the way are created; a
    value on the way that cannot hold items refuses the assignment.
    Exact for a path of one key, and through dictionaries. *)
Fixpoint set_path (d : dict) (path : list string) (v : value) : result dict :=
  match path with
  | [] => Ok d
  | [k] => Ok (dict_set d k v)
  | k :: path' =>
      match dict_get d k with
      | Some (VDict d') =>
          r <- set_path d' path' v ;; Ok (dict_set d k (VDict r))
      | Some VNone | None =>
          r <- set_path [] path' v ;; Ok (dict_set d k (VDict r))
      | Some _ => Raise AttributeError
      end
  end.

(** [pydash.unset(d, path)]: the item at [path] is removed when it is
    there; nothing else changes. *)
Fixpoint unset_path (d : dict) (path : list string) : dict :=
  match path with
  | [] => d
  | [k] => dict_del d k
  | k :: path' =>
      match dict_get d k with
      | Some (VDict d') => dict_set d k (VDict (unset_path d' path'))
      | _ => d
      end
  end.

(** [reversed(range(1, n))] *)
Definition rev_range_from_1 (n : nat) : list nat := rev (seq 1 (n - 1)).

(** [utils.unset]: after the item is removed, each parent, innermost
    first, is unset in the same way when it is left empty.  A call on
    a path of length [n] only calls itself on shorter paths, so [fuel]
    of [n] is enough. *)
Fixpoint unset_from (fuel : nat) (d : dict) (path : list string) : result dict :=
  let d1 := unset_path d path in
  match fuel with
  | O => Ok d1
  | S fuel' =>
      fold_left
        (fun (acc : result dict) (i : nat) =>
           d <- acc ;;
           n <- py_len (get d (firstn i path)) ;;
           if n =? 0 then unset_from fuel' d (firstn i path) else Ok d)
        (rev_range_from_1 (List.length path)) (Ok d1)
  end.

Definition unset (d : dict) (path : list string) : result dict :=
  unset_from (List.length path) d path.

(** [utils.substitute]; [aliases] are the items of the mapping, alias
    first. *)
Definition substitute (d : dict) (aliases : list (string * string)) : result dict :=
  fold_left
    (fun (acc : result dict) '(alias, key) =>
       d <- acc ;;
       if has d (to_path key) then
         d' <- set_path d (to_path alias) (get d (to_path key)) ;;
         unset d' (to_path key)
       else Ok d)
    aliases (Ok d).

(** [utils.recursive_update], by recursion on the updates [u]: a
    dictionary among them is merged into the dictionary it meets under
    the same key, and any other value replaces what was there. *)
Fixpoint update_value (d : dict) (u : value) {struct u} : dict :=
  match u with
  | VDict items =>
      (fix go (items : dict) (d : dict) {struct items} : dict :=
         match items with
         | [] => d
         | (k, v) :: rest =>
             go rest
                (match dict_get d k, v with
                 | Some (VDict dk), VDict _ => dict_set d k (VDict (update_value dk v))
                 | _, _ => dict_set d k v
                 end)
         end) items d
  | _ => d
  end.

Definition recursive_update (d u : dict) : dict := update_value d (VDict u).

(** [utils.lazy_substitute] *)
Definition lazy_substitute (d : dict) (aliases : list (string * string)) : dict :=
  fold_left
    (fun (d : dict) '(alias, key) =>
       match dict_get d key with
       | Some v => dict_del (dict_set d alias v) key
       | None => d
       end)
    aliases d.

(** ** Libraries the store calls

    [msgpack] with monty's hooks, [zlib], and [str] on values that are
    not scalars are third-party or built in, and taken as given, and so
    is the version of [concurrent.futures] the store runs on.  So is
    [to_isoformat_ceil_ms]: [aws.py] imports it from [maggma.utils],
    and [utils.py] as it stands does not define it. *)
Class Libs : Type := {
  bytes : Type;
  (** [msgpack.packb(doc, default=monty_default)] *)
  packb : value -> result bytes;
  (** [msgpack.unpackb(data, object_hook=monty_object_hook, raw=False)] *)
  unpackb : bytes -> result value;
  (** [zlib.compress], [zlib.decompress] *)
  zlib_compress : bytes -> bytes;
  zlib_decompress : bytes -> result bytes;
  to_isoformat_ceil_ms : value -> result value;
  (** [str(v)] for a datetime, list or dictionary *)
  py_repr : value -> string;
  (** [concurrent.futures]: whether [Executor.submit] takes its
      callable by keyword, as [submit(fn=...)].  Python 3.8 does, with
      a deprecation warning; from Python 3.9 on the parameter is
      positional only and the call raises [TypeError]. *)
  submit_takes_fn_keyword : bool
}.

Section Store.
Context {L : Libs}.

(** [str(v)] *)
Definition py_str (v : value) : string :=
  match v with
  | VStr s => s
  | VInt n => NilZero.string_of_int (Z.to_int n)
  | VBool true => "True"
  | VBool false => "False"
  | VNone => "None"
  | _ => py_repr v
  end.

(** ** The object backend

    The bucket is boto3's resource for a remote service.  It is
    modelled at its interface, as the spec lays it out (section 6):
    objects addressed by key, each a body with string-valued metadata,
    and bulk deletes of at most a thousand keys. *)

Record S3Object : Type := mk_object {
  body : bytes;
  metadata : dict
}.

(** The requests a bucket has served. *)
Inductive call : Type :=
| PutObject (k : string) (data : bytes) (meta : dict)
| DeleteObjects (ks : list string)
| LoadMetadata (k : string)
| CopyFrom (k : string) (meta : dict).

(** A bucket: its objects, the keys on which the backend is failing at
    the moment (with the error it raises there), and the requests it
    has served, oldest first. *)
Record Bucket : Type := mk_bucket {
  name : string;
  objects : gmap string S3Object;
  faults : gmap string exn;
  calls : list call
}.

Definition is_str (v : value) : bool :=
  match v with VStr _ => true | _ => false end.

(** Object metadata is string-valued: the client refuses a request
    whose metadata holds anything else. *)
Definition valid_metadata (meta : dict) : bool :=
  forallb (fun kv => is_str (snd kv)) meta.

(** The errors raised for a key that is not in the bucket: a read of
    the object ([GetObject]) and a copy from it ([CopyObject]) report
    it under the code ["NoSuchKey"]; the request for its metadata
    ([HeadObject]), whose answer has no body, reports the status,
    ["404"]. *)
Definition no_such_key : exn := ClientError "NoSuchKey".
Definition head_not_found : exn := ClientError "404".

Definition served (b : Bucket) (c : call) (objs : gmap string S3Object) : Bucket :=
  mk_bucket (name b) objs (faults b) (calls b ++ [c]).

(** [bucket.put_object(Key=k, Body=data, Metadata=meta)] *)
Definition put_object (b : Bucket) (k : string) (data : bytes) (meta : dict)
  : result Bucket :=
  if negb (valid_metadata meta) then Raise ParamValidationError
  else match faults b !! k with
       | Some e => Raise e
       | None => Ok (served b (PutObject k data meta) (<[k := mk_object data meta]> (objects b)))
       end.

(** [bucket.Object(k).get()["Body"].read()] *)
Definition get_object (b : Bucket) (k : string) : result bytes :=
  match faults b !! k with
  | Some e => Raise e
  | None =>
      match objects b !! k with
      | Some o => Ok (body o)
      | None => Raise no_such_key
      end
  end.

(** [bucket.Object(k).metadata] *)
Definition load_metadata (b : Bucket) (k : string) : result (Bucket * dict) :=
  match faults b !! k with
  | Some e => Raise e
  | None =>
      match objects b !! k with
      | Some o => Ok (served b (LoadMetadata k) (objects b), metadata o)
      | None => Raise head_not_found
      end
  end.

(** The bulk-delete limit of the object storage. *)
Definition bulk_delete_limit : nat := 1000.

(** [bucket.delete_objects(Delete={"Objects": [{"Key": k} ...]})]: at
    most a thousand keys a request; a key that is not there is no
    error. *)
Definition delete_objects (b : Bucket) (ks : list string) : result Bucket :=
  if Nat.ltb bulk_delete_limit (List.length ks) then Raise (ClientError "MalformedXML")
  else Ok (served b (DeleteObjects ks)
             (fold_left (fun objs k => delete k objs) ks (objects b))).

(** [obj.copy_from(CopySource=<the object itself>, Metadata=meta,
    MetadataDirective="REPLACE")]: the body stays, the metadata is
    replaced. *)
Definition copy_from (b : Bucket) (k : string) (meta : dict) : result Bucket :=
  if negb (valid_metadata meta) then Raise ParamValidationError
  else match faults b !! k with
       | Some e => Raise e
       | None =>
           match objects b !! k with
           | Some o => Ok (served b (CopyFrom k meta) (<[k := mk_object (body o) meta]> (objects b)))
           | None => Raise no_such_key
           end
       end.

(** ** The Index Store *)

(** Modelled from the spec: the Index Store ([maggma.core.Store] and
    its backends) is not among the sources.  It is a Store holding
    Index Entries, at most one per key value after an upsert; its
    identity is its configuration, and [idx_id] is the identity of the
    Python object. *)
Record IndexStore : Type := mk_index {
  idx_id : positive;
  idx_key : value;
  idx_collection : string;
  idx_last_updated_field : string;
  idx_docs : list dict
}.

(** A query: the filter, the order, and the window. *)
Record Query : Type := mk_query {
  criteria : dict -> bool;
  sort : list dict -> list dict;
  skip : nat;
  limit : nat
}.

Definition all_docs : Query := mk_query (fun _ => true) (fun l => l) 0 0.

Definition window (skip limit : nat) (l : list dict) : list dict :=
  let l' := skipn skip l in
  match limit with O => l' | _ => firstn limit l' end.

(** Modelled from the spec: [index.query(criteria, sort, limit, skip)]. *)
Definition index_query (i : IndexStore) (q : Query) : list dict :=
  window (skip q) (limit q) (sort q (List.filter (criteria q) (idx_docs i))).

Definition with_docs (i : IndexStore) (docs : list dict) : IndexStore :=
  mk_index (idx_id i) (idx_key i) (idx_collection i) (idx_last_updated_field i) docs.

Definition same_key_value (k : string) (v : value) (e : dict) : bool :=
  match dict_get e k with
  | Some v' => value_eqb v' v
  | None => false
  end.

(** Modelled from the spec: [index.update(docs)] upserts each document
    under its key value. *)
Fixpoint index_upsert (k : string) (entries : list dict) (docs : list dict)
  : result (list dict) :=
  match docs with
  | [] => Ok entries
  | d :: docs' =>
      v <- getitem d k ;;
      index_upsert k (List.filter (fun e => negb (same_key_value k v e)) entries ++ [d]) docs'
  end.

Definition index_update (i : IndexStore) (docs : list dict) : result IndexStore :=
  entries <- index_upsert (py_str (idx_key i)) (idx_docs i) docs ;;
  Ok (with_docs i entries).

(** Modelled from the spec: [index.remove_docs(criteria)]. *)
Definition index_remove_docs (i : IndexStore) (crit : dict -> bool) : IndexStore :=
  with_docs i (List.filter (fun e => negb (crit e)) (idx_docs i)).

Fixpoint dedup (l : list value) : list value :=
  match l with
  | [] => []
  | v :: l' => v :: List.filter (fun w => negb (value_eqb w v)) (dedup l')
  end.

(** Modelled from the spec: [index.distinct(field, criteria)], the
    distinct values of [field] over the matching entries. *)
Definition index_distinct (i : IndexStore) (field : string) (crit : dict -> bool)
  : list value :=
  dedup (omap (fun e => dict_get e field) (List.filter crit (idx_docs i))).

(** Modelled from the spec: two stores are equal when their
    configurations are; connections and contents are not compared. *)
Definition index_eqb (a b : IndexStore) : bool :=
  value_eqb (idx_key a) (idx_key b)
  && String.eqb (idx_collection a) (idx_collection b)
  && String.eqb (idx_last_updated_field a) (idx_last_updated_field b).

(** ** [S3Store] *)

Record S3Store : Type := mk_store {
  index : IndexStore;
  bucket : string;
  s3_profile : option string;
  compress : bool;
  endpoint_url : option string;
  sub_dir : string;
  (** the handle [connect] opens; [None] before *)
  s3_bucket : option Bucket;
  s3_workers : nat;
  key : string;
  last_updated_field : string
}.

Definition with_bucket (s : S3Store) (b : Bucket) : S3Store :=
  mk_store (index s) (bucket s) (s3_profile s) (compress s) (endpoint_url s)
           (sub_dir s) (Some b) (s3_workers s) (key s) (last_updated_field s).

Definition with_index (s : S3Store) (i : IndexStore) : S3Store :=
  mk_store i (bucket s) (s3_profile s) (compress s) (endpoint_url s)
           (sub_dir s) (s3_bucket s) (s3_workers s) (key s) (last_updated_field s).

(** [self.s3_bucket.<method>]: an [AttributeError] on [None]. *)
Definition handle (s : S3Store) : result Bucket :=
  match s3_bucket s with
  | Some b => Ok b
  | None => Raise AttributeError
  end.

(** Modelled from the spec: [Store.__init__] of [maggma.core], which
    is not among the sources, takes keyword arguments and keeps the key field
    and the last-updated field it is given, ["task_id"] and
    ["last_updated"] by default. *)
Definition Store_init (kwargs : dict) : string * string :=
  (match dict_get kwargs "key" with Some v => py_str v | None => "task_id" end,
   match dict_get kwargs "last_updated_field" with
   | Some v => py_str v
   | None => "last_updated"
   end).

(** [S3Store.__init__]; [boto3] tells whether the import of boto3
    succeeded. *)
Definition S3Store_init (boto3 : bool) (index : IndexStore) (bucket : string)
    (s3_profile : option string) (compress : bool) (endpoint_url : option string)
    (sub_dir : option string) (s3_workers : nat) (kwargs : dict) : result S3Store :=
  if negb boto3 then Raise (RuntimeError "boto3 and botocore are required for S3Store")
  else
    let sub_dir' :=
      match sub_dir with
      | Some (String c r) => strip_slash (String c r) +:+ "/"
      | _ => ""
      end in
    let kwargs := dict_set kwargs "key" (VStr (py_str (idx_key index))) in
    let '(k, lu) := Store_init kwargs in
    Ok (mk_store index bucket s3_profile compress endpoint_url sub_dir' None
                 s3_workers k lu).

(** What one turn of the loop of [query] does. *)
Inductive step : Type :=
| Yield (v : value)
| Break
| Throw (e : exn).

(** [{p: doc[p] for p in properties if p in doc}] *)
Definition project (doc : dict) (properties : list string) : dict :=
  fold_left
    (fun acc p => match dict_get doc p with Some v => dict_set acc p v | None => acc end)
    properties [].

(** The blob of an Index Entry, read from the bucket. *)
Definition fetch (s : S3Store) (doc : dict) : result bytes :=
  b <- handle s ;;
  v <- getitem doc (key s) ;;
  k <- str_add (sub_dir s) v ;;
  get_object b k.

(** [doc.get("compression", "") == "zlib"] *)
Definition is_zlib (doc : dict) : bool :=
  match dict_get doc "compression" with
  | Some v => value_eqb v (VStr "zlib")
  | None => false
  end.

Definition decode (doc : dict) (data : bytes) : result value :=
  data <- (if is_zlib doc then zlib_decompress data else Ok data) ;;
  unpackb data.

Definition of_result (r : result value) : step :=
  match r with Ok v => Yield v | Raise e => Throw e end.

(** The [else] branch of the loop of [query]: the blob is fetched and
    decoded; a [ClientError] whose code reads 404 ends the loop, any
    other exception is raised. *)
Definition fetch_step (s : S3Store) (doc : dict) : step :=
  match fetch s doc with
  | Ok data => of_result (decode doc data)
  | Raise (ClientError code) =>
      match py_int code with
      | Ok n => if n =? 404 then Break else Throw (ClientError code)
      | Raise e => Throw e
      end
  | Raise e => Throw e
  end.

(** The body of the loop of [S3Store.query] for one Index Entry;
    [properties] is the list of requested names, or [None]. *)
Definition query_entry (s : S3Store) (properties : option (list string)) (doc : dict)
  : step :=
  match properties with
  | Some ps =>
      if forallb (dict_has doc) ps then Yield (VDict (project doc ps))
      else fetch_step s doc
  | None => fetch_step s doc
  end.

(** The generator: the documents it yields, in order, and the exception
    that ends it, if one does. *)
Fixpoint query_loop (s : S3Store) (properties : option (list string))
    (entries : list dict) : list value * option exn :=
  match entries with
  | [] => ([], None)
  | doc :: rest =>
      match query_entry s properties doc with
      | Yield v => let '(vs, e) := query_loop s properties rest in (v :: vs, e)
      | Break => ([], None)
      | Throw e => ([], Some e)
      end
  end.

(** [S3Store.query] *)
Definition S3Store_query (s : S3Store) (q : Query) (properties : option (list string))
  : list value * option exn :=
  query_loop s properties (index_query (index s) q).

(** [{k: doc[k] for k in search_keys}] *)
Fixpoint pick (doc : dict) (search_keys : list string) (acc : dict) : result dict :=
  match search_keys with
  | [] => Ok acc
  | k :: ks => v <- getitem doc k ;; pick doc ks (dict_set acc k v)
  end.

(** The Index Entry [write_doc_to_s3] builds and the blob it writes. *)
Definition search_doc_of (s : S3Store) (doc : dict) (search_keys : list string)
  : result (dict * bytes) :=
  sd <- pick doc search_keys [] ;;
  v <- getitem doc (key s) ;;
  let sd := dict_set sd (key s) v in
  let sd := if String.eqb (sub_dir s) "" then sd else dict_set sd "sub_dir" (VStr (sub_dir s)) in
  let sd := if dict_has sd "_id" then dict_del sd "_id" else sd in
  data <- packb (VDict doc) ;;
  let '(sd, data) :=
    if compress s then (dict_set sd "compression" (VStr "zlib"), zlib_compress data)
    else (sd, data) in
  sd <- match dict_get sd (last_updated_field s) with
        | Some lu =>
            t <- to_isoformat_ceil_ms lu ;;
            Ok (dict_set sd (last_updated_field s) (VStr (py_str t)))
        | None => Ok sd
        end ;;
  Ok (sd, data).

(** [S3Store.write_doc_to_s3]: the store afterwards and what the call
    returns or raises. *)
Definition write_doc_to_s3 (s : S3Store) (doc : dict) (search_keys : list string)
  : S3Store * result dict :=
  let r :=
    p <- search_doc_of s doc search_keys ;;
    b <- handle s ;;
    v <- getitem doc (key s) ;;
    b' <- put_object b (sub_dir s +:+ py_str v) (snd p) (fst p) ;;
    Ok (b', fst p) in
  match r with
  | Ok (b', sd) => (with_bucket s b', Ok sd)
  | Raise e => (s, Raise e)
  end.

(** The [key] argument of [update]: absent, one field name, or a list
    of field names. *)
Inductive key_arg : Type :=
| KeyNone
| KeyStr (k : string)
| KeyList (ks : list string).

Definition search_keys_of (s : S3Store) (k : key_arg) : list string :=
  match k with
  | KeyList ks => ks
  | KeyStr EmptyString | KeyNone => [key s]
  | KeyStr k => [k]
  end.

(** The writes of the pool, in the order in which they take effect on
    the bucket, each with what its future holds afterwards. *)
Fixpoint run_pool (s : S3Store) (tasks : list dict) (search_keys : list string)
  : S3Store * list (result dict) :=
  match tasks with
  | [] => (s, [])
  | doc :: rest =>
      let '(s1, r) := write_doc_to_s3 s doc search_keys in
      let '(s2, rs) := run_pool s1 rest search_keys in
      (s2, r :: rs)
  end.

(** [for sdoc in fs: search_docs.append(sdoc.result())]: the first
    future that holds an exception raises it. *)
Fixpoint collect (fs : list (result dict)) : result (list dict) :=
  match fs with
  | [] => Ok []
  | r :: fs' => sd <- r ;; l <- collect fs' ;; Ok (sd :: l)
  end.

(** What follows [wait(fs)]: the results are collected and, when none
    raised, handed to the index. *)
Definition commit (s : S3Store) (fs : list (result dict)) : S3Store * option exn :=
  match collect fs with
  | Raise e => (s, Some e)
  | Ok search_docs =>
      match index_update (index s) search_docs with
      | Ok i => (with_index s i, None)
      | Raise e => (s, Some e)
      end
  end.

(** [S3Store.update]: the store afterwards and the exception raised, if
    any.  [ThreadPoolExecutor(max_workers=self.s3_workers)] raises
    [ValueError] when there is no worker.  Each write is submitted as
    [pool.submit(fn=self.write_doc_to_s3, ...)], which raises
    [TypeError] at the first document where [submit] does not take its
    callable by keyword.  In both cases no write has run.  Otherwise
    the pool runs the writes in an order of its own, and the set of
    futures is walked in an order of its own. *)
Inductive S3Store_update (s : S3Store) (docs : list dict) (k : key_arg)
  : S3Store * option exn -> Prop :=
| update_no_pool :
    s3_workers s = 0%nat ->
    S3Store_update s docs k (s, Some ValueError)
| update_no_submit :
    s3_workers s <> 0%nat -> submit_takes_fn_keyword = false -> docs <> [] ->
    S3Store_update s docs k (s, Some TypeError)
| update_run (exec : list dict) (s1 : S3Store) (rs fs : list (result dict)) :
    s3_workers s <> 0%nat -> submit_takes_fn_keyword = true \/ docs = [] ->
    Permutation docs exec ->
    run_pool s exec (search_keys_of s k) = (s1, rs) ->
    Permutation rs fs ->
    S3Store_update s docs k (commit s1 fs).

(** The run in which both orders are the order of [docs]. *)
Definition S3Store_update_seq (s : S3Store) (docs : list dict) (k : key_arg)
  : S3Store * option exn :=
  if Nat.eqb (s3_workers s) 0 then (s, Some ValueError)
  else if negb submit_takes_fn_keyword && negb (Nat.eqb (List.length docs) 0)
  then (s, Some TypeError)
  else let '(s1, rs) := run_pool s docs (search_keys_of s k) in commit s1 rs.

Fixpoint map_result {A B} (f : A -> result B) (l : list A) : result (list B) :=
  match l with
  | [] => Ok []
  | a :: l' => b <- f a ;; bs <- map_result f l' ;; Ok (b :: bs)
  end.

(** The loop over the chunks in [remove_docs]. *)
Fixpoint delete_chunks (s : S3Store) (chunks : list (list value))
  : S3Store * option exn :=
  match chunks with
  | [] => (s, None)
  | chunk_to_remove :: rest =>
      match (objlist <- map_result (str_add (sub_dir s)) chunk_to_remove ;;
             b <- handle s ;;
             delete_objects b objlist) with
      | Ok b' => delete_chunks (with_bucket s b') rest
      | Raise e => (s, Some e)
      end
  end.

(** [S3Store.remove_docs] *)
Definition S3Store_remove_docs (s : S3Store) (crit : dict -> bool)
    (remove_s3_object : bool) : S3Store * option exn :=
  if negb remove_s3_object then
    (with_index s (index_remove_docs (index s) crit), None)
  else
    let to_remove := index_distinct (index s) (key s) crit in
    let s1 := with_index s (index_remove_docs (index s) crit) in
    delete_chunks s1 (grouper to_remove 1000).

(** [new_meta[str(k).lower()] = v] for every item, in order. *)
Definition lower_keys (items : dict) (acc : dict) : dict :=
  fold_left (fun acc kv => dict_set acc (lower (fst kv)) (snd kv)) items acc.

(** The metadata [rebuild_metadata_from_index] puts together before it
    pops ["_id"]. *)
Definition merged_metadata (old index_doc : dict) : dict :=
  lower_keys index_doc (lower_keys old []).

(** One turn of the loop of [rebuild_metadata_from_index]: the store
    afterwards and the exception raised, if any. *)
Definition rebuild_entry (s : S3Store) (index_doc : dict) : S3Store * option exn :=
  match (v <- getitem index_doc (key s) ;;
         key_ <- str_add (sub_dir s) v ;;
         b <- handle s ;;
         bm <- load_metadata b key_ ;;
         Ok (key_, bm)) with
  | Raise e => (s, Some e)
  | Ok (key_, (b1, old)) =>
      match (new_meta <- dict_pop (merged_metadata old index_doc) "_id" ;;
             copy_from b1 key_ new_meta) with
      | Ok b' => (with_bucket s b', None)
      | Raise e => (with_bucket s b1, Some e)
      end
  end.

Fixpoint rebuild_loop (s : S3Store) (entries : list dict) : S3Store * option exn :=
  match entries with
  | [] => (s, None)
  | index_doc :: rest =>
      match rebuild_entry s index_doc with
      | (s', None) => rebuild_loop s' rest
      | (s', Some e) => (s', Some e)
      end
  end.

(** [S3Store.rebuild_metadata_from_index] *)
Definition S3Store_rebuild_metadata_from_index (s : S3Store)
    (index_query_ : option (dict -> bool)) : S3Store * option exn :=
  let qq := match index_query_ with Some c => c | None => fun _ => true end in
  rebuild_loop s (index_query (index s) (mk_query qq (fun l => l) 0 0)).

(** [S3Store.__eq__] against another [S3Store] *)
Definition S3Store_eq (self other : S3Store) : bool :=
  index_eqb (index self) (index other)
  && String.eqb (bucket self) (bucket other)
  && String.eqb (last_updated_field self) (last_updated_field other).

End Store.

(** ** Hashing *)

(** Python's [hash] on the objects [__hash__] meets.  The hash of a
    bound method is computed from the identity of the object it is
    bound to and from its function. *)
Class PyHash : Type := {
  hash_str : string -> Z;
  hash_tuple : list Z -> Z;
  hash_method : positive -> string -> Z
}.

(** [S3Store.__hash__]: [hash((self.index.__hash__, self.bucket))],
    where [self.index.__hash__] is the bound method itself. *)
Definition S3Store_hash {L : Libs} {H : PyHash} (self : S3Store) : Z :=
  hash_tuple [hash_method (idx_id (index self)) "__hash__"; hash_str (bucket self)].

(** ** Notions the properties are stated with *)

(** The first instant of the last millisecond [datetime] can hold. *)
Definition last_millisecond : datetime := mk_datetime 9999 12 31 23 59 59 999000.

Section Notions.
Context {L : Libs}.

(** What the write of [doc] returns or raises. *)
Definition write_result (s : S3Store) (doc : dict) (search_keys : list string)
  : result dict :=
  snd (write_doc_to_s3 s doc search_keys).

(** The blob of [doc] has been put under its key with the Index Entry
    [sd] as metadata. *)
Definition written (s : S3Store) (doc sd : dict) : Prop :=
  exists b v data,
    s3_bucket s = Some b /\ dict_get doc (key s) = Some v /\
    In (PutObject (sub_dir s +:+ py_str v) data sd) (calls b).

(** The store and its index name the same key field. *)
Definition key_agrees (s : S3Store) : Prop :=
  key s = py_str (idx_key (index s)).

(** The query for the entries whose key field holds [v]. *)
Definition by_key (s : S3Store) (v : value) : Query :=
  mk_query (same_key_value (key s) v) (fun l => l) 0 0.

(** The requests the bucket of the store has served. *)
Definition calls_of (s : S3Store) : list call :=
  match s3_bucket s with Some b => calls b | None => [] end.

(** What a write depends on besides the document: the configuration
    of the store, whether it is connected, and where the backend is
    failing. *)
Definition same_env (s s' : S3Store) : Prop :=
  index s' = index s /\ compress s' = compress s /\ sub_dir s' = sub_dir s /\
  key s' = key s /\ last_updated_field s' = last_updated_field s /\
  option_map faults (s3_bucket s') = option_map faults (s3_bucket s).

(** The object the bucket of the store holds under [k]. *)
Definition object_at (s : S3Store) (k : string) : option S3Object :=
  match s3_bucket s with Some b => objects b !! k | None => None end.

(** The Index Entry built for [doc] holds the key value of [doc] under
    the key field. *)
Definition entry_keeps_key (s : S3Store) (ks : list string) (doc : dict) : Prop :=
  forall sd, write_result s doc ks = Ok sd ->
             dict_get sd (key s) = dict_get doc (key s).

(** The Index Entry built for [doc] reads as marked ["zlib"] exactly
    when the store compresses. *)
Definition entry_marks_compression (s : S3Store) (ks : list string) (doc : dict)
  : Prop :=
  forall sd, write_result s doc ks = Ok sd -> is_zlib sd = compress s.

(** [unpackb] and [zlib.decompress] undo [packb] and [zlib.compress]
    on [doc]. *)
Definition decodes (doc : dict) : Prop :=
  forall packed : bytes,
    packb (VDict doc) = Ok packed ->
    unpackb packed = Ok (VDict doc) /\
    zlib_decompress (zlib_compress packed) = Ok packed.

(** Every key value the index holds is a string. *)
Definition string_keyed (s : S3Store) : Prop :=
  forall (e : dict) (v : value),
    In e (idx_docs (index s)) -> dict_get e (key s) = Some v -> is_str v = true.

(** The entry cannot be answered from the index alone. *)
Definition requires_fetch (properties : option (list string)) (doc : dict) : bool :=
  match properties with
  | Some ps => negb (forallb (dict_has doc) ps)
  | None => true
  end.

End Notions.

(** The sizes of the chunks [grouper] cuts a sequence of [len] items
    into. *)
Fixpoint chunk_sizes (fuel len n : nat) : list nat :=
  match fuel with
  | O => []
  | S fuel' =>
      match Nat.min n len with
      | O => []
      | m => m :: chunk_sizes fuel' (len - n) n
      end
  end.

(** ** Instances to run the model on *)

(** Blobs as the terms that built them: what [packb] packed, possibly
    deflated. *)
Inductive blob : Type :=
| Packed (v : value)
| Deflated (b : blob).

Definition blob_libs : Libs := {|
  bytes := blob;
  packb v := Ok (Packed v);
  unpackb b := match b with Packed v => Ok v | Deflated _ => Raise ValueError end;
  zlib_compress := Deflated;
  zlib_decompress b := match b with Deflated b' => Ok b' | Packed _ => Raise ValueError end;
  to_isoformat_ceil_ms v :=
    match v with
    | VDatetime t => s <- dt_to_isoformat_ceil_ms t ;; Ok (VStr s)
    | VStr s => Ok (VStr s)
    | _ => Raise TypeError
    end;
  py_repr _ := "";
  submit_takes_fn_keyword := true
|}.

(** A hash that tells objects apart by their identity, as the hash of
    a bound method does. *)
Definition identity_hash : PyHash := {|
  hash_str s := Z.of_nat (String.length s);
  hash_tuple l := fold_left (fun acc h => acc * 1000003 + h) l 0;
  hash_method p _ := Z.pos p
|}.

Definition example_index (id : positive) (docs : list dict) : IndexStore :=
  mk_index id (VStr "task_id") "tasks" "last_updated" docs.

(** An empty bucket. *)
Definition empty_bucket : @Bucket blob_libs := mk_bucket "bucket" ∅ ∅ [].

(** A connected store on an empty bucket and an empty index. *)
Definition example_store (compress : bool) (sub_dir : string) : @S3Store blob_libs :=
  mk_store (example_index 1 []) "bucket" None compress None sub_dir
           (Some empty_bucket) 4 "task_id" "last_updated".

Definition doc_a : dict := [("task_id", VStr "mp-1"); ("data", VList [VInt 1; VInt 2])].
Definition doc_b : dict := [("task_id", VStr "mp-2"); ("data", VInt 3)].
Definition doc_c : dict := [("task_id", VStr "mp-3"); ("data", VNone)].
Definition doc_no_key : dict := [("data", VInt 0)].

(** The three documents written. *)
Definition loaded_store : @S3Store blob_libs :=
  fst (S3Store_update_seq (example_store false "") [doc_a; doc_b; doc_c] KeyNone).

(** The three documents written, and the backend failing on the key
    of the second. *)
Definition faulty_store : @S3Store blob_libs :=
  match s3_bucket loaded_store with
  | Some b =>
      with_bucket loaded_store
        (mk_bucket (name b) (objects b) {[ "mp-2" := ClientError "500" ]} (calls b))
  | None => loaded_store
  end.

Definition example_t1 : datetime := mk_datetime 2020 2 28 23 59 59 999500.
Definition example_t2 : datetime := mk_datetime 2020 2 28 23 59 59 999700.

(** 2500 Index Entries with keys ["k0000"] to ["k2499"]. *)
Definition many_keys : list string :=
  map (fun n => "k" +:+ zfill 4 (Z.of_nat n)) (seq 0 2500).

Definition many_entries : list dict :=
  map (fun k => [("task_id", VStr k)]) many_keys.

Definition big_store : @S3Store blob_libs :=
  mk_store (example_index 1 many_entries) "bucket" None false None "sub/"
           (Some empty_bucket) 4 "task_id" "last_updated".

(** A document with a field named like the compression marker, and a
    store that does not compress. *)
Definition doc_marked : dict := [("task_id", VStr "mp-1"); ("compression", VStr "zlib")].

Definition marked_store : @S3Store blob_libs :=
  fst (S3Store_update_seq (example_store false "") [doc_marked]
         (KeyList ["task_id"; "compression"])).

(** Two stores with the same configuration around two index objects
    with the same configuration. *)
Definition store_x : @S3Store blob_libs :=
  mk_store (example_index 1 []) "bucket" None false None "" None 4
           "task_id" "last_updated".

Definition store_y : @S3Store blob_libs :=
  mk_store (example_index 2 []) "bucket" None false None "" None 4
           "task_id" "last_updated".

(** The first document written, and its Index Entry given the
    identity field a database adds. *)
Definition written_store : @S3Store blob_libs :=
  fst (S3Store_update_seq (example_store false "") [doc_a] KeyNone).

Definition with_identity (s : @S3Store blob_libs) : @S3Store blob_libs :=
  with_index s
    (with_docs (index s)
       (map (fun e => dict_set e "_id" (VStr "5f0c")) (idx_docs (index s)))).

(** ** More of [utils.py] and [aws.py] *)

(** A dictionary has one item per key. *)
Definition wf_dict (d : dict) : Prop := List.NoDup (map fst d).

(** A key with no dot in it names one level of a path. *)
Definition dotless (s : string) : bool :=
  forallb (fun c => negb (Ascii.eqb c ".")) (list_ascii_of_string s).

(** A plain key: not empty, and without dot, bracket or backslash
    (the character 92).  On keys like these [to_path] is what pydash
    computes. *)
Definition plain_key (s : string) : bool :=
  negb (String.eqb s EmptyString)
  && forallb (fun c => negb (Ascii.eqb c "." || Ascii.eqb c "[" || Ascii.eqb c "]"
                             || Ascii.eqb c "092"))
             (list_ascii_of_string s).

(** The date and the time of day as [isoformat] writes them, to the
    second. *)
Definition isoformat_seconds (t : datetime) : string :=
  zfill 4 (year t) +:+ "-" +:+ zfill 2 (month t) +:+ "-" +:+ zfill 2 (day t)
  +:+ "T" +:+ zfill 2 (hour t) +:+ ":" +:+ zfill 2 (minute t) +:+ ":"
  +:+ zfill 2 (second t).

(** [dt.isoformat()]: the microseconds follow, on six digits, unless
    they are zero. *)
Definition isoformat_auto (t : datetime) : string :=
  if microsecond t =? 0 then isoformat_seconds t
  else isoformat_seconds t +:+ "." +:+ zfill 6 (microsecond t).

(** [n] slashes. *)
Fixpoint slashes (n : nat) : string :=
  match n with
  | O => EmptyString
  | S n' => String "/" (slashes n')
  end.

Fixpoint last_char (s : string) : option ascii :=
  match s with
  | EmptyString => None
  | String c EmptyString => Some c
  | String _ s' => last_char s'
  end.

(** A path with something in it and no slash at either end. *)
Definition bare (y : string) : Prop :=
  y <> EmptyString /\ String.get 0 y <> Some "/"%char /\ last_char y <> Some "/"%char.

(** ** [utils.Timeout] *)

(** The numbers [seconds] can be: an [int], or a finite [float], which
    is a fraction. *)
Inductive number : Type :=
| NInt (n : Z)
| NFloat (num : Z) (den : positive).

(** The truth value of a number: it is not zero. *)
Definition truthy (x : number) : bool :=
  match x with
  | NInt n => negb (n =? 0)
  | NFloat num _ => negb (num =? 0)
  end.

(** [int(x)]: towards zero. *)
Definition int_of (x : number) : Z :=
  match x with
  | NInt n => n
  | NFloat num den => Z.quot num (Z.pos den)
  end.

Record Timeout : Type := mk_timeout {
  seconds : option Z;
  error_message : string
}.

(** [Timeout.__init__]; [seconds] is [None] or a number. *)
Definition Timeout_init (seconds : option number) (error_message : string) : Timeout :=
  mk_timeout
    (match seconds with
     | Some x => if truthy x then Some (int_of x) else None
     | None => None
     end)
    error_message.

(** What the [signal] module keeps for the process: the handler of
    [SIGALRM], here the message a handler of [Timeout] raises
    [TimeoutError] with ([None]: some other handler), and the one alarm
    that can be scheduled, in seconds. *)
Record signals : Type := mk_signals {
  handler : option string;
  alarm : option Z
}.

(** The range of a C [int], 32 bits wide on the platforms Python runs
    on. *)
Definition INT_MAX : Z := 2147483647.
Definition INT_MIN : Z := -2147483648.

(** [signal.alarm(n)]: [n] is converted to a C [int], and out of its
    range the call raises [OverflowError]; [alarm] reads it as
    unsigned, so that a negative number of seconds is a large one;
    zero cancels the alarm that is scheduled, whoever scheduled it. *)
Definition signal_alarm (n : Z) (p : signals) : result signals :=
  if (INT_MIN <=? n) && (n <=? INT_MAX) then
    Ok (mk_signals (handler p) (if n =? 0 then None else Some (n mod 2 ^ 32)))
  else Raise OverflowError.

(** [if self.seconds:] *)
Definition armed (t : Timeout) : bool :=
  match seconds t with
  | Some n => negb (n =? 0)
  | None => false
  end.

(** [Timeout.__enter__], in the main thread:
    [signal.signal(SIGALRM, self.handle_timeout)], then
    [signal.alarm(self.seconds)], which can raise with the handler
    installed already. *)
Definition Timeout_enter (t : Timeout) (p : signals) : signals * option exn :=
  match seconds t with
  | Some n =>
      if negb (n =? 0) then
        let p1 := mk_signals (Some (error_message t)) (alarm p) in
        match signal_alarm n p1 with
        | Ok p2 => (p2, None)
        | Raise e => (p1, Some e)
        end
      else (p, None)
  | None => (p, None)
  end.

(** [Timeout.__exit__]: [signal.alarm(0)]. *)
Definition Timeout_exit (t : Timeout) (p : signals) : signals :=
  if armed t then
    match signal_alarm 0 p with
    | Ok p' => p'
    | Raise _ => p
    end
  else p.

Section Lifecycle.
Context {L : Libs}.

Definition without_bucket (s : S3Store) : S3Store :=
  mk_store (index s) (bucket s) (s3_profile s) (compress s) (endpoint_url s)
           (sub_dir s) None (s3_workers s) (key s) (last_updated_field s).

(** Modelled from the spec: [index.connect()] and [index.close()] open
    and close the index, and never fail; [index_connected] tells
    whether it is open.  [s3] is the resource [connect] keeps, [None]
    before [connect] and after [close]; [service] below is what that
    resource gives access to. *)
Record Client : Type := mk_client {
  store : S3Store;
  s3 : option (gmap string Bucket);
  index_connected : bool
}.

(** What [connect] raises: [Exception("Bucket not present on AWS: ...")]. *)
Inductive connect_exn : Type :=
| BucketNotPresent (msg : string).

(** [S3Store.connect]; [service] is what the session's resource gives
    access to, the buckets by name.  The session and the listing of
    the buckets are taken to succeed. *)
Definition S3Store_connect (c : Client) (service : gmap string Bucket)
  : Client * option connect_exn :=
  match s3 c with
  | None =>
      match service !! bucket (store c) with
      | None =>
          (mk_client (store c) (Some service) (index_connected c),
           Some (BucketNotPresent ("Bucket not present on AWS: " +:+ bucket (store c))))
      | Some b => (mk_client (with_bucket (store c) b) (Some service) true, None)
      end
  | Some _ => (mk_client (store c) (s3 c) true, None)
  end.

(** [S3Store.close] *)
Definition S3Store_close (c : Client) : Client :=
  mk_client (without_bucket (store c)) None false.

End Lifecycle.

(** A connected store with three entries and their three blobs. *)
Definition three_blobs : @Bucket blob_libs :=
  mk_bucket "bucket"
    (<["mp-1" := @mk_object blob_libs (Packed (VDict doc_a)) [("task_id", VStr "mp-1")]]>
     (<["mp-2" := @mk_object blob_libs (Packed (VDict doc_b)) [("task_id", VStr "mp-2")]]>
      (<["mp-3" := @mk_object blob_libs (Packed (VDict doc_c)) [("task_id", VStr "mp-3")]]>
       ∅)))
    ∅ [].

Definition three_entries : list dict :=
  [[("task_id", VStr "mp-1")]; [("task_id", VStr "mp-2")]; [("task_id", VStr "mp-3")]].

Definition three_store : @S3Store blob_libs :=
  mk_store (example_index 1 three_entries) "bucket" None false None ""
           (Some three_blobs) 4 "task_id" "last_updated".

(** The same store after the blob of the second entry is lost. *)
Definition two_blobs : @Bucket blob_libs :=
  mk_bucket "bucket"
    (<["mp-1" := @mk_object blob_libs (Packed (VDict doc_a)) [("task_id", VStr "mp-1")]]>
     (<["mp-3" := @mk_object blob_libs (Packed (VDict doc_c)) [("task_id", VStr "mp-3")]]>
      ∅))
    ∅ [].

Definition missing_store : @S3Store blob_libs := with_bucket three_store two_blobs.

(** The same store on a backend that answers the read of the second
    blob with an error whose code is the status, ["404"]. *)
Definition gone_store : @S3Store blob_libs :=
  with_bucket three_store
    (mk_bucket "bucket" (objects three_blobs) {[ "mp-2" := ClientError "404" ]} []).

(** The same store on a backend that refuses the read of the second
    blob. *)
Definition denied_store : @S3Store blob_libs :=
  with_bucket three_store
    (mk_bucket "bucket" (objects three_blobs) {[ "mp-2" := ClientError "AccessDenied" ]} []).

(** * Properties *)

#[local] Arguments append : simpl nomatch.

(** ** Decimal fields: what is written is what is read *)

Lemma append_assoc (a b c : string) : (a +:+ b) +:+ c = a +:+ (b +:+ c).
Proof. induction a as [|x a IH]; simpl; [reflexivity | f_equal; exact IH]. Qed.

Lemma digit_val_char (n : Z) : digit_val (digit_char n) = Some (n mod 10).
Proof.
  unfold digit_char.
  assert (Hr : 0 <= n mod 10 < 10) by (apply Z.mod_pos_bound; lia).
  remember (n mod 10) as k eqn:Ek. clear Ek.
  assert (Hk : k = 0 \/ k = 1 \/ k = 2 \/ k = 3 \/ k = 4 \/ k = 5 \/ k = 6
               \/ k = 7 \/ k = 8 \/ k = 9) by lia.
  repeat destruct Hk as [-> | Hk]; try reflexivity.
  subst k. reflexivity.
Qed.

Lemma read_digits_snoc (w : nat) : forall (s : string) (acc : Z),
  read_digits (S w) s acc =
  opt_bind (read_digits w s acc) (fun p => read_digits 1 (snd p) (fst p)).
Proof.
  induction w as [|w IH]; intros s acc.
  - reflexivity.
  - change (read_digits (S (S w)) s acc) with
      (match s with
       | String c s' =>
           match digit_val c with
           | Some d => read_digits (S w) s' (10 * acc + d)
           | None => None
           end
       | EmptyString => None
       end).
    destruct s as [|c s']; [reflexivity|].
    simpl (read_digits (S w) (String c s') acc).
    destruct (digit_val c) as [d|]; [|reflexivity].
    apply IH.
Qed.

Lemma read_digits_zfill (w : nat) : forall (n acc : Z) (rest : string),
  0 <= n < 10 ^ Z.of_nat w ->
  read_digits w (zfill w n +:+ rest) acc = Some (acc * 10 ^ Z.of_nat w + n, rest).
Proof.
  induction w as [|w IH]; intros n acc rest Hn.
  - simpl in *. f_equal. f_equal. lia.
  - rewrite read_digits_snoc. cbn [zfill]. rewrite append_assoc.
    assert (Hpow : 10 ^ Z.of_nat (S w) = 10 * 10 ^ Z.of_nat w)
      by (rewrite Nat2Z.inj_succ, Z.pow_succ_r; lia).
    rewrite IH by (split; [apply Z.div_pos; lia | apply Z.div_lt_upper_bound; lia]).
    cbn [opt_bind fst snd append read_digits]. rewrite digit_val_char.
    f_equal. f_equal. rewrite Hpow.
    pose proof (Z.div_mod n 10 ltac:(lia)). lia.
Qed.

Lemma digits_acc_app (a b : string) : forall acc,
  digits_acc (a +:+ b) acc = opt_bind (digits_acc a acc) (digits_acc b).
Proof.
  induction a as [|c a IH]; intros acc; simpl; [reflexivity|].
  destruct (digit_val c); [apply IH | reflexivity].
Qed.

Lemma digits_acc_zfill (w : nat) : forall (n acc : Z),
  0 <= n < 10 ^ Z.of_nat w ->
  digits_acc (zfill w n) acc = Some (acc * 10 ^ Z.of_nat w + n).
Proof.
  induction w as [|w IH]; intros n acc Hn.
  - simpl in *. f_equal. lia.
  - cbn [zfill]. rewrite digits_acc_app.
    assert (Hpow : 10 ^ Z.of_nat (S w) = 10 * 10 ^ Z.of_nat w)
      by (rewrite Nat2Z.inj_succ, Z.pow_succ_r; lia).
    rewrite IH by (split; [apply Z.div_pos; lia | apply Z.div_lt_upper_bound; lia]).
    cbn [opt_bind digits_acc]. rewrite digit_val_char. f_equal. rewrite Hpow.
    pose proof (Z.div_mod n 10 ltac:(lia)). lia.
Qed.

Lemma length_zfill (w : nat) : forall n, String.length (zfill w n) = w.
Proof.
  induction w as [|w IH]; intros n; [reflexivity|].
  cbn [zfill].
  assert (Happ : forall a b, String.length (a +:+ b) = (String.length a + String.length b)%nat).
  { intros a b. induction a as [|c a IHa]; simpl; [reflexivity | f_equal; exact IHa]. }
  rewrite Happ, IH. simpl. lia.
Qed.

Lemma read_fraction_zfill (n : Z) :
  0 <= n < 1000 -> read_fraction (zfill 3 n) = Some (n * 1000).
Proof.
  intros Hn. unfold read_fraction. rewrite length_zfill.
  cbn [Nat.leb andb]. unfold digits.
  destruct (zfill 3 n) eqn:E.
  - apply (f_equal String.length) in E. rewrite length_zfill in E. discriminate.
  - rewrite <- E, digits_acc_zfill by (simpl; lia). f_equal.
Qed.

(** ** Datetimes *)

Lemma days_in_month_bounds (y m : Z) : 28 <= days_in_month y m <= 31.
Proof.
  unfold days_in_month.
  destruct (m =? 2); [destruct (is_leap y); lia|].
  destruct ((m =? 4) || (m =? 6) || (m =? 9) || (m =? 11)); lia.
Qed.

Lemma valid_datetime_spec (t : datetime) :
  valid_datetime t = true <->
  (1 <= year t <= 9999 /\ 1 <= month t <= 12 /\
   1 <= day t <= days_in_month (year t) (month t) /\
   0 <= hour t <= 23 /\ 0 <= minute t <= 59 /\ 0 <= second t <= 59 /\
   0 <= microsecond t <= 999999).
Proof.
  unfold valid_datetime, MINYEAR, MAXYEAR.
  rewrite !andb_true_iff, !Z.leb_le. tauto.
Qed.

Ltac split_if :=
  match goal with
  | |- context [if ?b <? ?c then _ else _] => destruct (Z.ltb_spec b c)
  | H : context [if ?b <? ?c then _ else _] |- _ => destruct (Z.ltb_spec b c)
  end.

Lemma add_millisecond_valid (t u : datetime) :
  valid_datetime t = true -> add_millisecond t = Ok u -> valid_datetime u = true.
Proof.
  rewrite !valid_datetime_spec. intros Hv Hu.
  pose proof (days_in_month_bounds (year t) (month t)).
  pose proof (days_in_month_bounds (year t) (month t + 1)).
  pose proof (days_in_month_bounds (year t + 1) 1).
  unfold add_millisecond, next_second, next_day, with_microsecond, MAXYEAR in Hu.
  cbn [year month day hour minute second microsecond] in Hu.
  repeat split_if; try discriminate; injection Hu as <-;
    cbn [year month day hour minute second microsecond]; lia.
Qed.

Lemma datetime_lt_last (t : datetime) :
  valid_datetime t = true -> datetime_lt t last_millisecond ->
  year t < 9999 \/ month t < 12 \/ day t < 31 \/ hour t < 23 \/ minute t < 59
  \/ second t < 59 \/ microsecond t < 999000.
Proof.
  rewrite valid_datetime_spec. intros Hv. unfold datetime_lt, datetime_compare, lex.
  pose proof (days_in_month_bounds (year t) (month t)).
  cbn [year month day hour minute second microsecond last_millisecond].
  destruct (Z.compare_spec (year t) 9999); [|lia|lia].
  destruct (Z.compare_spec (month t) 12); [|lia|lia].
  destruct (Z.compare_spec (day t) 31); [|lia|lia].
  destruct (Z.compare_spec (hour t) 23); [|lia|lia].
  destruct (Z.compare_spec (minute t) 59); [|lia|lia].
  destruct (Z.compare_spec (second t) 59); [|lia|lia].
  destruct (Z.compare_spec (microsecond t) 999000); [discriminate|lia|discriminate].
Qed.

Lemma add_millisecond_total (t : datetime) :
  valid_datetime t = true -> datetime_lt t last_millisecond ->
  exists u, add_millisecond t = Ok u.
Proof.
  intros Hv Hlt. pose proof (datetime_lt_last t Hv Hlt) as Hd.
  apply valid_datetime_spec in Hv.
  unfold add_millisecond, next_second, next_day, with_microsecond, MAXYEAR.
  cbn [year month day hour minute second microsecond].
  repeat split_if; eauto.
  exfalso.
  assert (month t = 12) by lia.
  assert (days_in_month (year t) (month t) = 31)
    by (replace (month t) with 12 by lia; reflexivity).
  lia.
Qed.

Lemma compare_lt_lex (a b : Z) (k : comparison) : a < b -> lex (a ?= b) k = Lt.
Proof. intros H. apply Z.compare_lt_iff in H. now rewrite H. Qed.

Lemma compare_eq_lex (a : Z) (k : comparison) : lex (a ?= a) k = k.
Proof. now rewrite Z.compare_refl. Qed.

Lemma floor_ms_ceil (us : Z) : 0 <= us -> us < (us + 1000) / 1000 * 1000.
Proof.
  intros H. pose proof (Z.div_mod (us + 1000) 1000 ltac:(lia)).
  pose proof (Z.mod_pos_bound (us + 1000) 1000 ltac:(lia)). lia.
Qed.

Lemma add_millisecond_floor_gt (t u : datetime) :
  valid_datetime t = true -> add_millisecond t = Ok u -> datetime_lt t (floor_ms u).
Proof.
  rewrite valid_datetime_spec. intros Hv Hu.
  pose proof (floor_ms_ceil (microsecond t) ltac:(lia)).
  unfold add_millisecond, next_second, next_day, with_microsecond, MAXYEAR in Hu.
  cbn [year month day hour minute second microsecond] in Hu.
  unfold datetime_lt, datetime_compare, floor_ms, with_microsecond.
  repeat split_if; try discriminate; injection Hu as <-;
    cbn [year month day hour minute second microsecond];
    repeat first [ apply compare_lt_lex; lia | rewrite compare_eq_lex ];
    apply Z.compare_lt_iff; lia.
Qed.

Lemma floor_ms_valid (u : datetime) :
  valid_datetime u = true -> valid_datetime (floor_ms u) = true.
Proof.
  rewrite !valid_datetime_spec. unfold floor_ms, with_microsecond.
  cbn [year month day hour minute second microsecond]. intros Hv.
  pose proof (Z.div_mod (microsecond u) 1000 ltac:(lia)).
  pose proof (Z.mod_pos_bound (microsecond u) 1000 ltac:(lia)).
  repeat split; try lia.
Qed.

Lemma read_char_lit (c : ascii) (rest : string) :
  read_char c (String c EmptyString +:+ rest) = Some rest.
Proof. simpl. now rewrite Ascii.eqb_refl. Qed.

Lemma read_date_time_isoformat (t : datetime) :
  valid_datetime t = true ->
  read_date_time (isoformat_ms t) =
  Some (with_microsecond t 0, "." +:+ zfill 3 (microsecond t / 1000)).
Proof.
  intros Hv. apply valid_datetime_spec in Hv.
  pose proof (days_in_month_bounds (year t) (month t)).
  unfold read_date_time, isoformat_ms.
  repeat (rewrite read_digits_zfill by (simpl; lia); cbn [opt_bind];
          try (rewrite read_char_lit; cbn [opt_bind])).
  unfold with_microsecond. repeat f_equal.
Qed.

Lemma isostr_to_dt_isoformat (u : datetime) :
  valid_datetime u = true -> isostr_to_dt (isoformat_ms u) = Ok (floor_ms u).
Proof.
  intros Hv. pose proof (floor_ms_valid u Hv) as Hf.
  unfold isostr_to_dt, strptime_fraction.
  rewrite read_date_time_isoformat by exact Hv.
  rewrite read_char_lit. cbn [opt_bind].
  apply valid_datetime_spec in Hv.
  rewrite read_fraction_zfill.
  2:{ split; [apply Z.div_pos; lia | apply Z.div_lt_upper_bound; lia]. }
  unfold checked.
  change (with_microsecond (with_microsecond u 0) (microsecond u / 1000 * 1000))
    with (floor_ms u).
  now rewrite Hf.
Qed.

Lemma isoformat_floor_ms (u : datetime) : isoformat_ms (floor_ms u) = isoformat_ms u.
Proof.
  unfold isoformat_ms, floor_ms, with_microsecond.
  cbn [year month day hour minute second microsecond].
  now rewrite Z.div_mul by lia.
Qed.

(** C6 (as amended).  For every datetime [t1] earlier than the last
    millisecond [datetime] can hold, [dt_to_isoformat_ceil_ms] returns a
    string that [isostr_to_dt] parses to a datetime not earlier than
    [t1]; and two such datetimes whose ceilings [t + 1 ms] fall in the
    same millisecond are normalized to the same string. *)
Theorem ceil_ms_roundtrip (t1 t2 : datetime) :
  valid_datetime t1 = true -> valid_datetime t2 = true ->
  datetime_lt t1 last_millisecond -> datetime_lt t2 last_millisecond ->
  exists s1 s2 u1 u2 t',
    dt_to_isoformat_ceil_ms t1 = Ok s1 /\ dt_to_isoformat_ceil_ms t2 = Ok s2 /\
    add_millisecond t1 = Ok u1 /\ add_millisecond t2 = Ok u2 /\
    isostr_to_dt s1 = Ok t' /\ datetime_le t1 t' /\
    (same_millisecond u1 u2 -> s1 = s2).
Proof.
  intros Hv1 Hv2 Hl1 Hl2.
  destruct (add_millisecond_total t1 Hv1 Hl1) as [u1 Hu1].
  destruct (add_millisecond_total t2 Hv2 Hl2) as [u2 Hu2].
  exists (isoformat_ms u1), (isoformat_ms u2), u1, u2, (floor_ms u1).
  unfold dt_to_isoformat_ceil_ms. rewrite Hu1, Hu2. cbn [bind].
  split; [reflexivity|]. split; [reflexivity|].
  split; [reflexivity|]. split; [reflexivity|].
  split; [|split].
  - apply isostr_to_dt_isoformat. exact (add_millisecond_valid t1 u1 Hv1 Hu1).
  - unfold datetime_le. rewrite (add_millisecond_floor_gt t1 u1 Hv1 Hu1). discriminate.
  - unfold same_millisecond. intros Hs.
    rewrite <- (isoformat_floor_ms u1), <- (isoformat_floor_ms u2). now rewrite Hs.
Qed.

Lemma ceil_ms_roundtrip_witness :
  exists s1 s2 u1 u2 t',
    dt_to_isoformat_ceil_ms example_t1 = Ok s1 /\
    dt_to_isoformat_ceil_ms example_t2 = Ok s2 /\
    add_millisecond example_t1 = Ok u1 /\ add_millisecond example_t2 = Ok u2 /\
    isostr_to_dt s1 = Ok t' /\ datetime_le example_t1 t' /\
    (same_millisecond u1 u2 -> s1 = s2).
Proof. apply (ceil_ms_roundtrip example_t1 example_t2); reflexivity. Defined.

(** At [datetime.max] the millisecond cannot be added: the call raises
    [OverflowError] and there is no string to parse. *)
Lemma ceil_ms_overflows_at_max :
  valid_datetime datetime_max = true /\
  dt_to_isoformat_ceil_ms datetime_max = Raise OverflowError /\
  ~ (exists s t', dt_to_isoformat_ceil_ms datetime_max = Ok s /\
                  isostr_to_dt s = Ok t' /\ datetime_le datetime_max t').
Proof.
  split; [reflexivity|]. split; [reflexivity|].
  intros (s & t' & Hs & _). discriminate Hs.
Qed.

(** ** [grouper] *)

Section Grouper.
Context {A : Type}.
Implicit Types (l : list A) (n fuel : nat).

Lemma grouper_from_map {B : Type} (f : A -> B) n : forall fuel l,
  grouper_from fuel (map f l) n = map (map f) (grouper_from fuel l n).
Proof.
  induction fuel as [|fuel IH]; intros l; simpl; [reflexivity|].
  rewrite firstn_map, skipn_map.
  destruct (firstn n l) eqn:E; simpl; [reflexivity|].
  f_equal. apply IH.
Qed.

Lemma grouper_map {B : Type} (f : A -> B) l n :
  grouper (map f l) n = map (map f) (grouper l n).
Proof. unfold grouper. rewrite length_map. apply grouper_from_map. Qed.

Lemma concat_grouper_from n : forall fuel l,
  (List.length l < fuel)%nat -> (0 < n)%nat -> concat (grouper_from fuel l n) = l.
Proof.
  induction fuel as [|fuel IH]; intros l Hl Hn; [lia|]. simpl.
  destruct (firstn n l) as [|x c] eqn:E.
  - destruct l; [reflexivity|]. destruct n; [lia | discriminate].
  - rewrite <- E. simpl. rewrite IH; [apply firstn_skipn | | exact Hn].
    rewrite length_skipn. destruct l; [destruct n; discriminate|]. simpl in *. lia.
Qed.

Lemma grouper_from_sizes n : forall fuel l,
  map (@List.length A) (grouper_from fuel l n) = chunk_sizes fuel (List.length l) n.
Proof.
  induction fuel as [|fuel IH]; intros l; simpl; [reflexivity|].
  pose proof (length_firstn n l) as Hlen.
  destruct (firstn n l) as [|x c] eqn:E; simpl in Hlen.
  - now rewrite <- Hlen.
  - rewrite <- Hlen. simpl. f_equal. rewrite IH. now rewrite length_skipn.
Qed.

Lemma grouper_from_bound n : forall fuel l,
  Forall (fun c => (0 < List.length c <= n)%nat) (grouper_from fuel l n).
Proof.
  induction fuel as [|fuel IH]; intros l; simpl; [constructor|].
  pose proof (length_firstn n l) as Hlen.
  destruct (firstn n l) as [|x c] eqn:E; [constructor|].
  constructor; [|apply IH]. simpl in *. lia.
Qed.

End Grouper.

(** ** [remove_docs] *)

Section RemoveDocs.
Context {L : Libs}.

Lemma map_result_str_add (prefix : string) (ks : list string) :
  map_result (str_add prefix) (map VStr ks) = Ok (map (append prefix) ks).
Proof.
  induction ks as [|k ks IH]; [reflexivity|].
  cbn [map map_result str_add bind]. now rewrite IH.
Qed.

Lemma delete_chunks_strings (chunks : list (list string)) : forall (s : S3Store) (b : Bucket),
  s3_bucket s = Some b ->
  Forall (fun c => (0 < List.length c <= 1000)%nat) chunks ->
  exists s' b',
    delete_chunks s (map (map VStr) chunks) = (s', None) /\
    s3_bucket s' = Some b' /\ index s' = index s /\
    calls b' = (calls b ++ map DeleteObjects (map (map (append (sub_dir s))) chunks))%list.
Proof.
  induction chunks as [|c chunks IH]; intros s b Hb Hall.
  - exists s, b. simpl. rewrite app_nil_r. auto.
  - inversion Hall as [|? ? Hc Hrest]; subst.
    cbn [map delete_chunks]. rewrite map_result_str_add. cbn [bind].
    unfold handle. rewrite Hb. cbn [bind]. unfold delete_objects.
    rewrite length_map.
    replace (Nat.ltb bulk_delete_limit (List.length c)) with false
      by (symmetry; apply Nat.ltb_ge; unfold bulk_delete_limit; lia).
    set (b1 := served b _ _).
    destruct (IH (with_bucket s b1) b1 eq_refl Hrest) as (s' & b' & Hrun & Hb' & Hi & Hcalls).
    exists s', b'. rewrite Hrun. repeat split; [exact Hb' | exact Hi |].
    rewrite Hcalls. subst b1. cbn [calls served with_bucket sub_dir].
    now rewrite <- app_assoc.
Qed.

End RemoveDocs.

(** ** Values and dictionaries *)

Lemma datetime_eqb_refl (t : datetime) : datetime_eqb t t = true.
Proof.
  unfold datetime_eqb, datetime_compare. now rewrite !compare_eq_lex, Z.compare_refl.
Qed.

Lemma value_eqb_refl : forall v : value, value_eqb v v = true.
Proof.
  fix IH 1. intros [| b | n | s | t | l | d]; simpl.
  - reflexivity.
  - now destruct b.
  - apply Z.eqb_refl.
  - apply String.eqb_refl.
  - apply datetime_eqb_refl.
  - induction l as [|x l IHl]; [reflexivity|]. now rewrite IH, IHl.
  - induction d as [|[k x] d IHd]; [reflexivity|].
    now rewrite String.eqb_refl, IH, IHd.
Qed.

Lemma datetime_eqb_eq (a b : datetime) : datetime_eqb a b = true -> a = b.
Proof.
  unfold datetime_eqb, datetime_compare, lex. destruct a, b.
  cbn [year month day hour minute second microsecond].
  repeat match goal with
         | |- context [?x ?= ?y] => destruct (Z.compare_spec x y); try discriminate
         end.
  intros _. congruence.
Qed.

Lemma value_eqb_eq : forall a b : value, value_eqb a b = true -> a = b.
Proof.
  fix IH 1. intros [| x | x | x | x | l | d] [| y | y | y | y | m | e]; simpl;
    try discriminate; intros H.
  - reflexivity.
  - f_equal. now apply Bool.eqb_prop.
  - f_equal. now apply Z.eqb_eq.
  - f_equal. now apply String.eqb_eq.
  - f_equal. now apply datetime_eqb_eq.
  - f_equal. revert m H. induction l as [|x l IHl]; intros [|y m] H; try discriminate.
    + reflexivity.
    + apply andb_true_iff in H as [Hx Hl]. f_equal; [now apply IH | now apply IHl].
  - f_equal. revert e H. induction d as [|[k x] d IHd]; intros [|[k' y] e] H; try discriminate.
    + reflexivity.
    + apply andb_true_iff in H as [H Hd]. apply andb_true_iff in H as [Hk Hx].
      apply String.eqb_eq in Hk. subst k'. f_equal; [f_equal; now apply IH | now apply IHd].
Qed.

Lemma dict_get_set_eq (d : dict) (k : string) (v : value) :
  dict_get (dict_set d k v) k = Some v.
Proof.
  induction d as [|[k' v'] d IH]; simpl.
  - now rewrite String.eqb_refl.
  - destruct (String.eqb k k') eqn:E; simpl; rewrite ?String.eqb_refl, ?E; auto.
Qed.

Lemma dict_get_set_ne (d : dict) (k k' : string) (v : value) :
  k <> k' -> dict_get (dict_set d k v) k' = dict_get d k'.
Proof.
  intros Hne. induction d as [|[k0 v0] d IH]; simpl.
  - destruct (String.eqb_spec k' k); [congruence | reflexivity].
  - destruct (String.eqb_spec k k0) as [->|]; simpl.
    + destruct (String.eqb_spec k' k0); [congruence | reflexivity].
    + destruct (String.eqb_spec k' k0); [reflexivity | exact IH].
Qed.

Lemma dict_get_del_ne (d : dict) (k k' : string) :
  k <> k' -> dict_get (dict_del d k) k' = dict_get d k'.
Proof.
  intros Hne. induction d as [|[k0 v0] d IH]; simpl; [reflexivity|].
  destruct (String.eqb_spec k k0) as [->|]; simpl.
  - destruct (String.eqb_spec k' k0); [congruence | reflexivity].
  - destruct (String.eqb_spec k' k0); [reflexivity | exact IH].
Qed.

Lemma valid_metadata_get (meta : dict) (k : string) (v : value) :
  valid_metadata meta = true -> dict_get meta k = Some v -> exists s, v = VStr s.
Proof.
  unfold valid_metadata. induction meta as [|[k' v'] meta IH]; simpl; [discriminate|].
  intros Hall Hget. apply andb_true_iff in Hall as [Hv Hall].
  destruct (String.eqb k k').
  - injection Hget as <-. destruct v'; try discriminate. eauto.
  - auto.
Qed.

(** ** [remove_docs] without the blobs, and [substitute] *)

(** C7.  [remove_docs] with [remove_s3_object=False] raises nothing,
    removes from the index the entries that match the criteria and no
    others, and leaves the bucket handle, the objects and the log of
    requests as they were: no request reaches the backend. *)
Theorem remove_docs_keeps_blobs {L : Libs} (s : S3Store) (crit : dict -> bool) :
  snd (S3Store_remove_docs s crit false) = None /\
  s3_bucket (fst (S3Store_remove_docs s crit false)) = s3_bucket s /\
  forall e : dict,
    In e (idx_docs (index (fst (S3Store_remove_docs s crit false)))) <->
    In e (idx_docs (index s)) /\ crit e = false.
Proof.
  unfold S3Store_remove_docs. cbn [negb fst snd with_index s3_bucket index].
  split; [reflexivity|]. split; [reflexivity|].
  intros e. unfold index_remove_docs, with_docs. cbn [idx_docs].
  rewrite filter_In, negb_true_iff. reflexivity.
Qed.

(** C9.  [substitute] on [{"a": {"b": 1}}] with the alias [x] for
    ["a.b"]: the value is copied to [x], the entry [b] is removed from
    [a], and [a], left empty, is removed; what remains is [{"x": 1}]. *)
Theorem substitute_nested_alias :
  let d := [("a", VDict [("b", VInt 1)])] in
  has d (to_path "a.b") = true /\
  set_path d (to_path "x") (get d (to_path "a.b"))
    = Ok [("a", VDict [("b", VInt 1)]); ("x", VInt 1)] /\
  unset_path [("a", VDict [("b", VInt 1)]); ("x", VInt 1)] (to_path "a.b")
    = [("a", VDict []); ("x", VInt 1)] /\
  unset [("a", VDict [("b", VInt 1)]); ("x", VInt 1)] (to_path "a.b")
    = Ok [("x", VInt 1)] /\
  substitute d [("x", "a.b")] = Ok [("x", VInt 1)].
Proof. cbv zeta. repeat split. Qed.

(** ** [query] *)

Section Query.
Context {L : Libs}.

Lemma query_loop_app (s : S3Store) (properties : option (list string))
    (before : list dict) (docs : list value) : forall rest : list dict,
  Forall2 (fun e d => query_entry s properties e = Yield d) before docs ->
  query_loop s properties (before ++ rest) =
  (docs ++ fst (query_loop s properties rest), snd (query_loop s properties rest))%list.
Proof.
  intros rest Hall. induction Hall as [|e d before docs He Hall IH]; simpl.
  - now destruct (query_loop s properties rest).
  - rewrite He, IH. reflexivity.
Qed.

Lemma query_entry_not_found (s : S3Store) (properties : option (list string))
    (doc : dict) (code : string) :
  requires_fetch properties doc = true ->
  fetch s doc = Raise (ClientError code) ->
  py_int code = Ok 404 ->
  query_entry s properties doc = Break.
Proof.
  intros Hreq Hfetch Hcode.
  assert (Hstep : fetch_step s doc = Break)
    by (unfold fetch_step; now rewrite Hfetch, Hcode).
  unfold query_entry, requires_fetch in *.
  destruct properties as [ps|]; [|exact Hstep].
  apply negb_true_iff in Hreq. now rewrite Hreq.
Qed.

Lemma query_entry_unreadable (s : S3Store) (properties : option (list string))
    (doc : dict) (code : string) (e : exn) :
  requires_fetch properties doc = true ->
  fetch s doc = Raise (ClientError code) ->
  py_int code = Raise e ->
  query_entry s properties doc = Throw e.
Proof.
  intros Hreq Hfetch Hcode.
  assert (Hstep : fetch_step s doc = Throw e)
    by (unfold fetch_step; now rewrite Hfetch, Hcode).
  unfold query_entry, requires_fetch in *.
  destruct properties as [ps|]; [|exact Hstep].
  apply negb_true_iff in Hreq. now rewrite Hreq.
Qed.

(** The read of an object that is not in the bucket, on a key where
    the backend is not failing, raises a [ClientError] with the code
    ["NoSuchKey"]. *)
Lemma fetch_absent (s : S3Store) (b : Bucket) (doc : dict) (kv : string) :
  s3_bucket s = Some b ->
  dict_get doc (key s) = Some (VStr kv) ->
  faults b !! (sub_dir s +:+ kv) = None ->
  objects b !! (sub_dir s +:+ kv) = None ->
  fetch s doc = Raise (ClientError "NoSuchKey").
Proof.
  intros Hb Hk Hf Ho.
  unfold fetch, handle, getitem, get_object. rewrite Hb, Hk. cbn [bind str_add].
  now rewrite Hf, Ho.
Qed.

(** C3, on the code.  The index answers a query with the entries
    [before], then [missing], then [after]; the entries of [before]
    yield the documents [docs]; and the blob [missing] needs is not in
    the bucket of the connected store.  Then the query yields [docs]
    and does not stop quietly there: the read of the blob raises a
    [ClientError] whose code is ["NoSuchKey"], [int] of that code
    raises, and the query ends by raising [ValueError]. *)
Theorem query_raises_at_missing_blob (s : S3Store) (b : Bucket) (q : Query)
    (properties : option (list string)) (before after : list dict)
    (missing : dict) (docs : list value) (kv : string) :
  index_query (index s) q = (before ++ missing :: after)%list ->
  Forall2 (fun e d => query_entry s properties e = Yield d) before docs ->
  requires_fetch properties missing = true ->
  s3_bucket s = Some b ->
  dict_get missing (key s) = Some (VStr kv) ->
  faults b !! (sub_dir s +:+ kv) = None ->
  objects b !! (sub_dir s +:+ kv) = None ->
  S3Store_query s q properties = (docs, Some ValueError).
Proof.
  intros Hq Hbefore Hreq Hb Hk Hf Ho. unfold S3Store_query. rewrite Hq.
  rewrite (query_loop_app s properties before docs _ Hbefore).
  cbn [query_loop].
  rewrite (query_entry_unreadable s properties missing "NoSuchKey" ValueError Hreq
             (fetch_absent s b missing kv Hb Hk Hf Ho) eq_refl).
  cbn [fst snd]. now rewrite app_nil_r.
Qed.

(** When the index answers a query with the entries [before], then
    [missing], then [after], the entries of [before] yield the documents
    [docs], and the read of the blob [missing] needs raises a
    [ClientError] whose code reads 404, the query yields exactly [docs]
    and ends without raising: [missing] yields nothing and the entries
    of [after] are never reached. *)
Theorem query_stops_at_404 (s : S3Store) (q : Query)
    (properties : option (list string)) (before after : list dict)
    (missing : dict) (docs : list value) (code : string) :
  index_query (index s) q = (before ++ missing :: after)%list ->
  Forall2 (fun e d => query_entry s properties e = Yield d) before docs ->
  requires_fetch properties missing = true ->
  fetch s missing = Raise (ClientError code) ->
  py_int code = Ok 404 ->
  S3Store_query s q properties = (docs, None).
Proof.
  intros Hq Hbefore Hreq Hfetch Hcode. unfold S3Store_query. rewrite Hq.
  rewrite (query_loop_app s properties before docs _ Hbefore).
  cbn [query_loop].
  rewrite (query_entry_not_found s properties missing code Hreq Hfetch Hcode).
  cbn [fst snd]. now rewrite app_nil_r.
Qed.

End Query.

(** Three entries match, the blob of the second is gone: the document
    of the first is yielded, and then the query raises. *)
Lemma query_raises_at_missing_blob_witness :
  List.length (index_query (index missing_store) all_docs) = 3%nat /\
  S3Store_query missing_store all_docs None = ([VDict doc_a], Some ValueError).
Proof.
  split; [reflexivity|].
  apply (query_raises_at_missing_blob missing_store two_blobs all_docs None
           [[("task_id", VStr "mp-1")]] [[("task_id", VStr "mp-3")]]
           [("task_id", VStr "mp-2")] [VDict doc_a] "mp-2").
  - reflexivity.
  - constructor; [reflexivity | constructor].
  - reflexivity.
  - reflexivity.
  - reflexivity.
  - reflexivity.
  - reflexivity.
Defined.

(** The backend answers the read of the second of three blobs with the
    code ["404"]: one document, the first, is yielded. *)
Lemma query_stops_at_404_witness :
  S3Store_query gone_store all_docs None = ([VDict doc_a], None).
Proof.
  apply (query_stops_at_404 gone_store all_docs None
           [[("task_id", VStr "mp-1")]] [[("task_id", VStr "mp-3")]]
           [("task_id", VStr "mp-2")] [VDict doc_a] "404").
  - reflexivity.
  - constructor; [reflexivity | constructor].
  - reflexivity.
  - reflexivity.
  - reflexivity.
Defined.

Section QueryErrors.
Context {L : Libs}.

(** A [ClientError] whose code reads as a number other than 404 ends
    the query by being raised, after the documents of the entries
    before it have been yielded. *)
Theorem query_raises_other_errors (s : S3Store) (q : Query)
    (properties : option (list string)) (before after : list dict)
    (failing : dict) (docs : list value) (code : string) (n : Z) :
  index_query (index s) q = (before ++ failing :: after)%list ->
  Forall2 (fun e d => query_entry s properties e = Yield d) before docs ->
  requires_fetch properties failing = true ->
  fetch s failing = Raise (ClientError code) ->
  py_int code = Ok n -> n <> 404 ->
  S3Store_query s q properties = (docs, Some (ClientError code)).
Proof.
  intros Hq Hbefore Hreq Hfetch Hcode Hn. unfold S3Store_query. rewrite Hq.
  rewrite (query_loop_app s properties before docs _ Hbefore).
  cbn [query_loop].
  assert (Hstep : fetch_step s failing = Throw (ClientError code)).
  { unfold fetch_step. rewrite Hfetch, Hcode.
    destruct (Z.eqb_spec n 404); [contradiction | reflexivity]. }
  assert (Hentry : query_entry s properties failing = Throw (ClientError code)).
  { unfold query_entry, requires_fetch in *.
    destruct properties as [ps|]; [|exact Hstep].
    apply negb_true_iff in Hreq. now rewrite Hreq. }
  rewrite Hentry. cbn [fst snd]. now rewrite app_nil_r.
Qed.

End QueryErrors.

Lemma query_raises_other_errors_witness :
  S3Store_query faulty_store all_docs None = ([VDict doc_a], Some (ClientError "500")).
Proof.
  apply (query_raises_other_errors faulty_store all_docs None
           [[("task_id", VStr "mp-1")]] [[("task_id", VStr "mp-3")]]
           [("task_id", VStr "mp-2")] [VDict doc_a] "500" 500).
  - reflexivity.
  - constructor; [reflexivity | constructor].
  - reflexivity.
  - reflexivity.
  - reflexivity.
  - discriminate.
Defined.

(** ** [update] *)

Section Update.
Context {L : Libs}.
Implicit Types (s : S3Store) (doc sd : dict) (ks : list string).

Lemma same_env_refl s : same_env s s.
Proof. unfold same_env. auto 10. Qed.

Lemma same_env_trans s1 s2 s3 : same_env s1 s2 -> same_env s2 s3 -> same_env s1 s3.
Proof. unfold same_env. intuition congruence. Qed.

(** What a successful write did. *)
Lemma write_doc_to_s3_ok s doc ks s' sd :
  write_doc_to_s3 s doc ks = (s', Ok sd) ->
  exists (b : Bucket) (v : value) (data : bytes),
    search_doc_of s doc ks = Ok (sd, data) /\
    s3_bucket s = Some b /\ dict_get doc (key s) = Some v /\
    valid_metadata sd = true /\
    faults b !! (sub_dir s +:+ py_str v) = None /\
    s' = with_bucket s
           (served b (PutObject (sub_dir s +:+ py_str v) data sd)
                   (<[sub_dir s +:+ py_str v := mk_object data sd]> (objects b))).
Proof.
  unfold write_doc_to_s3, handle, getitem, put_object.
  destruct (search_doc_of s doc ks) as [[sd0 data]|e]; cbn [bind fst snd]; [|discriminate].
  destruct (s3_bucket s) as [b|]; cbn [bind]; [|discriminate].
  destruct (dict_get doc (key s)) as [v|]; cbn [bind]; [|discriminate].
  destruct (valid_metadata sd0) eqn:Hvalid; cbn [negb bind]; [|discriminate].
  destruct (faults b !! (sub_dir s +:+ py_str v)) eqn:Hf; cbn [bind]; [discriminate|].
  intros [= <- <-]. exists b, v, data. auto 10.
Qed.

(** A write that raises leaves the store as it was. *)
Lemma write_doc_to_s3_raise s doc ks s' e :
  write_doc_to_s3 s doc ks = (s', Raise e) -> s' = s.
Proof.
  unfold write_doc_to_s3.
  destruct (_ <- search_doc_of s doc ks ;; _) as [[b' sd]|e']; [discriminate|].
  now intros [= <- _].
Qed.

Lemma write_doc_to_s3_env s doc ks : same_env s (fst (write_doc_to_s3 s doc ks)).
Proof.
  destruct (write_doc_to_s3 s doc ks) as [s' [sd|e]] eqn:Hw; cbn [fst].
  - apply write_doc_to_s3_ok in Hw as (b & v & data & _ & Hb & _ & _ & _ & ->).
    unfold same_env. cbn. rewrite Hb. auto 10.
  - apply write_doc_to_s3_raise in Hw as ->. apply same_env_refl.
Qed.

Lemma search_doc_of_env s s' doc ks :
  same_env s s' -> search_doc_of s' doc ks = search_doc_of s doc ks.
Proof.
  intros (_ & Hc & Hs & Hk & Hl & _). unfold search_doc_of. now rewrite Hc, Hs, Hk, Hl.
Qed.

(** What a write returns or raises does not depend on the objects in
    the bucket. *)
Lemma write_result_env s s' doc ks :
  same_env s s' -> write_result s' doc ks = write_result s doc ks.
Proof.
  intros Henv. pose proof Henv as (_ & _ & Hs & Hk & _ & Hf).
  unfold write_result, write_doc_to_s3.
  rewrite (search_doc_of_env s s' doc ks Henv), Hs, Hk.
  destruct (search_doc_of s doc ks) as [[sd data]|e]; cbn [bind fst snd]; [|reflexivity].
  unfold handle.
  destruct (s3_bucket s) as [b|], (s3_bucket s') as [b'|]; cbn in Hf; try discriminate;
    cbn [bind]; [|reflexivity].
  injection Hf as Hf.
  destruct (getitem doc (key s)) as [v|e]; cbn [bind]; [|reflexivity].
  unfold put_object. rewrite Hf.
  destruct (negb (valid_metadata sd)); cbn [bind snd]; [reflexivity|].
  destruct (faults b !! (sub_dir s +:+ py_str v)); reflexivity.
Qed.

Lemma write_doc_to_s3_calls s doc ks (c : call) :
  In c (calls_of s) -> In c (calls_of (fst (write_doc_to_s3 s doc ks))).
Proof.
  intros Hc. destruct (write_doc_to_s3 s doc ks) as [s' [sd|e]] eqn:Hw; cbn [fst].
  - apply write_doc_to_s3_ok in Hw as (b & v & data & _ & Hb & _ & _ & _ & ->).
    unfold calls_of in *. rewrite Hb in Hc. cbn. apply in_or_app. now left.
  - now apply write_doc_to_s3_raise in Hw as ->.
Qed.

Lemma run_pool_env (tasks : list dict) : forall s ks,
  same_env s (fst (run_pool s tasks ks)).
Proof.
  induction tasks as [|doc rest IH]; intros s ks; cbn [run_pool fst].
  - apply same_env_refl.
  - pose proof (write_doc_to_s3_env s doc ks) as H1.
    destruct (write_doc_to_s3 s doc ks) as [s1 r]. cbn [fst] in H1.
    pose proof (IH s1 ks) as H2.
    destruct (run_pool s1 rest ks) as [s2 rs]. cbn [fst] in *.
    eapply same_env_trans; eauto.
Qed.

Lemma run_pool_results (tasks : list dict) : forall s ks,
  snd (run_pool s tasks ks) = map (fun doc => write_result s doc ks) tasks.
Proof.
  induction tasks as [|doc rest IH]; intros s ks; cbn [run_pool snd map]; [reflexivity|].
  pose proof (write_doc_to_s3_env s doc ks) as H1. unfold write_result at 1.
  destruct (write_doc_to_s3 s doc ks) as [s1 r]. cbn [fst snd] in *.
  pose proof (IH s1 ks) as H2.
  destruct (run_pool s1 rest ks) as [s2 rs]. cbn [snd] in *.
  rewrite H2. f_equal. apply map_ext. intros d. now apply write_result_env.
Qed.

Lemma run_pool_calls (tasks : list dict) : forall s ks (c : call),
  In c (calls_of s) -> In c (calls_of (fst (run_pool s tasks ks))).
Proof.
  induction tasks as [|doc rest IH]; intros s ks c Hc; cbn [run_pool fst]; [exact Hc|].
  pose proof (write_doc_to_s3_calls s doc ks c Hc) as H1.
  destruct (write_doc_to_s3 s doc ks) as [s1 r]. cbn [fst] in H1.
  pose proof (IH s1 ks c H1) as H2.
  now destruct (run_pool s1 rest ks) as [s2 rs].
Qed.

(** By the time the pool is done, the blob of every document whose
    write succeeded has been put. *)
Lemma run_pool_written (tasks : list dict) : forall s ks doc sd,
  In doc tasks -> write_result s doc ks = Ok sd ->
  written (fst (run_pool s tasks ks)) doc sd.
Proof.
  induction tasks as [|d rest IH]; intros s ks doc sd Hin Hres; [destruct Hin|].
  cbn [run_pool].
  pose proof (write_doc_to_s3_env s d ks) as Henv.
  destruct (write_doc_to_s3 s d ks) as [s1 r] eqn:Hw. cbn [fst] in Henv.
  destruct Hin as [-> | Hin].
  - unfold write_result in Hres. rewrite Hw in Hres. cbn [snd] in Hres. subst r.
    pose proof (run_pool_env rest s1 ks) as Henv2.
    pose proof (run_pool_calls rest s1 ks) as Hcalls.
    destruct (run_pool s1 rest ks) as [s2 rs]. cbn [fst] in *.
    apply write_doc_to_s3_ok in Hw as (b & v & data & _ & Hb & Hv & _ & _ & Hs1).
    specialize (Hcalls (PutObject (sub_dir s +:+ py_str v) data sd)).
    unfold calls_of in Hcalls.
    destruct Henv2 as (_ & _ & Hs & Hk & _ & Hf).
    destruct Henv as (_ & _ & Hs' & Hk' & _ & _).
    destruct (s3_bucket s2) as [b2|] eqn:Hb2.
    + exists b2, v, data. rewrite Hk, Hk', Hs, Hs'. repeat split; try assumption.
      apply Hcalls. subst s1. cbn. apply in_or_app. right. now left.
    + subst s1. cbn in Hf. discriminate.
  - pose proof (IH s1 ks doc sd Hin) as H2.
    rewrite (write_result_env s s1 doc ks Henv) in H2. specialize (H2 Hres).
    now destruct (run_pool s1 rest ks) as [s2 rs].
Qed.

(** Walking the futures raises the exception of one of them as soon
    as one holds an exception. *)
Lemma collect_raises (fs : list (result dict)) :
  Exists (fun r => is_ok r = false) fs ->
  exists e, collect fs = Raise e /\ In (Raise e) fs.
Proof.
  induction fs as [|r fs IH]; intros Hex; [inversion Hex|].
  cbn [collect]. destruct r as [sd|e]; cbn [bind].
  - inversion Hex as [? ? Hr | ? ? Hrest]; subst; [discriminate|].
    destruct (IH Hrest) as (e & He & Hin). exists e. rewrite He. split; [reflexivity | now right].
  - exists e. split; [reflexivity | now left].
Qed.

Lemma commit_index_on_raise s (fs : list (result dict)) (e : exn) :
  collect fs = Raise e -> commit s fs = (s, Some e).
Proof. intros H. unfold commit. now rewrite H. Qed.

(** The run in submission order is one of the runs of [update]. *)
Lemma update_seq_run s (docs : list dict) (k : key_arg) :
  S3Store_update s docs k (S3Store_update_seq s docs k).
Proof.
  unfold S3Store_update_seq.
  destruct (Nat.eqb_spec (s3_workers s) 0) as [Hw | Hw]; [now apply update_no_pool|].
  destruct submit_takes_fn_keyword eqn:Hsub; cbn [negb andb].
  - destruct (run_pool s docs (search_keys_of s k)) as [s1 rs] eqn:Hrun.
    exact (update_run s docs k docs s1 rs rs Hw (or_introl Hsub)
             (Permutation_refl _) Hrun (Permutation_refl _)).
  - destruct docs as [|d docs]; cbn [List.length Nat.eqb negb].
    + destruct (run_pool s [] (search_keys_of s k)) as [s1 rs] eqn:Hrun.
      exact (update_run s [] k [] s1 rs rs Hw (or_intror eq_refl)
               (Permutation_refl _) Hrun (Permutation_refl _)).
    + apply update_no_submit; [exact Hw | exact Hsub | discriminate].
Qed.

(** When the executor refuses the pool or the submission, the store is
    as it was. *)
Lemma update_refused s (docs : list dict) (k : key_arg) (out : S3Store * option exn) :
  S3Store_update s docs k out ->
  (s3_workers s = 0%nat -> out = (s, Some ValueError)) /\
  (s3_workers s <> 0%nat -> submit_takes_fn_keyword = false -> docs <> [] ->
   out = (s, Some TypeError)).
Proof.
  intros Hrun.
  destruct Hrun as [Hw | Hw Hsub Hne | exec s1 rs fs Hw Hsub Hexec Hpool Hfs].
  - split; [reflexivity | contradiction].
  - split; [contradiction | reflexivity].
  - split; [contradiction|]. intros _ Hoff Hne. destruct Hsub; congruence.
Qed.

(** C1.  Where the executor refuses the pool (a store with no worker:
    [ValueError]) or the submission (documents to write, and [submit]
    does not take its callable by keyword: [TypeError]), [update]
    raises that, no write has run, and the store, its index included,
    is as it was.  Where the pool runs, in every run of [update],
    whatever the order of the writes and of the walk over the futures:
    by the time the call ends, every write of the batch that did not
    raise has put its blob; and if the write of some document raised,
    the call raises the exception of a write of the batch that failed,
    and the index is left as it was, so that no Index Entry of the
    batch is committed. *)
Theorem update_raises_on_failed_write s (docs : list dict) (k : key_arg)
    (out : S3Store * option exn) :
  S3Store_update s docs k out ->
  (s3_workers s = 0%nat -> out = (s, Some ValueError)) /\
  (s3_workers s <> 0%nat -> submit_takes_fn_keyword = false -> docs <> [] ->
   out = (s, Some TypeError)) /\
  (s3_workers s <> 0%nat -> submit_takes_fn_keyword = true \/ docs = [] ->
   (forall doc sd,
      In doc docs -> write_result s doc (search_keys_of s k) = Ok sd ->
      written (fst out) doc sd) /\
   (Exists (fun doc => is_ok (write_result s doc (search_keys_of s k)) = false) docs ->
    (exists doc e,
       In doc docs /\ write_result s doc (search_keys_of s k) = Raise e /\
       snd out = Some e) /\
    index (fst out) = index s)).
Proof.
  intros Hrun. destruct (update_refused s docs k out Hrun) as [Hnopool Hnosubmit].
  split; [exact Hnopool|]. split; [exact Hnosubmit|]. intros Hworkers Hsubmit.
  destruct Hrun as [Hno | Hsome Hsub Hne | exec s1 rs fs Hsome Hsub Hexec Hpool Hfs];
    [contradiction | destruct Hsubmit; congruence |].
  set (ks := search_keys_of s k) in *.
  pose proof (run_pool_results exec s ks) as Hrs.
  pose proof (run_pool_env exec s ks) as Henv.
  pose proof (run_pool_written exec s ks) as Hwritten.
  rewrite Hpool in Hrs, Henv, Hwritten. cbn [fst snd] in *.
  split.
  - intros doc sd Hdoc Hres.
    assert (Hw : written s1 doc sd)
      by (apply Hwritten; [now apply (Permutation_in _ Hexec) | exact Hres]).
    unfold commit. destruct (collect fs) as [sds|e]; [|exact Hw].
    destruct (index_update (index s1) sds) as [i|e]; exact Hw.
  - intros Hfail.
    assert (Hex : Exists (fun r => is_ok r = false) fs).
    { apply List.Exists_exists in Hfail as (doc & Hin & Hbad).
      apply List.Exists_exists. exists (write_result s doc ks). split; [|exact Hbad].
      apply (Permutation_in _ Hfs). rewrite Hrs.
      apply (in_map (fun d => write_result s d ks)).
      now apply (Permutation_in _ Hexec). }
    destruct (collect_raises fs Hex) as (e & Hcollect & Hin).
    rewrite (commit_index_on_raise s1 fs e Hcollect). cbn [fst snd].
    split.
    + apply (Permutation_in _ (Permutation_sym Hfs)) in Hin.
      rewrite Hrs in Hin. apply in_map_iff in Hin as (doc & Hres & Hdoc).
      exists doc, e. repeat split; [|exact Hres].
      now apply (Permutation_in _ (Permutation_sym Hexec)).
    + now destruct Henv as (Hi & _).
Qed.

End Update.

(** The second of three documents has no key field: its write raises
    [KeyError], and so does [update]; the index stays empty, and the
    blobs of the other two are in the bucket. *)
Lemma update_raises_on_failed_write_witness :
  let s := example_store false "" in
  let out := S3Store_update_seq s [doc_a; doc_no_key; doc_b] KeyNone in
  snd out = Some (KeyError "task_id") /\
  idx_docs (index (fst out)) = [] /\
  written (fst out) doc_a [("task_id", VStr "mp-1")] /\
  written (fst out) doc_b [("task_id", VStr "mp-2")].
Proof.
  cbv zeta.
  destruct (update_raises_on_failed_write (example_store false "")
              [doc_a; doc_no_key; doc_b] KeyNone _ (update_seq_run _ _ _))
    as (_ & _ & Hpool).
  destruct Hpool as [Hbarrier Hfail]; [discriminate | now left |].
  destruct Hfail as [_ Hindex].
  { apply Exists_cons_tl, Exists_cons_hd. reflexivity. }
  split; [reflexivity|]. split; [reflexivity|]. split.
  - apply Hbarrier; [now left | reflexivity].
  - apply Hbarrier; [right; right; now left | reflexivity].
Defined.

(** ** Writing, then reading back *)

Section RoundTrip.
Context {L : Libs}.
Implicit Types (s : S3Store) (doc sd : dict) (ks : list string).

Lemma filter_filter_negb {A : Type} (p : A -> bool) (l : list A) :
  List.filter p (List.filter (fun x => negb (p x)) l) = [].
Proof.
  induction l as [|x l IH]; [reflexivity|]. simpl.
  destruct (p x) eqn:E; simpl; [exact IH | now rewrite E].
Qed.

Lemma same_key_value_get sd (k : string) (v : value) :
  dict_get sd k = Some v -> same_key_value k v sd = true.
Proof. intros H. unfold same_key_value. rewrite H. apply value_eqb_refl. Qed.

Lemma same_key_value_inv sd (k : string) (v : value) :
  same_key_value k v sd = true -> dict_get sd k = Some v.
Proof.
  unfold same_key_value. destruct (dict_get sd k) as [v'|]; [|discriminate].
  intros H. now apply value_eqb_eq in H as ->.
Qed.

Lemma append_inj_r (p a b : string) : p +:+ a = p +:+ b -> a = b.
Proof. induction p as [|c p IH]; simpl; [auto | intros [= H]; auto]. Qed.

(** The blob is the packed document, deflated when the store
    compresses. *)
Lemma search_doc_of_data s doc ks sd (data : bytes) :
  search_doc_of s doc ks = Ok (sd, data) ->
  exists packed : bytes,
    packb (VDict doc) = Ok packed /\
    data = if compress s then zlib_compress packed else packed.
Proof.
  unfold search_doc_of.
  destruct (pick doc ks []) as [sd0|]; cbn [bind]; [|discriminate].
  destruct (getitem doc (key s)) as [v|]; cbn [bind]; [|discriminate].
  destruct (packb (VDict doc)) as [packed|]; cbn [bind]; [|discriminate].
  intros H. exists packed. split; [reflexivity|].
  destruct (compress s);
    match type of H with
    | context [dict_get ?d ?k] => destruct (dict_get d k)
    end; cbn [bind] in H;
    try match type of H with
    | context [to_isoformat_ceil_ms ?x] => destruct (to_isoformat_ceil_ms x)
    end; cbn [bind] in H; congruence.
Qed.

(** What a successful write did, seen from any store in the same
    environment. *)
Lemma write_result_put s s0 doc ks sd :
  same_env s s0 -> write_result s doc ks = Ok sd ->
  exists (b0 : Bucket) (v : value) (data : bytes),
    search_doc_of s doc ks = Ok (sd, data) /\
    s3_bucket s0 = Some b0 /\ dict_get doc (key s) = Some v /\
    valid_metadata sd = true /\
    faults b0 !! (sub_dir s +:+ py_str v) = None /\
    write_doc_to_s3 s0 doc ks =
      (with_bucket s0
         (served b0 (PutObject (sub_dir s +:+ py_str v) data sd)
                 (<[sub_dir s +:+ py_str v := mk_object data sd]> (objects b0))),
       Ok sd).
Proof.
  intros Henv Hres. rewrite <- (write_result_env s s0 doc ks Henv) in Hres.
  unfold write_result in Hres.
  destruct (write_doc_to_s3 s0 doc ks) as [s0' r] eqn:Hw. cbn [snd] in Hres. subst r.
  apply write_doc_to_s3_ok in Hw as (b0 & v & data & Hsd & Hb & Hv & Hvalid & Hf & ->).
  rewrite (search_doc_of_env s s0 doc ks Henv) in Hsd.
  destruct Henv as (_ & _ & Hs & Hk & _ & _). rewrite Hs, Hk in *.
  exists b0, v, data. auto 10.
Qed.

Section OneDocument.
Variables (s : S3Store) (ks : list string) (doc sd : dict) (kv : string) (data : bytes).
Hypothesis Hres : write_result s doc ks = Ok sd.
Hypothesis Hsd : search_doc_of s doc ks = Ok (sd, data).
Hypothesis Hkv : dict_get doc (key s) = Some (VStr kv).

(** Among documents with distinct key values, the blob of [doc] is
    what the bucket holds under its key once the pool is done. *)
Lemma run_pool_object (tasks : list dict) : forall s0 : S3Store,
  same_env s s0 ->
  (forall d, In d tasks -> dict_get d (key s) = dict_get doc (key s) -> d = doc) ->
  Forall (entry_keeps_key s ks) tasks ->
  In doc tasks \/ object_at s0 (sub_dir s +:+ kv) = Some (mk_object data sd) ->
  object_at (fst (run_pool s0 tasks ks)) (sub_dir s +:+ kv) = Some (mk_object data sd).
Proof.
  induction tasks as [|x rest IH]; intros s0 Henv Huniq Hkeep Hor.
  - destruct Hor as [[]|Hobj]. exact Hobj.
  - cbn [run_pool].
    pose proof (write_doc_to_s3_env s0 x ks) as Henv1.
    destruct (write_doc_to_s3 s0 x ks) as [s1 r] eqn:Hw. cbn [fst] in Henv1.
    assert (Henv' : same_env s s1) by (eapply same_env_trans; eauto).
    inversion Hkeep as [|? ? Hx Hkeep']; subst.
    specialize (IH s1 Henv'
                  (fun d Hd => Huniq d (or_intror Hd)) Hkeep').
    destruct (run_pool s1 rest ks) as [s2 rs] eqn:Hrun. cbn [fst] in *.
    apply IH. clear IH.
    assert (Hrx : write_result s x ks = r).
    { rewrite <- (write_result_env s s0 x ks Henv). unfold write_result. now rewrite Hw. }
    destruct r as [sdx|e].
    + destruct (write_result_put s s0 x ks sdx Henv Hrx)
        as (b0 & vx & datax & Hsdx & Hb0 & Hvx & Hvalidx & _ & Hwx).
      rewrite Hwx in Hw. injection Hw as <-.
      pose proof (Hx sdx Hrx) as Hkx. rewrite Hvx in Hkx.
      destruct (valid_metadata_get sdx (key s) vx Hvalidx Hkx) as [kvx ->].
      cbn [py_str] in *.
      destruct (String.eqb_spec kvx kv) as [-> | Hne].
      * right. assert (x = doc) as -> by (apply Huniq; [now left | congruence]).
        assert (sdx = sd) as -> by congruence.
        assert (datax = data) as -> by congruence.
        unfold object_at. cbn. apply lookup_insert_eq.
      * destruct Hor as [[-> | Hin] | Hobj].
        -- congruence.
        -- now left.
        -- right. unfold object_at in *. rewrite Hb0 in Hobj. cbn.
           rewrite lookup_insert_ne; [exact Hobj|].
           intros Heq. apply append_inj_r in Heq. contradiction.
    + apply write_doc_to_s3_raise in Hw as ->.
      destruct Hor as [[-> | Hin] | Hobj]; [congruence | now left | now right].
Qed.

End OneDocument.

(** After the upsert of entries with distinct key values, the entry of
    a key value is the one entry the index holds for it. *)
Lemma index_upsert_unique (k : string) sd (v : value) :
  dict_get sd k = Some v ->
  forall (sds entries entries' : list dict),
    (forall sd', In sd' sds -> dict_get sd' k = Some v -> sd' = sd) ->
    index_upsert k entries sds = Ok entries' ->
    In sd sds \/ List.filter (same_key_value k v) entries = [sd] ->
    List.filter (same_key_value k v) entries' = [sd].
Proof.
  intros Hv. induction sds as [|x rest IH]; intros entries entries' Huniq Hup Hor.
  - cbn in Hup. injection Hup as <-. destruct Hor as [[]|H]. exact H.
  - cbn [index_upsert] in Hup. unfold getitem in Hup.
    destruct (dict_get x k) as [vx|] eqn:Hvx; cbn [bind] in Hup; [|discriminate].
    apply (IH _ entries' (fun sd' Hin => Huniq sd' (or_intror Hin)) Hup). clear IH Hup.
    destruct (same_key_value k v x) eqn:Hpx.
    + right. pose proof (same_key_value_inv x k v Hpx) as Hxv.
      assert (x = sd) as -> by (apply Huniq; [now left | exact Hxv]).
      assert (vx = v) as -> by congruence.
      rewrite List.filter_app, (filter_filter_negb (same_key_value k v)).
      cbn. now rewrite Hpx.
    + destruct Hor as [[-> | Hin] | Hf].
      * rewrite (same_key_value_get sd k v Hv) in Hpx. discriminate.
      * now left.
      * right. rewrite List.filter_app. cbn. rewrite Hpx, app_nil_r.
        rewrite <- Hf. clear Hf.
        induction entries as [|e entries IHe]; [reflexivity|]. cbn.
        destruct (same_key_value k vx e) eqn:Hqe; cbn.
        -- destruct (same_key_value k v e) eqn:Hpe; [|exact IHe].
           apply same_key_value_inv in Hqe, Hpe.
           assert (vx = v) as -> by congruence.
           rewrite (same_key_value_get x k v Hvx) in Hpx. discriminate.
        -- destruct (same_key_value k v e); [f_equal|]; exact IHe.
Qed.

Lemma collect_ok (fs : list (result dict)) (sds : list dict) :
  collect fs = Ok sds -> fs = map Ok sds.
Proof.
  revert sds. induction fs as [|r fs IH]; intros sds H; cbn in H.
  - now injection H as <-.
  - destruct r as [sd|e]; cbn [bind] in H; [|discriminate].
    destruct (collect fs) as [l|e]; cbn [bind] in H; [|discriminate].
    injection H as <-. cbn. f_equal. now apply IH.
Qed.

(** C2 (as amended).  [update] is called with a batch and returns;
    [doc] is a document of the batch and no other document of the
    batch has its key value; the store and its index name the same key
    field; the Index Entry built for each document of the batch holds
    its key value under the key field, and the one built for [doc]
    reads as marked ["zlib"] exactly when the store compresses;
    [unpackb] and [zlib.decompress] undo [packb] and [zlib.compress] on
    [doc].  Then the query for the key value of [doc], with no
    [properties], yields [doc] itself and nothing else, and raises
    nothing: the fields [compression] and [sub_dir] of what is yielded
    are those [doc] had, if any. *)
Theorem update_query_roundtrip s (docs : list dict) doc (k : key_arg) (s' : S3Store) :
  S3Store_update s docs k (s', None) ->
  key_agrees s ->
  In doc docs ->
  (forall d, In d docs -> dict_get d (key s) = dict_get doc (key s) -> d = doc) ->
  Forall (entry_keeps_key s (search_keys_of s k)) docs ->
  entry_marks_compression s (search_keys_of s k) doc ->
  decodes doc ->
  exists v,
    dict_get doc (key s) = Some v /\
    S3Store_query s' (by_key s' v) None = ([VDict doc], None) /\
    Forall (fun r => exists d,
                r = VDict d /\
                dict_get d "compression" = dict_get doc "compression" /\
                dict_get d "sub_dir" = dict_get doc "sub_dir")
           (fst (S3Store_query s' (by_key s' v) None)).
Proof.
  intros Hrun Hagree Hdoc Huniq Hkeep Hmark Hcodec.
  inversion Hrun as [| | exec s1 rs fs Hw Hsub Hexec Hpool Hfs Hout]. clear Hrun.
  set (ks := search_keys_of s k) in *.
  pose proof (run_pool_results exec s ks) as Hrs.
  pose proof (run_pool_env exec s ks) as Henv.
  rewrite Hpool in Hrs, Henv. cbn [fst snd] in Hrs, Henv.
  unfold commit in Hout.
  destruct (collect fs) as [sds|e] eqn:Hcollect; [|discriminate].
  destruct (index_update (index s1) sds) as [i|e] eqn:Hi; [|discriminate].
  injection Hout as <-.
  apply collect_ok in Hcollect. subst fs rs.
  (* every entry handed to the index is the entry of a document of the batch *)
  assert (Hsds : forall sd', In sd' sds ->
            exists d, In d docs /\ write_result s d ks = Ok sd').
  { intros sd' Hin. apply (in_map Ok) in Hin.
    apply (Permutation_in _ (Permutation_sym Hfs)) in Hin.
    apply in_map_iff in Hin as (d & Hd & Hind). exists d. split; [|exact Hd].
    now apply (Permutation_in _ (Permutation_sym Hexec)). }
  assert (Hok : exists sd, write_result s doc ks = Ok sd /\ In sd sds).
  { assert (Hin : In (write_result s doc ks) (map Ok sds)).
    { apply (Permutation_in _ Hfs). apply (in_map (fun d => write_result s d ks)).
      now apply (Permutation_in _ Hexec). }
    apply in_map_iff in Hin as (sd & Hsd & Hin). eauto. }
  destruct Hok as (sd & Hres & Hsdin).
  destruct (write_result_put s s doc ks sd (same_env_refl s) Hres)
    as (b & v & data & Hsd & Hb & Hv & Hvalid & Hf & _).
  pose proof (proj1 (List.Forall_forall _ _) Hkeep doc Hdoc sd Hres) as Hkey.
  pose proof (Hmark sd Hres) as Hz.
  rewrite Hv in Hkey.
  destruct (valid_metadata_get sd (key s) v Hvalid Hkey) as [kv ->].
  cbn [py_str] in *.
  destruct (search_doc_of_data s doc ks sd data Hsd) as (packed & Hpack & Hdata).
  destruct (Hcodec packed Hpack) as [Hunpack Hinflate].
  (* the bucket *)
  assert (Hobj : object_at s1 (sub_dir s +:+ kv) = Some (mk_object data sd)).
  { pose proof (run_pool_object s ks doc sd kv data Hres Hsd Hv exec s
                  (same_env_refl s)) as H.
    rewrite Hpool in H. cbn [fst] in H. apply H.
    - intros d Hd. apply Huniq. now apply (Permutation_in _ (Permutation_sym Hexec)).
    - apply List.Forall_forall. intros d Hd.
      apply (proj1 (List.Forall_forall _ _) Hkeep).
      now apply (Permutation_in _ (Permutation_sym Hexec)).
    - left. now apply (Permutation_in _ Hexec). }
  destruct Henv as (Hi1 & Hc1 & Hs1 & Hk1 & _ & Hf1).
  unfold object_at in Hobj.
  destruct (s3_bucket s1) as [b1|] eqn:Hb1; [|discriminate].
  rewrite Hb in Hf1. cbn in Hf1. injection Hf1 as Hf1.
  (* the index *)
  assert (Hentries : List.filter (same_key_value (key s) (VStr kv)) (idx_docs i) = [sd]).
  { unfold index_update in Hi. rewrite Hi1, <- Hagree in Hi.
    destruct (index_upsert (key s) (idx_docs (index s)) sds) as [entries|] eqn:Hup;
      [|discriminate].
    cbn [bind] in Hi. injection Hi as <-. cbn [with_docs idx_docs].
    apply (index_upsert_unique (key s) sd (VStr kv) Hkey sds (idx_docs (index s)) entries);
      [|exact Hup|now left].
    intros sd' Hin' Hk'. destruct (Hsds sd' Hin') as (d & Hd & Hrd).
    pose proof (proj1 (List.Forall_forall _ _) Hkeep d Hd sd' Hrd) as Hkd.
    assert (d = doc) as -> by (apply Huniq; [exact Hd | congruence]).
    congruence. }
  assert (Hquery : S3Store_query (with_index s1 i) (by_key (with_index s1 i) (VStr kv)) None
                   = ([VDict doc], None)).
  { unfold S3Store_query, index_query, by_key, window.
    cbn [with_index index key criteria sort skip limit].
    rewrite drop_0, Hk1, Hentries.
    cbn [query_loop query_entry]. unfold fetch_step, fetch, handle, getitem.
    cbn [with_index s3_bucket key sub_dir]. rewrite Hb1, Hk1, Hs1, Hkey.
    cbn [bind str_add]. unfold get_object. rewrite Hf1, Hf, Hobj. cbn [body].
    unfold decode. rewrite Hz, Hdata.
    destruct (compress s); [rewrite Hinflate|]; cbn [bind]; rewrite Hunpack; reflexivity. }
  exists (VStr kv). split; [exact Hv|]. split; [exact Hquery|].
  rewrite Hquery. cbn [fst]. constructor; [|constructor]. exists doc. auto.
Qed.

End RoundTrip.

Lemma update_query_roundtrip_witness :
  exists v,
    dict_get doc_b (key (example_store true "sub/")) = Some v /\
    S3Store_query
      (fst (S3Store_update_seq (example_store true "sub/") [doc_a; doc_b; doc_c] KeyNone))
      (by_key (fst (S3Store_update_seq (example_store true "sub/") [doc_a; doc_b; doc_c]
                      KeyNone)) v) None
    = ([VDict doc_b], None) /\
    Forall (fun r => exists d,
                r = VDict d /\
                dict_get d "compression" = dict_get doc_b "compression" /\
                dict_get d "sub_dir" = dict_get doc_b "sub_dir")
           (fst (S3Store_query
                   (fst (S3Store_update_seq (example_store true "sub/")
                           [doc_a; doc_b; doc_c] KeyNone))
                   (by_key (fst (S3Store_update_seq (example_store true "sub/")
                                   [doc_a; doc_b; doc_c] KeyNone)) v)
                   None)).
Proof.
  apply (update_query_roundtrip (example_store true "sub/") [doc_a; doc_b; doc_c] doc_b
           KeyNone).
  - exact (update_seq_run (example_store true "sub/") [doc_a; doc_b; doc_c] KeyNone).
  - reflexivity.
  - simpl. tauto.
  - intros d [<- | [<- | [<- | []]]]; simpl; congruence.
  - repeat constructor; intros sd [= <-]; reflexivity.
  - intros sd [= <-]. reflexivity.
  - intros packed [= <-]. split; reflexivity.
Defined.

(** A store that does not compress, and a document whose field
    [compression], picked as a search key, holds ["zlib"]: [update]
    returns, the Index Entry reads as marked, and the query tries to
    inflate a blob that was never deflated; it raises and yields
    nothing, although the libraries undo one another on every value. *)
Lemma marked_document_is_not_read_back :
  snd (S3Store_update_seq (example_store false "") [doc_marked]
         (KeyList ["task_id"; "compression"])) = None /\
  (forall v : value, bind (@packb blob_libs v) (@unpackb blob_libs) = Ok v) /\
  (forall data : blob,
     @zlib_decompress blob_libs (@zlib_compress blob_libs data) = Ok data) /\
  index_query (index marked_store) (by_key marked_store (VStr "mp-1"))
    = [doc_marked] /\
  S3Store_query marked_store (by_key marked_store (VStr "mp-1")) None
    = ([], Some ValueError).
Proof. repeat split. Qed.

(** ** When the Index Entry keeps the key value and the marker *)

Section Reserved.
Context {L : Libs}.
Implicit Types (s : S3Store) (doc sd : dict) (ks : list string).

Lemma pick_get doc ks : forall (acc r : dict) (k' : string),
  pick doc ks acc = Ok r -> ~ In k' ks -> dict_get r k' = dict_get acc k'.
Proof.
  induction ks as [|k ks IH]; intros acc r k' Hpick Hnot; cbn in Hpick.
  - now injection Hpick as <-.
  - destruct (getitem doc k) as [v|]; cbn [bind] in Hpick; [|discriminate].
    rewrite (IH _ _ k' Hpick) by (intros Hin; apply Hnot; now right).
    apply dict_get_set_ne. intros ->. apply Hnot. now left.
Qed.

Lemma dict_get_del_if (d : dict) (k k' : string) :
  k <> k' -> dict_get (if dict_has d k then dict_del d k else d) k' = dict_get d k'.
Proof. intros Hne. destruct (dict_has d k); [now apply dict_get_del_ne | reflexivity]. Qed.

(** No field of the document can stand in for the bookkeeping of the
    store when the key field is none of [sub_dir], [_id], [compression]
    and the last-updated field, and [compression] is neither a search
    key nor the last-updated field. *)
Lemma reserved_names_keep_entry s ks doc :
  key s <> "sub_dir" -> key s <> "_id" -> key s <> "compression" ->
  key s <> last_updated_field s -> last_updated_field s <> "compression" ->
  ~ In "compression" ks ->
  entry_keeps_key s ks doc /\ entry_marks_compression s ks doc.
Proof.
  intros Hsub Hid Hcomp Hlu Hluc Hks.
  assert (H : forall sd (data : bytes), search_doc_of s doc ks = Ok (sd, data) ->
            dict_get sd (key s) = dict_get doc (key s) /\ is_zlib sd = compress s).
  { intros sd data. unfold search_doc_of.
    destruct (pick doc ks []) as [r|] eqn:Hpick; cbn [bind]; [|discriminate].
    unfold getitem.
    destruct (dict_get doc (key s)) as [v|] eqn:Hv; cbn [bind]; [|discriminate].
    destruct (packb (VDict doc)) as [packed|]; cbn [bind]; [|discriminate].
    set (sd1 := dict_set r (key s) v).
    set (sd2 := if String.eqb (sub_dir s) "" then sd1 else dict_set sd1 "sub_dir" (VStr (sub_dir s))).
    set (sd3 := if dict_has sd2 "_id" then dict_del sd2 "_id" else sd2).
    assert (Hk3 : dict_get sd3 (key s) = Some v).
    { subst sd3. rewrite dict_get_del_if by congruence. subst sd2.
      destruct (String.eqb (sub_dir s) "");
        [|rewrite dict_get_set_ne by congruence]; apply dict_get_set_eq. }
    assert (Hc3 : dict_get sd3 "compression" = None).
    { subst sd3. rewrite dict_get_del_if by discriminate. subst sd2.
      destruct (String.eqb (sub_dir s) "");
        [|rewrite dict_get_set_ne by discriminate];
        subst sd1; rewrite dict_get_set_ne by congruence;
        now rewrite (pick_get doc ks [] r "compression" Hpick Hks). }
    clearbody sd3. clear sd1 sd2.
    destruct (compress s).
    - set (sd4 := dict_set sd3 "compression" (VStr "zlib")).
      assert (Hk4 : dict_get sd4 (key s) = Some v)
        by (subst sd4; rewrite dict_get_set_ne by congruence; exact Hk3).
      assert (Hc4 : dict_get sd4 "compression" = Some (VStr "zlib"))
        by (subst sd4; apply dict_get_set_eq).
      clearbody sd4.
      destruct (dict_get sd4 (last_updated_field s)); cbn [bind].
      + destruct (to_isoformat_ceil_ms v0); cbn [bind]; [|discriminate].
        intros [= <- _]. unfold is_zlib.
        rewrite !dict_get_set_ne by congruence. now rewrite Hk4, Hc4.
      + intros [= <- _]. unfold is_zlib. now rewrite Hk4, Hc4.
    - destruct (dict_get sd3 (last_updated_field s)); cbn [bind].
      + destruct (to_isoformat_ceil_ms v0); cbn [bind]; [|discriminate].
        intros [= <- _]. unfold is_zlib.
        rewrite !dict_get_set_ne by congruence. now rewrite Hk3, Hc3.
      + intros [= <- _]. unfold is_zlib. now rewrite Hk3, Hc3. }
  split; intros sd Hres;
    destruct (write_result_put s s doc ks sd (same_env_refl s) Hres)
      as (_ & _ & data & Hsd & _);
    now destruct (H sd data Hsd).
Qed.

End Reserved.

(** ** [rebuild_metadata_from_index] *)

Section Rebuild.
Context {L : Libs}.

(** Where the entry's blob is there and neither its metadata nor the
    entry has a key that reads ["_id"] in lower case, [pop] raises
    [KeyError] and no object is touched. *)
Lemma rebuild_entry_without_id (s : S3Store) (b : Bucket) (index_doc : dict)
    (kv : string) (o : S3Object) :
  s3_bucket s = Some b ->
  dict_get index_doc (key s) = Some (VStr kv) ->
  faults b !! (sub_dir s +:+ kv) = None ->
  objects b !! (sub_dir s +:+ kv) = Some o ->
  dict_has (merged_metadata (metadata o) index_doc) "_id" = false ->
  snd (rebuild_entry s index_doc) = Some (KeyError "_id") /\
  option_map objects (s3_bucket (fst (rebuild_entry s index_doc))) = Some (objects b).
Proof.
  intros Hb Hk Hf Ho Hid. unfold rebuild_entry, getitem, handle, load_metadata.
  rewrite Hk, Hb. cbn [bind str_add]. rewrite Hf, Ho. cbn [bind fst snd].
  unfold dict_pop. rewrite Hid. cbn [bind fst snd]. split; reflexivity.
Qed.

(** Where the merged metadata has the identity field and is otherwise
    string-valued, the object keeps its body and gets the merged
    metadata without that field. *)
Lemma rebuild_entry_with_id (s : S3Store) (b : Bucket) (index_doc : dict)
    (kv : string) (o : S3Object) :
  s3_bucket s = Some b ->
  dict_get index_doc (key s) = Some (VStr kv) ->
  faults b !! (sub_dir s +:+ kv) = None ->
  objects b !! (sub_dir s +:+ kv) = Some o ->
  dict_has (merged_metadata (metadata o) index_doc) "_id" = true ->
  valid_metadata (dict_del (merged_metadata (metadata o) index_doc) "_id") = true ->
  exists b',
    rebuild_entry s index_doc = (with_bucket s b', None) /\
    objects b' !! (sub_dir s +:+ kv) =
      Some (mk_object (body o) (dict_del (merged_metadata (metadata o) index_doc) "_id")).
Proof.
  intros Hb Hk Hf Ho Hid Hvalid. unfold rebuild_entry, getitem, handle, load_metadata.
  rewrite Hk, Hb. cbn [bind str_add]. rewrite Hf, Ho. cbn [bind fst snd].
  unfold dict_pop. rewrite Hid. cbn [bind]. unfold copy_from.
  rewrite Hvalid. cbn [negb served faults objects]. rewrite Hf, Ho.
  eexists. split; [reflexivity|]. cbn [served objects]. apply lookup_insert_eq.
Qed.

(** C8, on the code.  The first entry the index returns has its blob
    in the bucket, and neither the entry nor the metadata of the blob
    has a key that reads ["_id"] in lower case, as is the case for what
    [update] writes.  Then [rebuild_metadata_from_index] raises
    [KeyError] at that entry and rewrites no object. *)
Theorem rebuild_metadata_needs_id (s : S3Store) (b : Bucket)
    (index_query_ : option (dict -> bool)) (index_doc : dict) (rest : list dict)
    (kv : string) (o : S3Object) :
  index_query (index s)
    (mk_query (match index_query_ with Some c => c | None => fun _ => true end)
              (fun l => l) 0 0) = index_doc :: rest ->
  s3_bucket s = Some b ->
  dict_get index_doc (key s) = Some (VStr kv) ->
  faults b !! (sub_dir s +:+ kv) = None ->
  objects b !! (sub_dir s +:+ kv) = Some o ->
  dict_has (merged_metadata (metadata o) index_doc) "_id" = false ->
  snd (S3Store_rebuild_metadata_from_index s index_query_) = Some (KeyError "_id") /\
  option_map objects (s3_bucket (fst (S3Store_rebuild_metadata_from_index s index_query_)))
    = Some (objects b).
Proof.
  intros Hq Hb Hk Hf Ho Hid. unfold S3Store_rebuild_metadata_from_index.
  rewrite Hq. cbn [rebuild_loop].
  destruct (rebuild_entry_without_id s b index_doc kv o Hb Hk Hf Ho Hid) as [He Hobj].
  destruct (rebuild_entry s index_doc) as [s1 [e|]]; cbn [fst snd] in *;
    [|discriminate].
  now injection He as ->.
Qed.

End Rebuild.

(** One document written by [update], then the rebuild: [KeyError].
    With an ["_id"] in the Index Entry the same call returns, the body
    stays and the metadata is the merge without ["_id"]. *)
Lemma rebuild_metadata_needs_id_witness :
  (snd (S3Store_rebuild_metadata_from_index written_store None) = Some (KeyError "_id") /\
   option_map objects
     (s3_bucket (fst (S3Store_rebuild_metadata_from_index written_store None)))
   = option_map objects (s3_bucket written_store)) /\
  snd (S3Store_rebuild_metadata_from_index (with_identity written_store) None) = None /\
  option_map (fun b => objects b !! "mp-1")
    (s3_bucket (fst (S3Store_rebuild_metadata_from_index (with_identity written_store) None)))
    = Some (Some (@mk_object blob_libs (Packed (VDict doc_a)) [("task_id", VStr "mp-1")])).
Proof.
  split; [|split; reflexivity].
  destruct (s3_bucket written_store) as [b|] eqn:Hb; [|discriminate].
  apply (rebuild_metadata_needs_id written_store b None
           [("task_id", VStr "mp-1")] [] "mp-1"
           (@mk_object blob_libs (Packed (VDict doc_a)) [("task_id", VStr "mp-1")])).
  - reflexivity.
  - exact Hb.
  - reflexivity.
  - injection Hb as <-. reflexivity.
  - injection Hb as <-. reflexivity.
  - reflexivity.
Defined.

(** ** [__eq__] and [__hash__] *)

Section Hashing.
Context {L : Libs} {H : PyHash}.

(** What [__hash__] is a function of: the identity of the index object
    and the bucket name. *)
Lemma hash_of_index_object (a b : S3Store) :
  idx_id (index a) = idx_id (index b) -> bucket a = bucket b ->
  S3Store_hash a = S3Store_hash b.
Proof. intros Hi Hb. unfold S3Store_hash. now rewrite Hi, Hb. Qed.

(** C4, on the code.  Two stores are equal under [__eq__] and wrap two
    index objects.  Under a hash that tells the bound methods of two
    objects apart, and tuples with different first components apart,
    their hashes differ. *)
Theorem equal_stores_hash_apart (a b : S3Store) :
  S3Store_eq a b = true ->
  idx_id (index a) <> idx_id (index b) ->
  (forall (p q : positive) (f : string), hash_method p f = hash_method q f -> p = q) ->
  (forall (x y : Z) (l : list Z), hash_tuple (x :: l) = hash_tuple (y :: l) -> x = y) ->
  S3Store_hash a <> S3Store_hash b.
Proof.
  intros Heq Hid Hmethod Htuple Hhash. unfold S3Store_eq in Heq.
  apply andb_true_iff in Heq as [Heq _]. apply andb_true_iff in Heq as [_ Hbucket].
  apply String.eqb_eq in Hbucket. unfold S3Store_hash in Hhash. rewrite Hbucket in Hhash.
  apply Htuple, Hmethod in Hhash. contradiction.
Qed.

End Hashing.

Lemma fold_hash_inj (l : list Z) : forall x y : Z,
  fold_left (fun acc h => acc * 1000003 + h) l x
  = fold_left (fun acc h => acc * 1000003 + h) l y -> x = y.
Proof.
  induction l as [|h l IH]; intros x y Hxy; [exact Hxy|].
  cbn in Hxy. apply IH in Hxy. lia.
Qed.

(** [store_x] and [store_y] have the same configuration, around two
    index objects with the same configuration. *)
Lemma equal_stores_hash_apart_witness :
  S3Store_eq store_x store_y = true /\
  @S3Store_hash blob_libs identity_hash store_x
    <> @S3Store_hash blob_libs identity_hash store_y.
Proof.
  split; [reflexivity|].
  apply (@equal_stores_hash_apart blob_libs identity_hash store_x store_y).
  - reflexivity.
  - discriminate.
  - intros p q f Hpq. now injection Hpq.
  - intros x y l Hxy. cbn in Hxy. apply fold_hash_inj in Hxy. lia.
Defined.

(** ** The key field of the store and of its index *)

Section KeyField.
Context {L : Libs}.
Implicit Types (s : S3Store).

Lemma key_agrees_same s s' :
  key s' = key s -> idx_key (index s') = idx_key (index s) ->
  key_agrees s -> key_agrees s'.
Proof. unfold key_agrees. intros -> ->. auto. Qed.

Lemma delete_chunks_key (chunks : list (list value)) : forall s,
  key (fst (delete_chunks s chunks)) = key s /\
  index (fst (delete_chunks s chunks)) = index s.
Proof.
  induction chunks as [|c chunks IH]; intros s; cbn [delete_chunks]; [auto|].
  destruct (_ <- map_result _ c ;; _) as [b'|e]; [|auto].
  destruct (IH (with_bucket s b')) as [-> ->]. auto.
Qed.

Lemma rebuild_entry_key s (index_doc : dict) :
  key (fst (rebuild_entry s index_doc)) = key s /\
  index (fst (rebuild_entry s index_doc)) = index s.
Proof.
  unfold rebuild_entry.
  destruct (_ <- getitem index_doc (key s) ;; _) as [[key_ [b1 old]]|e]; [|auto].
  destruct (_ <- dict_pop _ "_id" ;; _) as [b'|e]; auto.
Qed.

Lemma rebuild_loop_key (entries : list dict) : forall s,
  key (fst (rebuild_loop s entries)) = key s /\
  index (fst (rebuild_loop s entries)) = index s.
Proof.
  induction entries as [|e entries IH]; intros s; cbn [rebuild_loop]; [auto|].
  pose proof (rebuild_entry_key s e) as [Hk Hi].
  destruct (rebuild_entry s e) as [s1 [err|]]; cbn [fst] in *; [auto|].
  destruct (IH s1) as [-> ->]. auto.
Qed.

Lemma commit_key s (fs : list (result dict)) :
  key (fst (commit s fs)) = key s /\
  idx_key (index (fst (commit s fs))) = idx_key (index s).
Proof.
  unfold commit. destruct (collect fs) as [sds|e]; [|auto].
  unfold index_update.
  destruct (index_upsert _ _ sds) as [entries|e]; cbn [bind]; auto.
Qed.

(** C10.  Whatever keyword arguments the caller passes, a ["key"] among
    them included, the constructor (with boto3 importable) builds a
    store around the given index whose key field is [str(index.key)];
    and [update], [remove_docs] and [rebuild_metadata_from_index],
    however they end, leave the key field of the store and that of its
    index as they were, so the two keep agreeing. *)
Theorem key_field_always_agrees :
  (forall (idx : IndexStore) (bucket_name : string) (profile : option string)
          (compress_ : bool) (url sub : option string) (workers : nat) (kwargs : dict),
     exists s,
       S3Store_init true idx bucket_name profile compress_ url sub workers kwargs = Ok s /\
       index s = idx /\ key s = py_str (idx_key idx) /\ key_agrees s) /\
  (forall s (docs : list dict) (k : key_arg) (out : S3Store * option exn),
     key_agrees s -> S3Store_update s docs k out -> key_agrees (fst out)) /\
  (forall s (crit : dict -> bool) (remove_s3_object : bool),
     key_agrees s -> key_agrees (fst (S3Store_remove_docs s crit remove_s3_object))) /\
  (forall s (index_query_ : option (dict -> bool)),
     key_agrees s ->
     key_agrees (fst (S3Store_rebuild_metadata_from_index s index_query_))).
Proof.
  split; [|split; [|split]].
  - intros. unfold S3Store_init. cbn [negb]. unfold Store_init.
    rewrite dict_get_set_eq. eexists. split; [reflexivity|].
    unfold key_agrees. cbn [index key py_str]. auto.
  - intros s docs k out Hagree Hrun.
    destruct Hrun as [Hw | Hw Hsub Hne | exec s1 rs fs _ _ _ Hpool _];
      [exact Hagree | exact Hagree |].
    pose proof (run_pool_env exec s (search_keys_of s k)) as (Hi & _ & _ & Hk & _).
    rewrite Hpool in Hi, Hk. cbn [fst] in Hi, Hk.
    destruct (commit_key s1 fs) as [Hk' Hi'].
    apply (key_agrees_same s); [congruence | congruence | exact Hagree].
  - intros s crit r Hagree. unfold S3Store_remove_docs.
    destruct r; cbn [negb fst]; [|exact Hagree].
    destruct (delete_chunks_key (grouper (index_distinct (index s) (key s) crit) 1000)
                (with_index s (index_remove_docs (index s) crit))) as [Hk Hi].
    apply (key_agrees_same s); [exact Hk | now rewrite Hi | exact Hagree].
  - intros s q Hagree. unfold S3Store_rebuild_metadata_from_index.
    destruct (rebuild_loop_key
                (index_query (index s)
                   (mk_query (match q with Some c => c | None => fun _ => true end)
                             (fun l => l) 0 0)) s) as [Hk Hi].
    apply (key_agrees_same s); [exact Hk | now rewrite Hi | exact Hagree].
Qed.

End KeyField.

(** The constructor is given [key="other"]; the store it builds, and
    the store after an update, still use the key field of the index. *)
Lemma key_field_always_agrees_witness :
  (exists s : @S3Store blob_libs,
     S3Store_init true (example_index 1 []) "bucket" None false None (Some "/sub/") 4
       [("key", VStr "other")] = Ok s /\
     key s = "task_id") /\
  key (fst (S3Store_update_seq (example_store false "") [doc_a] KeyNone)) = "task_id".
Proof.
  split.
  - destruct (proj1 (@key_field_always_agrees blob_libs) (example_index 1 []) "bucket"
                None false None (Some "/sub/") 4%nat [("key", VStr "other")])
      as (s & Hs & _ & Hk & _).
    exists s. split; [exact Hs | exact Hk].
  - exact (proj1 (proj2 (@key_field_always_agrees blob_libs)) (example_store false "")
             [doc_a] KeyNone _ eq_refl (update_seq_run _ _ _)).
Defined.

(** ** The key values of the index are strings *)

Section StringKeys.
Context {L : Libs}.
Implicit Types (s : S3Store).

Lemma index_upsert_in (k : string) (sds : list dict) : forall entries entries' e,
  index_upsert k entries sds = Ok entries' -> In e entries' -> In e entries \/ In e sds.
Proof.
  induction sds as [|x rest IH]; intros entries entries' e Hup Hin; cbn in Hup.
  - injection Hup as <-. now left.
  - destruct (getitem x k) as [v|]; cbn [bind] in Hup; [|discriminate].
    destruct (IH _ _ e Hup Hin) as [H | H]; [|right; now right].
    apply in_app_or in H as [H | [<- | []]].
    + left. now apply filter_In in H as [H _].
    + right. now left.
Qed.

Lemma valid_metadata_is_str (meta : dict) (k : string) (v : value) :
  valid_metadata meta = true -> dict_get meta k = Some v -> is_str v = true.
Proof.
  intros Hvalid Hget. now destruct (valid_metadata_get meta k v Hvalid Hget) as [x ->].
Qed.

(** The entries [update] commits were accepted as metadata by the
    bucket, so a store whose index holds string key values keeps
    holding string key values. *)
Lemma update_string_keyed s (docs : list dict) (k : key_arg) (out : S3Store * option exn) :
  string_keyed s -> S3Store_update s docs k out -> string_keyed (fst out).
Proof.
  intros Hinv Hrun.
  destruct Hrun as [Hw | Hw Hsub Hne | exec s1 rs fs Hw Hsub Hexec Hpool Hfs];
    [exact Hinv | exact Hinv |].
  set (ks := search_keys_of s k) in *.
  pose proof (run_pool_results exec s ks) as Hrs.
  pose proof (run_pool_env exec s ks) as (Hi & _ & _ & Hk & _).
  rewrite Hpool in Hrs, Hi, Hk. cbn [fst snd] in Hrs, Hi, Hk.
  assert (Hinv1 : string_keyed s1)
    by (unfold string_keyed; rewrite Hi, Hk; exact Hinv).
  unfold commit. destruct (collect fs) as [sds|e] eqn:Hcollect; [|exact Hinv1].
  unfold index_update.
  destruct (index_upsert _ (idx_docs (index s1)) sds) as [entries|e] eqn:Hup;
    cbn [bind fst]; [|exact Hinv1].
  intros e v He Hv. cbn [with_index index key with_docs idx_docs] in He, Hv.
  destruct (index_upsert_in _ sds _ _ e Hup He) as [Hold | Hnew].
  - exact (Hinv1 e v Hold Hv).
  - apply collect_ok in Hcollect. subst fs.
    apply (in_map Ok) in Hnew. apply (Permutation_in _ (Permutation_sym Hfs)) in Hnew.
    rewrite Hrs in Hnew. apply in_map_iff in Hnew as (d & Hd & _).
    destruct (write_result_put s s d ks e (same_env_refl s) Hd)
      as (_ & _ & _ & _ & _ & _ & Hvalid & _).
    exact (valid_metadata_is_str e (key s1) v Hvalid Hv).
Qed.

Lemma dedup_strings (l : list value) :
  Forall (fun v => is_str v = true) l -> Forall (fun v => is_str v = true) (dedup l).
Proof.
  induction 1 as [|v l Hv Hl IH]; cbn; constructor; [exact Hv|].
  apply List.Forall_forall. intros w Hw. apply filter_In in Hw as [Hw _].
  exact (proj1 (List.Forall_forall _ _) IH w Hw).
Qed.

Lemma strings_are_map (l : list value) :
  Forall (fun v => is_str v = true) l -> exists keys, l = map VStr keys.
Proof.
  induction 1 as [|v l Hv Hl (keys & ->)]; [now exists []|].
  destruct v; try discriminate. now exists (s :: keys).
Qed.

(** On such a store the key values [remove_docs] reads from the index
    are strings. *)
Lemma index_distinct_strings s (crit : dict -> bool) :
  string_keyed s ->
  exists keys, index_distinct (index s) (key s) crit = map VStr keys.
Proof.
  intros Hinv. apply strings_are_map, dedup_strings. unfold index_distinct.
  apply List.Forall_forall. intros v Hv.
  apply list_elem_of_In, list_elem_of_omap in Hv as (e & He & Hget).
  apply list_elem_of_In, filter_In in He as [He _].
  exact (Hinv e v He Hget).
Qed.

End StringKeys.

(** ** [remove_docs] with the blobs *)

(** C5.  [remove_docs] with [remove_s3_object=True], on a connected
    store whose index holds string key values: the matching keys, each
    with the [sub_dir] prefix, are deleted in consecutive bulk-delete
    calls of at most 1000 keys, and the call returns; 2500 keys make
    exactly three calls, of 1000, 1000 and 500 keys. *)
Theorem remove_docs_deletes_in_chunks {L : Libs} (s : S3Store) (b : Bucket)
    (crit : dict -> bool) :
  s3_bucket s = Some b ->
  string_keyed s ->
  exists (keys : list string) (s' : S3Store) (b' : Bucket) (chunks : list (list string)),
    index_distinct (index s) (key s) crit = map VStr keys /\
    S3Store_remove_docs s crit true = (s', None) /\
    s3_bucket s' = Some b' /\
    calls b' = (calls b ++ map DeleteObjects chunks)%list /\
    concat chunks = map (append (sub_dir s)) keys /\
    Forall (fun c => (0 < List.length c <= 1000)%nat) chunks /\
    (List.length keys = 2500%nat ->
     map (@List.length string) chunks = [1000; 1000; 500]%nat).
Proof.
  intros Hb Hinv.
  destruct (index_distinct_strings s crit Hinv) as (keys & Hkeys).
  exists keys. unfold S3Store_remove_docs. cbn [negb]. rewrite Hkeys.
  rewrite grouper_map.
  set (s1 := with_index s _).
  destruct (delete_chunks_strings (grouper keys 1000) s1 b Hb
              (grouper_from_bound 1000 _ keys)) as (s' & b' & Hrun & Hb' & _ & Hcalls).
  exists s', b', (map (map (append (sub_dir s))) (grouper keys 1000)).
  repeat split; try assumption.
  - rewrite <- concat_map. unfold grouper.
    now rewrite concat_grouper_from by lia.
  - apply Forall_map.
    eapply Forall_impl; [exact (grouper_from_bound 1000 (S (List.length keys)) keys)|].
    intros c Hc. simpl. now rewrite length_map.
  - intros Hn. rewrite map_map.
    erewrite map_ext by (intros c; apply length_map).
    unfold grouper. rewrite grouper_from_sizes, Hn. reflexivity.
Qed.

(** 2500 entries match: three calls, of 1000, 1000 and 500 keys. *)
Lemma remove_docs_deletes_in_chunks_witness :
  exists (s' : @S3Store blob_libs) (b' : @Bucket blob_libs) (chunks : list (list string)),
    S3Store_remove_docs big_store (fun _ => true) true = (s', None) /\
    s3_bucket s' = Some b' /\
    calls b' = map DeleteObjects chunks /\
    concat chunks = map (append "sub/") many_keys /\
    map (@List.length string) chunks = [1000; 1000; 500]%nat.
Proof.
  destruct (remove_docs_deletes_in_chunks big_store empty_bucket (fun _ => true))
    as (keys & s' & b' & chunks & Hkeys & Hrun & Hb' & Hcalls & Hconcat & _ & Hsizes).
  - reflexivity.
  - intros e v He. apply in_map_iff in He as (k & <- & _). cbn. now intros [= <-].
  - assert (keys = many_keys) as ->.
    { apply (f_equal (omap (fun v => match v with VStr k => Some k | _ => None end))) in Hkeys.
      assert (Hid : forall l : list string,
                 omap (fun v => match v with VStr k => Some k | _ => None end) (map VStr l) = l)
        by (induction l as [|x l IH]; cbn; [|rewrite IH]; reflexivity).
      rewrite Hid in Hkeys. rewrite <- Hkeys. vm_compute. reflexivity. }
    exists s', b', chunks.
    split; [exact Hrun|]. split; [exact Hb'|]. split; [exact Hcalls|].
    split; [exact Hconcat|]. apply Hsizes. vm_compute. reflexivity.
Defined.

(** ** [grouper]: the chunks exactly *)

Lemma chunk_sizes_exact (n : nat) : (0 < n)%nat -> forall fuel len : nat,
  (len < fuel)%nat ->
  chunk_sizes fuel len n =
  (repeat n (len / n) ++ (if Nat.eqb (len mod n) 0 then [] else [(len mod n)%nat]))%list.
Proof.
  intros Hn. induction fuel as [|fuel IH]; intros len Hlen; [lia|].
  cbn [chunk_sizes].
  destruct (Nat.lt_ge_cases len n) as [Hsmall | Hbig].
  - rewrite Nat.min_r by lia. rewrite (Nat.div_small len n Hsmall), (Nat.mod_small len n Hsmall).
    destruct len as [|len']; [reflexivity|].
    replace (S len' - n)%nat with 0%nat by lia.
    rewrite IH by lia.
    rewrite Nat.Div0.div_0_l, Nat.Div0.mod_0_l. reflexivity.
  - rewrite Nat.min_l by lia.
    destruct n as [|n']; [lia|].
    rewrite IH by lia.
    assert (Hd : (len / S n' = S ((len - S n') / S n'))%nat).
    { replace len with (1 * S n' + (len - S n'))%nat at 1 by lia.
      rewrite Nat.div_add_l by lia. reflexivity. }
    assert (Hm : ((len - S n') mod S n' = len mod S n')%nat).
    { replace len with ((len - S n') + 1 * S n')%nat at 2 by lia.
      now rewrite Nat.Div0.mod_add. }
    rewrite Hd, Hm. reflexivity.
Qed.

(** [grouper] cuts a sequence into consecutive chunks and loses
    nothing: every chunk has [n] items, but for a last, shorter one
    that holds the remainder when [n] does not divide the length; so
    the number of chunks is the length divided by [n], rounded up.  An
    empty sequence makes no chunk, and so does a chunk size of zero,
    whatever the sequence. *)
Theorem grouper_chunks_exactly {A : Type} (l : list A) (n : nat) :
  (n = 0%nat -> grouper l n = []) /\
  ((0 < n)%nat ->
   concat (grouper l n) = l /\
   map (@List.length A) (grouper l n) =
   (repeat n (List.length l / n)
    ++ (if Nat.eqb (List.length l mod n) 0 then [] else [(List.length l mod n)%nat]))%list).
Proof.
  split.
  - intros ->. reflexivity.
  - intros Hn. unfold grouper. split.
    + apply concat_grouper_from; [lia | exact Hn].
    + rewrite grouper_from_sizes. apply chunk_sizes_exact; [exact Hn | lia].
Qed.

Lemma grouper_chunks_exactly_witness :
  concat (grouper ["a"; "b"; "c"; "d"; "e"; "f"; "g"] 3) = ["a"; "b"; "c"; "d"; "e"; "f"; "g"] /\
  map (@List.length string) (grouper ["a"; "b"; "c"; "d"; "e"; "f"; "g"] 3) = [3; 3; 1]%nat.
Proof.
  apply (proj2 (grouper_chunks_exactly ["a"; "b"; "c"; "d"; "e"; "f"; "g"] 3)). lia.
Defined.

(** ** The ceiling keeps the order *)

Ltac split_cmp :=
  match goal with
  | H : context [lex (?a ?= ?b) _] |- _ =>
      destruct (Z.compare_spec a b); cbn [lex] in H; try subst
  | H : context [?a ?= ?b] |- _ =>
      destruct (Z.compare_spec a b); try subst
  end.

Lemma add_millisecond_monotone (t1 t2 u1 u2 : datetime) :
  valid_datetime t1 = true -> valid_datetime t2 = true ->
  datetime_le t1 t2 ->
  add_millisecond t1 = Ok u1 -> add_millisecond t2 = Ok u2 ->
  datetime_le (floor_ms u1) (floor_ms u2).
Proof.
  rewrite !valid_datetime_spec. intros Hv1 Hv2 Hle Hu1 Hu2.
  destruct t1 as [y1 mo1 d1 h1 mi1 se1 us1], t2 as [y2 mo2 d2 h2 mi2 se2 us2].
  unfold datetime_le, datetime_compare in Hle.
  cbn [year month day hour minute second microsecond] in *.
  assert (Hfl : forall a b : Z, a <= b -> a / 1000 * 1000 <= b / 1000 * 1000).
  { intros a b Hab. pose proof (Z.div_le_mono a b 1000 ltac:(lia) Hab). lia. }
  pose proof (Hfl us1 us2) as Hf1.
  pose proof (Hfl (us1 + 1000) (us2 + 1000)) as Hf2.
  pose proof (Hfl (us1 + 1000 - 1000000) (us2 + 1000 - 1000000)) as Hf3.
  pose proof (Hfl (us1 + 1000 - 1000000) (us2 + 1000)) as Hf5.
  assert (Hf4 : us1 + 1000 < 1000000 -> 1000000 <= us2 + 1000 -> False \/ us1 < us2) by lia.
  unfold add_millisecond, next_second, next_day, with_microsecond, MAXYEAR in Hu1, Hu2.
  cbn [year month day hour minute second microsecond] in Hu1, Hu2.
  pose proof (days_in_month_bounds y1 mo1).
  pose proof (days_in_month_bounds y2 mo2).
  repeat split_cmp; try (exfalso; apply Hle; reflexivity); clear Hle.
  all: repeat split_if; try discriminate.
  all: injection Hu1 as <-; injection Hu2 as <-.
  all: unfold datetime_le, datetime_compare, floor_ms, with_microsecond;
       cbn [year month day hour minute second microsecond].
  all: repeat match goal with
              | |- lex (?a ?= ?b) _ <> Gt =>
                  destruct (Z.compare_spec a b); cbn [lex];
                  [ | discriminate | exfalso; lia ]
              | |- (?a ?= ?b) <> Gt =>
                  destruct (Z.compare_spec a b);
                  [ discriminate | discriminate | exfalso; lia ]
              end.
Qed.

(** The ceiling keeps the order of datetimes: when [t1] is not later
    than [t2], what is written for [t1] reads back as a datetime not
    later than what is written for [t2] reads back as. *)
Theorem ceil_ms_keeps_order (t1 t2 : datetime) (s1 s2 : string) :
  valid_datetime t1 = true -> valid_datetime t2 = true ->
  datetime_le t1 t2 ->
  dt_to_isoformat_ceil_ms t1 = Ok s1 -> dt_to_isoformat_ceil_ms t2 = Ok s2 ->
  exists t1' t2',
    isostr_to_dt s1 = Ok t1' /\ isostr_to_dt s2 = Ok t2' /\ datetime_le t1' t2'.
Proof.
  intros Hv1 Hv2 Hle. unfold dt_to_isoformat_ceil_ms.
  destruct (add_millisecond t1) as [u1|] eqn:Hu1; cbn [bind]; [|discriminate].
  destruct (add_millisecond t2) as [u2|] eqn:Hu2; cbn [bind]; [|discriminate].
  intros [= <-] [= <-]. exists (floor_ms u1), (floor_ms u2).
  split; [apply isostr_to_dt_isoformat; exact (add_millisecond_valid t1 u1 Hv1 Hu1)|].
  split; [apply isostr_to_dt_isoformat; exact (add_millisecond_valid t2 u2 Hv2 Hu2)|].
  exact (add_millisecond_monotone t1 t2 u1 u2 Hv1 Hv2 Hle Hu1 Hu2).
Qed.

Lemma ceil_ms_keeps_order_witness :
  exists t1' t2',
    isostr_to_dt "2020-02-29T00:00:00.000" = Ok t1' /\
    isostr_to_dt "2020-03-01T12:00:00.001" = Ok t2' /\ datetime_le t1' t2'.
Proof.
  apply (ceil_ms_keeps_order example_t1 (mk_datetime 2020 3 1 12 0 0 0)).
  - reflexivity.
  - reflexivity.
  - discriminate.
  - reflexivity.
  - reflexivity.
Defined.

(** ** [isostr_to_dt] on what [isoformat] writes *)

Lemma read_date_time_seconds (t : datetime) (rest : string) :
  valid_datetime t = true ->
  read_date_time (isoformat_seconds t +:+ rest) = Some (with_microsecond t 0, rest).
Proof.
  intros Hv. apply valid_datetime_spec in Hv.
  pose proof (days_in_month_bounds (year t) (month t)).
  unfold read_date_time, isoformat_seconds.
  rewrite !append_assoc.
  repeat (rewrite read_digits_zfill by (simpl; lia); cbn [opt_bind];
          try (rewrite read_char_lit; cbn [opt_bind])).
  unfold with_microsecond. repeat f_equal.
Qed.

Lemma append_empty_r (s : string) : s +:+ "" = s.
Proof. induction s as [|c s IH]; simpl; [reflexivity | now rewrite IH]. Qed.

Lemma read_fraction_micro (n : Z) :
  0 <= n < 1000000 -> read_fraction (zfill 6 n) = Some n.
Proof.
  intros Hn. unfold read_fraction. rewrite length_zfill.
  cbn [Nat.leb andb]. unfold digits.
  destruct (zfill 6 n) eqn:E.
  - apply (f_equal String.length) in E. rewrite length_zfill in E. discriminate.
  - rewrite <- E, digits_acc_zfill by (simpl; lia). f_equal. simpl. lia.
Qed.

(** [isostr_to_dt] reads back what [isoformat()] writes for a naive
    datetime, with microseconds (the first format) and without (the
    second, after the first has failed); and it raises [ValueError]
    when anything but a fraction follows the seconds, as the offset of
    an aware datetime or a [Z] does. *)
Theorem isostr_to_dt_inverts_isoformat (t : datetime) :
  valid_datetime t = true ->
  isostr_to_dt (isoformat_auto t) = Ok t /\
  forall (c : ascii) (rest : string),
    c <> "."%char ->
    isostr_to_dt (isoformat_seconds t +:+ String c rest) = Raise ValueError.
Proof.
  intros Hv. split.
  - unfold isoformat_auto, isostr_to_dt, strptime_fraction, strptime_seconds.
    destruct (Z.eqb_spec (microsecond t) 0) as [Hz | Hnz].
    + rewrite <- (append_empty_r (isoformat_seconds t)).
      rewrite read_date_time_seconds by exact Hv. cbn [read_char opt_bind].
      unfold checked. destruct t as [y mo d h mi se us]. cbn in Hz. subst us.
      unfold with_microsecond. cbn [year month day hour minute second].
      now rewrite Hv.
    + rewrite read_date_time_seconds by exact Hv.
      rewrite read_char_lit. cbn [opt_bind].
      pose proof (proj1 (valid_datetime_spec t) Hv) as Hs.
      rewrite read_fraction_micro by lia.
      unfold checked. destruct t as [y mo d h mi se us].
      unfold with_microsecond. cbn [year month day hour minute second microsecond].
      now rewrite Hv.
  - intros c rest Hc.
    unfold isostr_to_dt, strptime_fraction, strptime_seconds.
    rewrite read_date_time_seconds by exact Hv.
    cbn [read_char]. destruct (Ascii.eqb_spec "."%char c) as [<-|_]; [congruence|].
    reflexivity.
Qed.

Lemma isostr_to_dt_inverts_isoformat_witness :
  isostr_to_dt (isoformat_auto example_t1) = Ok example_t1 /\
  forall (c : ascii) (rest : string),
    c <> "."%char ->
    isostr_to_dt (isoformat_seconds example_t1 +:+ String c rest) = Raise ValueError.
Proof. apply (isostr_to_dt_inverts_isoformat example_t1). reflexivity. Defined.

(** ** The ceiling is strictly later, by at most a millisecond *)

Lemma floor_ms_le (u : datetime) :
  0 <= microsecond u -> datetime_le (floor_ms u) u.
Proof.
  intros Hu. unfold datetime_le, datetime_compare, floor_ms, with_microsecond.
  cbn [year month day hour minute second microsecond].
  rewrite !compare_eq_lex.
  pose proof (Z.div_mod (microsecond u) 1000 ltac:(lia)).
  pose proof (Z.mod_pos_bound (microsecond u) 1000 ltac:(lia)).
  intros Hgt. apply Z.compare_gt_iff in Hgt. lia.
Qed.

(** What [dt_to_isoformat_ceil_ms] writes for [t] reads back as a whole
    millisecond strictly later than [t] and no later than [t] plus one
    millisecond; a datetime that is a whole millisecond already is
    moved to the next one. *)
Theorem ceil_ms_within_a_millisecond (t : datetime) :
  valid_datetime t = true -> datetime_lt t last_millisecond ->
  exists s u t',
    dt_to_isoformat_ceil_ms t = Ok s /\ add_millisecond t = Ok u /\
    isostr_to_dt s = Ok t' /\
    datetime_lt t t' /\ datetime_le t' u /\ microsecond t' mod 1000 = 0 /\
    (microsecond t mod 1000 = 0 -> t' = u).
Proof.
  intros Hv Hl. destruct (add_millisecond_total t Hv Hl) as [u Hu].
  pose proof (add_millisecond_valid t u Hv Hu) as Hvu.
  exists (isoformat_ms u), u, (floor_ms u).
  unfold dt_to_isoformat_ceil_ms. rewrite Hu. cbn [bind].
  split; [reflexivity|]. split; [reflexivity|].
  split; [now apply isostr_to_dt_isoformat|].
  split; [exact (add_millisecond_floor_gt t u Hv Hu)|].
  apply valid_datetime_spec in Hvu.
  split; [apply floor_ms_le; lia|].
  split.
  - unfold floor_ms, with_microsecond. cbn [microsecond]. apply Z.mod_mul. lia.
  - intros Hwhole.
    assert (Hus : microsecond u mod 1000 = 0).
    { apply valid_datetime_spec in Hv.
      unfold add_millisecond, next_second, next_day, with_microsecond, MAXYEAR in Hu.
      cbn [year month day hour minute second microsecond] in Hu.
      pose proof (Z.div_mod (microsecond t) 1000 ltac:(lia)) as Hdm.
      rewrite Hwhole in Hdm.
      repeat split_if; try discriminate; injection Hu as <-;
        cbn [microsecond].
      all: try (replace (microsecond t + 1000) with ((microsecond t / 1000 + 1) * 1000) by lia;
                apply Z.mod_mul; lia).
      all: replace (microsecond t + 1000 - 1000000)
             with ((microsecond t / 1000 - 999) * 1000) by lia;
           apply Z.mod_mul; lia. }
    unfold floor_ms, with_microsecond. destruct u as [y mo d h mi se us].
    cbn [year month day hour minute second microsecond] in *.
    f_equal. pose proof (Z.div_mod us 1000 ltac:(lia)). lia.
Qed.

Lemma ceil_ms_within_a_millisecond_witness :
  exists s u t',
    dt_to_isoformat_ceil_ms example_t1 = Ok s /\ add_millisecond example_t1 = Ok u /\
    isostr_to_dt s = Ok t' /\
    datetime_lt example_t1 t' /\ datetime_le t' u /\ microsecond t' mod 1000 = 0 /\
    (microsecond example_t1 mod 1000 = 0 -> t' = u).
Proof. apply (ceil_ms_within_a_millisecond example_t1); reflexivity. Defined.

(** ** Dictionaries with one item per key *)

Lemma dict_get_notin (d : dict) (k : string) :
  ~ In k (map fst d) -> dict_get d k = None.
Proof.
  induction d as [|[k' v] d IH]; simpl; [reflexivity|]. intros Hnot.
  destruct (String.eqb_spec k k') as [->|]; [exfalso; apply Hnot; now left|].
  apply IH. intros Hin. apply Hnot. now right.
Qed.

Lemma dict_get_in (d : dict) (k : string) (v : value) :
  dict_get d k = Some v -> In k (map fst d).
Proof.
  induction d as [|[k' v'] d IH]; simpl; [discriminate|].
  destruct (String.eqb_spec k k') as [->|]; [now left | right; auto].
Qed.

Lemma dict_get_del_eq (d : dict) (k : string) :
  wf_dict d -> dict_get (dict_del d k) k = None.
Proof.
  unfold wf_dict. induction d as [|[k' v] d IH]; simpl; [reflexivity|].
  intros Hwf. inversion Hwf as [|? ? Hnot Hwf']; subst.
  destruct (String.eqb_spec k k') as [->|Hne].
  - now apply dict_get_notin.
  - simpl. destruct (String.eqb_spec k k'); [contradiction | now apply IH].
Qed.

Lemma dict_del_keys (d : dict) (k k' : string) :
  In k' (map fst (dict_del d k)) -> In k' (map fst d).
Proof.
  induction d as [|[k0 v] d IH]; simpl; [tauto|].
  destruct (String.eqb k k0); simpl; tauto.
Qed.

Lemma dict_set_keys (d : dict) (k k' : string) (v : value) :
  In k' (map fst (dict_set d k v)) -> k' = k \/ In k' (map fst d).
Proof.
  induction d as [|[k0 v0] d IH]; simpl.
  - intros [<-|[]]. now left.
  - destruct (String.eqb_spec k k0) as [->|]; simpl; intros [<-|Hin]; auto.
    destruct (IH Hin); auto.
Qed.

Lemma dict_del_wf (d : dict) (k : string) : wf_dict d -> wf_dict (dict_del d k).
Proof.
  unfold wf_dict. induction d as [|[k0 v] d IH]; simpl; [auto|].
  intros Hwf. inversion Hwf as [|? ? Hnot Hwf']; subst.
  destruct (String.eqb k k0); [exact Hwf'|]. simpl. constructor; [|auto].
  intros Hin. apply Hnot. now apply dict_del_keys in Hin.
Qed.

Lemma dict_set_wf (d : dict) (k : string) (v : value) :
  wf_dict d -> wf_dict (dict_set d k v).
Proof.
  unfold wf_dict. induction d as [|[k0 v0] d IH]; simpl.
  - intros _. constructor; [intros [] | constructor].
  - intros Hwf. inversion Hwf as [|? ? Hnot Hwf']; subst.
    destruct (String.eqb_spec k k0) as [->|Hne]; simpl.
    + now constructor.
    + constructor; [|auto]. intros Hin.
      apply dict_set_keys in Hin as [->|Hin]; [congruence | contradiction].
Qed.

(** ** [lazy_substitute] *)

(** One alias for a key that is in the dictionary: its value moves
    under the alias, the key is gone, every other item is as it was,
    and there is still one item per key.  An alias equal to its key
    deletes the item. *)
Theorem lazy_substitute_moves (d : dict) (alias k : string) (v : value) :
  wf_dict d -> dict_get d k = Some v ->
  dict_get (lazy_substitute d [(alias, k)]) k = None /\
  dict_get (lazy_substitute d [(alias, k)]) alias
    = (if String.eqb alias k then None else Some v) /\
  (forall k', k' <> alias -> k' <> k ->
     dict_get (lazy_substitute d [(alias, k)]) k' = dict_get d k') /\
  wf_dict (lazy_substitute d [(alias, k)]).
Proof.
  intros Hwf Hget. unfold lazy_substitute. cbn [fold_left]. rewrite Hget.
  assert (Hgone : dict_get (dict_del (dict_set d alias v) k) k = None)
    by (apply dict_get_del_eq; now apply dict_set_wf).
  split; [exact Hgone|]. split; [|split].
  - destruct (String.eqb_spec alias k) as [->|Hne]; [exact Hgone|].
    rewrite dict_get_del_ne by congruence. apply dict_get_set_eq.
  - intros k' Ha Hk. rewrite dict_get_del_ne by congruence.
    apply dict_get_set_ne. congruence.
  - now apply dict_del_wf, dict_set_wf.
Qed.

Lemma lazy_substitute_moves_witness :
  dict_get (lazy_substitute doc_a [("values", "data")]) "data" = None /\
  dict_get (lazy_substitute doc_a [("values", "data")]) "values"
    = (if String.eqb "values" "data" then None else Some (VList [VInt 1; VInt 2])) /\
  (forall k', k' <> "values" -> k' <> "data" ->
     dict_get (lazy_substitute doc_a [("values", "data")]) k' = dict_get doc_a k') /\
  wf_dict (lazy_substitute doc_a [("values", "data")]).
Proof.
  apply (lazy_substitute_moves doc_a "values" "data" (VList [VInt 1; VInt 2])).
  - unfold wf_dict. simpl. repeat constructor; simpl; intuition discriminate.
  - reflexivity.
Defined.

(** ** [unset] and [substitute] on nested keys *)

Lemma dict_del_set_same (d : dict) (k : string) (v w : value) :
  dict_get d k = Some w -> dict_del (dict_set d k v) k = dict_del d k.
Proof.
  induction d as [|[k0 v0] d IH]; simpl; [discriminate|].
  destruct (String.eqb_spec k k0) as [->|Hne]; simpl.
  - now rewrite String.eqb_refl.
  - destruct (String.eqb_spec k k0); [contradiction|]. intros H. now rewrite IH.
Qed.

Lemma dict_set_set (d : dict) (k : string) (v w : value) :
  dict_set (dict_set d k v) k w = dict_set d k w.
Proof.
  induction d as [|[k0 v0] d IH]; simpl.
  - now rewrite String.eqb_refl.
  - destruct (String.eqb_spec k k0) as [->|Hne]; simpl.
    + now rewrite String.eqb_refl.
    + destruct (String.eqb_spec k k0); [contradiction|]. now rewrite IH.
Qed.

Ltac len_zero :=
  cbn [List.length]; rewrite ?Nat2Z.inj_succ;
  repeat match goal with
         | |- context [Z.of_nat 0 =? 0] => change (Z.of_nat 0 =? 0) with true
         | |- context [Z.succ (Z.of_nat ?n) =? 0] =>
             replace (Z.succ (Z.of_nat n) =? 0) with false
               by (symmetry; apply Z.eqb_neq; lia)
         end;
  cbn iota; cbn [bind].

Lemma dict_set_cons (d : dict) (k : string) (v : value) :
  exists kv d', dict_set d k v = kv :: d'.
Proof.
  destruct d as [|[k0 v0] d]; simpl; [eauto|]. destruct (String.eqb k k0); eauto.
Qed.

Lemma unset_one (d : dict) (a : string) : unset d [a] = Ok (dict_del d a).
Proof. reflexivity. Qed.

Lemma unset_two (d ma : dict) (a b : string) :
  dict_get d a = Some (VDict ma) ->
  unset d [a; b] =
  Ok (match dict_del ma b with
      | [] => dict_del d a
      | m' => dict_set d a (VDict m')
      end).
Proof.
  intros Ha. unfold unset. cbn [List.length unset_from unset_path].
  rewrite Ha. unfold rev_range_from_1. cbn [Nat.sub seq rev app fold_left bind firstn].
  unfold get. cbn [lookup_path]. rewrite dict_get_set_eq. cbn [py_len bind].
  destruct (dict_del ma b) as [|kv m'] eqn:E.
  - len_zero. cbn [List.length Nat.sub seq rev fold_left unset_path].
    now rewrite (dict_del_set_same d a _ _ Ha).
  - len_zero. reflexivity.
Qed.

Lemma unset_three (d ma mb : dict) (a b c : string) :
  wf_dict d ->
  dict_get d a = Some (VDict ma) -> dict_get ma b = Some (VDict mb) ->
  unset d [a; b; c] =
  match dict_del mb c, dict_del ma b with
  | (kv :: mb'), _ => Ok (dict_set d a (VDict (dict_set ma b (VDict (kv :: mb')))))
  | [], (kv :: ma') => Ok (dict_set d a (VDict (kv :: ma')))
  | [], [] => Raise TypeError
  end.
Proof.
  intros Hwf Ha Hb. unfold unset. cbn [List.length unset_from unset_path].
  rewrite Ha, Hb. unfold rev_range_from_1.
  cbn [List.length Nat.sub seq rev app fold_left bind firstn].
  unfold get. cbn [lookup_path]. rewrite !dict_get_set_eq. cbn [py_len bind].
  destruct (dict_del mb c) as [|kv mb'] eqn:Ec.
  - len_zero. cbn [unset_path]. rewrite ?dict_get_set_eq. cbn [py_len bind].
    rewrite ?dict_set_set, ?dict_get_set_eq, (dict_del_set_same ma b _ _ Hb).
    destruct (dict_del ma b) as [|kv ma'] eqn:Eb.
    + len_zero. rewrite (dict_del_set_same d a _ _ Ha), (dict_get_del_eq d a Hwf).
      reflexivity.
    + len_zero. rewrite dict_get_set_eq. cbn [py_len bind]. len_zero. reflexivity.
  - len_zero. rewrite dict_get_set_eq. cbn [py_len bind].
    destruct (dict_set_cons ma b (VDict (kv :: mb'))) as (kv' & m' & ->).
    len_zero. reflexivity.
Qed.

(** [unset] removes the item at a path and then every parent it left
    empty, innermost first, when one level of parents is emptied; a
    parent that still holds other items stays.  When removing the item
    empties its parent and removing that parent empties the
    grandparent, the call does not remove the grandparent cleanly: it
    raises [TypeError], from [len(None)] on the parent that is gone. *)
Theorem unset_prunes_parents (d ma mb : dict) (a b c : string) :
  wf_dict d -> dict_get d a = Some (VDict ma) -> dict_get ma b = Some (VDict mb) ->
  unset d [a] = Ok (dict_del d a) /\
  unset d [a; b] =
    Ok (match dict_del ma b with
        | [] => dict_del d a
        | m' => dict_set d a (VDict m')
        end) /\
  unset d [a; b; c] =
    match dict_del mb c, dict_del ma b with
    | (kv :: mb'), _ => Ok (dict_set d a (VDict (dict_set ma b (VDict (kv :: mb')))))
    | [], (kv :: ma') => Ok (dict_set d a (VDict (kv :: ma')))
    | [], [] => Raise TypeError
    end.
Proof.
  intros Hwf Ha Hb. split; [apply unset_one|].
  split; [now apply unset_two | now apply unset_three].
Qed.

Lemma unset_prunes_parents_witness :
  let d := [("a", VDict [("b", VDict [("c", VInt 1)])]); ("k", VInt 0)] in
  unset d ["a"] = Ok [("k", VInt 0)] /\
  unset d ["a"; "b"] = Ok [("k", VInt 0)] /\
  unset d ["a"; "b"; "c"] = Raise TypeError.
Proof.
  apply (unset_prunes_parents
           [("a", VDict [("b", VDict [("c", VInt 1)])]); ("k", VInt 0)]
           [("b", VDict [("c", VInt 1)])] [("c", VInt 1)] "a" "b" "c").
  - unfold wf_dict. simpl. repeat constructor; simpl; intuition discriminate.
  - reflexivity.
  - reflexivity.
Defined.

Lemma split_dots_dotless (s : string) : forall cur : string,
  dotless s = true -> split_dots s cur = [cur +:+ s].
Proof.
  unfold dotless. induction s as [|ch s IH]; intros cur; simpl.
  - intros _. now rewrite append_empty_r.
  - intros H. apply andb_true_iff in H as [Hc Hs].
    apply negb_true_iff in Hc. rewrite Hc.
    rewrite (IH _ Hs), append_assoc. reflexivity.
Qed.

Lemma to_path_dotless (s : string) : dotless s = true -> to_path s = [s].
Proof. intros H. unfold to_path. now rewrite split_dots_dotless. Qed.

Lemma split_dots_dot (a b : string) : forall cur : string,
  dotless a = true ->
  split_dots (a +:+ "." +:+ b) cur = (cur +:+ a) :: to_path b.
Proof.
  unfold dotless. induction a as [|ch a IH]; intros cur; simpl.
  - intros _. now rewrite append_empty_r.
  - intros H. apply andb_true_iff in H as [Hc Hs].
    apply negb_true_iff in Hc. rewrite Hc.
    rewrite (IH _ Hs), append_assoc. reflexivity.
Qed.

Lemma to_path_dot (a b : string) :
  dotless a = true -> to_path (a +:+ "." +:+ b) = a :: to_path b.
Proof. intros H. unfold to_path at 1. now rewrite split_dots_dot. Qed.

Lemma plain_key_dotless (s : string) : plain_key s = true -> dotless s = true.
Proof.
  unfold plain_key, dotless. intros H. apply andb_true_iff in H as [_ H].
  induction (list_ascii_of_string s) as [|c l IH]; [reflexivity|].
  cbn [forallb] in *. apply andb_true_iff in H as [Hc Hl].
  rewrite (IH Hl), andb_true_r.
  destruct (Ascii.eqb c "."); [discriminate Hc | reflexivity].
Qed.

(** [substitute] with a top-level alias [x] for the nested key [a.b],
    all three plain keys: the value moves under [x], [b] leaves [a],
    and [a] goes with it when [b] was its only item. *)
Theorem substitute_nested_key (d ma : dict) (x a b : string) (v : value) :
  plain_key x = true -> plain_key a = true -> plain_key b = true ->
  x <> a -> dict_get d a = Some (VDict ma) -> dict_get ma b = Some v ->
  substitute d [(x, a +:+ "." +:+ b)] =
  Ok (match dict_del ma b with
      | [] => dict_del (dict_set d x v) a
      | m' => dict_set (dict_set d x v) a (VDict m')
      end).
Proof.
  intros Hx Ha Hb Hne Hda Hmb.
  apply plain_key_dotless in Hx, Ha, Hb.
  unfold substitute. cbn [fold_left bind].
  rewrite to_path_dot, (to_path_dotless b), (to_path_dotless x) by assumption.
  unfold has, get. cbn [lookup_path]. rewrite Hda, Hmb. cbn [set_path bind].
  apply unset_two. rewrite dict_get_set_ne by exact Hne. exact Hda.
Qed.

Lemma substitute_nested_key_witness :
  substitute [("a", VDict [("b", VInt 1); ("e", VInt 2)]); ("k", VNone)] [("x", "a.e")] =
  Ok [("a", VDict [("b", VInt 1)]); ("k", VNone); ("x", VInt 2)].
Proof.
  apply (substitute_nested_key
           [("a", VDict [("b", VInt 1); ("e", VInt 2)]); ("k", VNone)]
           [("b", VInt 1); ("e", VInt 2)] "x" "a" "e" (VInt 2));
    first [reflexivity | discriminate].
Defined.

(** [substitute] with an alias for a key three levels deep, [a.b.c],
    that is the only item under [a], the alias and the three keys
    being plain keys: the value is copied under the alias, and then the
    call raises [TypeError] while it removes the emptied parents; the
    key is never substituted. *)
Theorem substitute_deep_key_raises (d : dict) (x a b c : string) (v : value) :
  wf_dict d ->
  plain_key x = true -> plain_key a = true -> plain_key b = true -> plain_key c = true ->
  x <> a -> dict_get d a = Some (VDict [(b, VDict [(c, v)])]) ->
  substitute d [(x, a +:+ "." +:+ b +:+ "." +:+ c)] = Raise TypeError.
Proof.
  intros Hwf Hx Ha Hb Hc Hne Hda.
  apply plain_key_dotless in Hx, Ha, Hb, Hc.
  unfold substitute. cbn [fold_left bind].
  rewrite to_path_dot, to_path_dot, (to_path_dotless c), (to_path_dotless x)
    by assumption.
  unfold has, get. cbn [lookup_path]. rewrite Hda. cbn [dict_get].
  rewrite String.eqb_refl. cbn [dict_get]. rewrite String.eqb_refl.
  cbn [set_path bind].
  rewrite (unset_three (dict_set d x v) [(b, VDict [(c, v)])] [(c, v)] a b c).
  - cbn [dict_del]. now rewrite !String.eqb_refl.
  - now apply dict_set_wf.
  - rewrite dict_get_set_ne by exact Hne. exact Hda.
  - cbn [dict_get]. now rewrite String.eqb_refl.
Qed.

Lemma substitute_deep_key_raises_witness :
  substitute [("a", VDict [("b", VDict [("c", VInt 1)])]); ("k", VNone)] [("x", "a.b.c")]
  = Raise TypeError.
Proof.
  apply (substitute_deep_key_raises
           [("a", VDict [("b", VDict [("c", VInt 1)])]); ("k", VNone)]
           "x" "a" "b" "c" (VInt 1)); try reflexivity; try discriminate.
  unfold wf_dict. simpl. repeat constructor; simpl; intuition discriminate.
Defined.

(** ** [recursive_update] *)

Lemma recursive_update_cons (d rest : dict) (k : string) (v : value) :
  recursive_update d ((k, v) :: rest) =
  recursive_update
    (match dict_get d k, v with
     | Some (VDict dk), VDict mu => dict_set d k (VDict (recursive_update dk mu))
     | _, _ => dict_set d k v
     end) rest.
Proof.
  unfold recursive_update. cbn [update_value].
  destruct (dict_get d k) as [[| | | | | |dk]|]; try reflexivity.
  destruct v; reflexivity.
Qed.

(** What [recursive_update] leaves under each key: a key the updates
    do not have keeps its value; a key they have gets the value of the
    updates, except that where both hold a dictionary the one of the
    updates is merged, in the same way, into the one that was there. *)
Theorem recursive_update_by_key (u : dict) : forall (d : dict) (k : string),
  wf_dict u ->
  dict_get (recursive_update d u) k =
  match dict_get u k with
  | None => dict_get d k
  | Some v =>
      Some (match dict_get d k, v with
            | Some (VDict md), VDict mu => VDict (recursive_update md mu)
            | _, _ => v
            end)
  end.
Proof.
  induction u as [|[k0 v0] rest IH]; intros d k Hwf; [reflexivity|].
  unfold wf_dict in Hwf. cbn [map fst] in Hwf.
  inversion Hwf as [|? ? Hnot Hwf']; subst.
  rewrite recursive_update_cons, (IH _ k Hwf'). cbn [dict_get].
  destruct (String.eqb_spec k k0) as [->|Hne].
  - rewrite (dict_get_notin rest k0 Hnot).
    destruct (dict_get d k0) as [[| | | | | |dk]|]; try apply dict_get_set_eq.
    destruct v0; apply dict_get_set_eq.
  - assert (Hsame : dict_get
                      (match dict_get d k0, v0 with
                       | Some (VDict dk), VDict mu =>
                           dict_set d k0 (VDict (recursive_update dk mu))
                       | _, _ => dict_set d k0 v0
                       end) k = dict_get d k).
    { destruct (dict_get d k0) as [[| | | | | |dk]|];
        try (apply dict_get_set_ne; congruence).
      destruct v0; apply dict_get_set_ne; congruence. }
    now rewrite Hsame.
Qed.

Lemma recursive_update_by_key_witness :
  dict_get (recursive_update [("a", VDict [("b", VInt 1); ("c", VInt 2)]); ("k", VNone)]
                             [("a", VDict [("b", VInt 5)]); ("z", VInt 7)]) "a"
  = Some (VDict [("b", VInt 5); ("c", VInt 2)]).
Proof.
  apply (recursive_update_by_key [("a", VDict [("b", VInt 5)]); ("z", VInt 7)]
           [("a", VDict [("b", VInt 1); ("c", VInt 2)]); ("k", VNone)] "a").
  unfold wf_dict. simpl. repeat constructor; simpl; intuition discriminate.
Defined.

(** ** [query]: answers from the index, and where it ends *)

Section QueryShape.
Context {L : Libs}.

Lemma project_get (doc : dict) (p : string) (ps : list string) : forall acc : dict,
  dict_get
    (fold_left
       (fun acc p => match dict_get doc p with Some v => dict_set acc p v | None => acc end)
       ps acc) p
  = if existsb (String.eqb p) ps
    then match dict_get doc p with Some v => Some v | None => dict_get acc p end
    else dict_get acc p.
Proof.
  induction ps as [|q ps IH]; intros acc; cbn [fold_left existsb]; [reflexivity|].
  rewrite IH. destruct (String.eqb_spec p q) as [<-|Hne]; cbn [orb].
  - destruct (dict_get doc p) as [v|] eqn:Hp.
    + rewrite dict_get_set_eq. now destruct (existsb (String.eqb p) ps).
    + now destruct (existsb (String.eqb p) ps).
  - destruct (dict_get doc q) as [v|]; [|reflexivity].
    now rewrite dict_get_set_ne by congruence.
Qed.

(** When every entry the index answers with has all the requested
    properties, the query is answered from the index alone: it yields,
    for each entry in order, the requested properties of the entry and
    nothing else, and raises nothing, whatever the state of the bucket,
    connected or not.  With an empty list of properties every entry
    yields an empty document. *)
Theorem query_answered_from_index (s : S3Store) (q : Query) (ps : list string) :
  Forall (fun e => forallb (dict_has e) ps = true) (index_query (index s) q) ->
  S3Store_query s q (Some ps)
    = (map (fun e => VDict (project e ps)) (index_query (index s) q), None) /\
  forall (e : dict) (p : string),
    dict_get (project e ps) p
    = if existsb (String.eqb p) ps then dict_get e p else None.
Proof.
  intros Hall. split.
  - unfold S3Store_query. induction Hall as [|e es He Hes IH]; [reflexivity|].
    cbn [query_loop query_entry map]. rewrite He, IH. reflexivity.
  - intros e p. unfold project. rewrite project_get. cbn [dict_get].
    destruct (existsb (String.eqb p) ps); [|reflexivity].
    now destruct (dict_get e p).
Qed.

(** The query walks the answer of the index in order and yields one
    document for each entry of a prefix of it, skipping none: it ends
    at the end of the answer, or without raising at the first entry
    whose turn breaks the loop, or by raising at the first entry whose
    turn raises. *)
Theorem query_yields_a_prefix (s : S3Store) (q : Query) (properties : option (list string)) :
  exists (n : nat),
    (n <= List.length (index_query (index s) q))%nat /\
    Forall2 (fun e d => query_entry s properties e = Yield d)
            (firstn n (index_query (index s) q))
            (fst (S3Store_query s q properties)) /\
    match nth_error (index_query (index s) q) n with
    | None => snd (S3Store_query s q properties) = None
    | Some e =>
        match snd (S3Store_query s q properties) with
        | None => query_entry s properties e = Break
        | Some x => query_entry s properties e = Throw x
        end
    end.
Proof.
  unfold S3Store_query. induction (index_query (index s) q) as [|e es IH].
  - exists 0%nat. cbn. repeat split; [lia | constructor].
  - cbn [query_loop]. destruct (query_entry s properties e) as [v| |x] eqn:He.
    + destruct IH as (n & Hn & Hall & Hend).
      destruct (query_loop s properties es) as [vs r]. cbn [fst snd] in *.
      exists (S n). cbn [List.length firstn nth_error].
      split; [lia|]. split; [now constructor | exact Hend].
    + exists 0%nat. cbn [List.length firstn nth_error fst snd].
      split; [lia|]. split; [constructor | exact He].
    + exists 0%nat. cbn [List.length firstn nth_error fst snd].
      split; [lia|]. split; [constructor | exact He].
Qed.

(** A [ClientError] whose code does not read as a number, as
    [AccessDenied], or the [NoSuchKey] under which a missing object is
    reported on a read, ends the query with the [ValueError] of the
    conversion, after the
    documents of the entries before it have been yielded: the loop
    neither breaks nor raises the [ClientError]. *)
Theorem query_unreadable_code (s : S3Store) (q : Query)
    (properties : option (list string)) (before after : list dict)
    (failing : dict) (docs : list value) (code : string) (e : exn) :
  index_query (index s) q = (before ++ failing :: after)%list ->
  Forall2 (fun e d => query_entry s properties e = Yield d) before docs ->
  requires_fetch properties failing = true ->
  fetch s failing = Raise (ClientError code) ->
  py_int code = Raise e ->
  e = ValueError /\ S3Store_query s q properties = (docs, Some ValueError).
Proof.
  intros Hq Hbefore Hreq Hfetch Hcode.
  assert (He : e = ValueError).
  { unfold py_int in Hcode.
    destruct code as [|c code]; cbn in Hcode; [congruence|].
    repeat match type of Hcode with
           | context [match ?x with _ => _ end] => destruct x
           end; congruence. }
  split; [exact He|]. subst e.
  unfold S3Store_query. rewrite Hq.
  rewrite (query_loop_app s properties before docs _ Hbefore).
  cbn [query_loop].
  assert (Hstep : fetch_step s failing = Throw ValueError)
    by (unfold fetch_step; now rewrite Hfetch, Hcode).
  assert (Hentry : query_entry s properties failing = Throw ValueError).
  { unfold query_entry, requires_fetch in *.
    destruct properties as [ps|]; [|exact Hstep].
    apply negb_true_iff in Hreq. now rewrite Hreq. }
  rewrite Hentry. cbn [fst snd]. now rewrite app_nil_r.
Qed.

End QueryShape.

Lemma query_answered_from_index_witness :
  S3Store_query (with_index store_x (example_index 1 [doc_a; doc_b])) all_docs
                (Some ["data"])
    = ([VDict [("data", VList [VInt 1; VInt 2])]; VDict [("data", VInt 3)]], None) /\
  forall (e : dict) (p : string),
    dict_get (project e ["data"]) p
    = if existsb (String.eqb p) ["data"] then dict_get e p else None.
Proof.
  apply (@query_answered_from_index blob_libs
           (with_index store_x (example_index 1 [doc_a; doc_b])) all_docs ["data"]).
  repeat constructor.
Defined.

Lemma query_unreadable_code_witness :
  ValueError = ValueError /\
  S3Store_query denied_store all_docs None = ([VDict doc_a], Some ValueError).
Proof.
  apply (@query_unreadable_code blob_libs denied_store all_docs None
           [[("task_id", VStr "mp-1")]] [[("task_id", VStr "mp-3")]]
           [("task_id", VStr "mp-2")] [VDict doc_a] "AccessDenied" ValueError).
  - reflexivity.
  - constructor; [reflexivity | constructor].
  - reflexivity.
  - reflexivity.
  - reflexivity.
Defined.

(** ** [remove_docs] with the blobs: what is gone afterwards *)

Section RemoveEffect.
Context {L : Libs}.
Implicit Types (s : S3Store) (b : Bucket).

Lemma delete_chunks_index (chunks : list (list value)) : forall s,
  index (fst (delete_chunks s chunks)) = index s.
Proof.
  induction chunks as [|c chunks IH]; intros s; [reflexivity|].
  cbn [delete_chunks].
  destruct (objlist <- map_result (str_add (sub_dir s)) c;;
            b <- handle s;; delete_objects b objlist) as [b'|e];
    [now rewrite IH | reflexivity].
Qed.

Lemma delete_chunks_objects (chunks : list (list string)) : forall s b,
  s3_bucket s = Some b ->
  Forall (fun c => (0 < List.length c <= 1000)%nat) chunks ->
  exists s' b',
    delete_chunks s (map (map VStr) chunks) = (s', None) /\
    s3_bucket s' = Some b' /\
    objects b' =
      fold_left (fun objs k => delete k objs)
                (map (append (sub_dir s)) (concat chunks)) (objects b).
Proof.
  induction chunks as [|c chunks IH]; intros s b Hb Hall.
  - exists s, b. auto.
  - inversion Hall as [|? ? Hc Hrest]; subst.
    cbn [map delete_chunks]. rewrite map_result_str_add. cbn [bind].
    unfold handle. rewrite Hb. cbn [bind]. unfold delete_objects.
    rewrite length_map.
    replace (Nat.ltb bulk_delete_limit (List.length c)) with false
      by (symmetry; apply Nat.ltb_ge; unfold bulk_delete_limit; lia).
    set (b1 := served b _ _).
    destruct (IH (with_bucket s b1) b1 eq_refl Hrest) as (s' & b' & Hrun & Hb' & Hobj).
    exists s', b'. rewrite Hrun. repeat split; [exact Hb'|].
    rewrite Hobj. subst b1. cbn [objects served with_bucket sub_dir concat].
    now rewrite map_app, fold_left_app.
Qed.

Lemma lookup_fold_delete (ks : list string) : forall (m : gmap string S3Object) (k : string),
  fold_left (fun objs k => delete k objs) ks m !! k
  = if existsb (String.eqb k) ks then None else m !! k.
Proof.
  induction ks as [|k0 ks IH]; intros m k; cbn [fold_left existsb]; [reflexivity|].
  rewrite IH. destruct (String.eqb_spec k k0) as [->|Hne]; cbn [orb].
  - rewrite lookup_delete_eq. now destruct (existsb (String.eqb k0) ks).
  - now rewrite lookup_delete_ne by congruence.
Qed.

Lemma dedup_In (l : list value) (v : value) : In v (dedup l) <-> In v l.
Proof.
  induction l as [|w l IH]; [reflexivity|]. cbn [dedup In].
  rewrite filter_In, IH. split.
  - intros [H | [H _]]; auto.
  - intros [H | H]; [now left|].
    destruct (value_eqb v w) eqn:E.
    + left. symmetry. now apply value_eqb_eq.
    + right. split; [exact H | reflexivity].
Qed.

Lemma existsb_eqb_In (k : string) (ks : list string) :
  existsb (String.eqb k) ks = true <-> In k ks.
Proof.
  rewrite existsb_exists. split.
  - intros (x & Hx & Heq). apply String.eqb_eq in Heq. now subst.
  - intros H. exists k. split; [exact H | apply String.eqb_refl].
Qed.

(** [remove_docs] with [remove_s3_object=True], on a connected store
    whose index holds string key values, returns; afterwards the index
    holds the entries that did not match and no others, the blob of
    every entry that matched is gone from the bucket, and every other
    object of the bucket is as it was. *)
Theorem remove_docs_removes_blobs s b (crit : dict -> bool) :
  s3_bucket s = Some b -> string_keyed s ->
  exists s' b',
    S3Store_remove_docs s crit true = (s', None) /\
    s3_bucket s' = Some b' /\
    (forall e, In e (idx_docs (index s')) <->
               In e (idx_docs (index s)) /\ crit e = false) /\
    (forall e kv,
       In e (idx_docs (index s)) -> crit e = true ->
       dict_get e (key s) = Some (VStr kv) ->
       objects b' !! (sub_dir s +:+ kv) = None) /\
    (forall k,
       (forall e kv,
          In e (idx_docs (index s)) -> crit e = true ->
          dict_get e (key s) = Some (VStr kv) -> k <> sub_dir s +:+ kv) ->
       objects b' !! k = objects b !! k).
Proof.
  intros Hb Hsk.
  destruct (index_distinct_strings s crit Hsk) as [keys Hkeys].
  assert (Hin : forall kv, In kv keys <->
            exists e, In e (idx_docs (index s)) /\ crit e = true /\
                      dict_get e (key s) = Some (VStr kv)).
  { intros kv. transitivity (In (VStr kv) (map VStr keys)).
    - split; [apply in_map|]. intros H. apply in_map_iff in H as (x & [= ->] & Hx). exact Hx.
    - rewrite <- Hkeys. unfold index_distinct. rewrite dedup_In.
      rewrite <- list_elem_of_In, list_elem_of_omap. split.
      + intros (e & He & Hget). apply list_elem_of_In, filter_In in He as [He Hc]. eauto.
      + intros (e & He & Hc & Hget). exists e. split; [|exact Hget].
        apply list_elem_of_In, filter_In. auto. }
  unfold S3Store_remove_docs. cbn [negb]. rewrite Hkeys, grouper_map.
  set (s1 := with_index s (index_remove_docs (index s) crit)).
  destruct (delete_chunks_objects (grouper keys 1000) s1 b Hb
              (grouper_from_bound 1000 _ keys)) as (s' & b' & Hrun & Hb' & Hobj).
  exists s', b'. split; [exact Hrun|]. split; [exact Hb'|].
  assert (Hconcat : concat (grouper keys 1000) = keys)
    by (unfold grouper; apply concat_grouper_from; lia).
  rewrite Hconcat in Hobj. subst s1. cbn [with_index sub_dir] in Hobj.
  assert (Hidx : index s' = index_remove_docs (index s) crit).
  { pose proof (delete_chunks_index (map (map VStr) (grouper keys 1000))
                  (with_index s (index_remove_docs (index s) crit))) as H.
    now rewrite Hrun in H. }
  split; [|split].
  - intros e. rewrite Hidx. unfold index_remove_docs, with_docs. cbn [idx_docs].
    rewrite filter_In, negb_true_iff. reflexivity.
  - intros e kv He Hc Hget. rewrite Hobj, lookup_fold_delete.
    replace (existsb (String.eqb (sub_dir s +:+ kv)) (map (append (sub_dir s)) keys))
      with true; [reflexivity|].
    symmetry. apply existsb_eqb_In, in_map. apply Hin. eauto.
  - intros k Hk. rewrite Hobj, lookup_fold_delete.
    destruct (existsb (String.eqb k) (map (append (sub_dir s)) keys)) eqn:E; [|reflexivity].
    apply existsb_eqb_In, in_map_iff in E as (kv & <- & Hkv).
    apply Hin in Hkv as (e & He & Hc & Hget). exfalso. exact (Hk e kv He Hc Hget eq_refl).
Qed.

(** [remove_docs] with [remove_s3_object=True] removes the matching
    entries from the index before it deletes any blob, and nothing
    puts them back: however the call ends, the index holds the entries
    that did not match and no others.  On a store that is not
    connected the call raises [AttributeError] as soon as one matching
    entry has a key value, with the entries already gone. *)
Theorem remove_docs_index_first s (crit : dict -> bool) :
  index (fst (S3Store_remove_docs s crit true)) = index_remove_docs (index s) crit /\
  (s3_bucket s = None -> string_keyed s ->
   (exists e kv, In e (idx_docs (index s)) /\ crit e = true /\
                 dict_get e (key s) = Some (VStr kv)) ->
   snd (S3Store_remove_docs s crit true) = Some AttributeError).
Proof.
  unfold S3Store_remove_docs. cbn [negb]. split.
  - now rewrite delete_chunks_index.
  - intros Hb Hsk (e & kv & He & Hc & Hget).
    destruct (index_distinct_strings s crit Hsk) as [keys Hkeys].
    rewrite Hkeys, grouper_map.
    assert (Hne : keys <> []).
    { intros ->. cbn in Hkeys.
      assert (Hin : In (VStr kv) (index_distinct (index s) (key s) crit)).
      { unfold index_distinct. apply dedup_In, list_elem_of_In, list_elem_of_omap.
        exists e. split; [|exact Hget]. apply list_elem_of_In, filter_In. auto. }
      now rewrite Hkeys in Hin. }
    unfold grouper. destruct keys as [|k keys]; [congruence|].
    cbn [List.length grouper_from firstn map delete_chunks].
    change (VStr k :: map VStr (firstn 999 keys)) with (map VStr (k :: firstn 999 keys)).
    rewrite map_result_str_add. cbn [bind]. unfold handle.
    cbn [with_index s3_bucket]. rewrite Hb. reflexivity.
Qed.

End RemoveEffect.

Lemma remove_docs_removes_blobs_witness :
  exists s' b',
    S3Store_remove_docs three_store (same_key_value "task_id" (VStr "mp-2")) true
      = (s', None) /\
    s3_bucket s' = Some b' /\
    objects b' !! "mp-2" = None /\
    objects b' !! "mp-1" = objects three_blobs !! "mp-1".
Proof.
  destruct (@remove_docs_removes_blobs blob_libs three_store three_blobs
              (same_key_value "task_id" (VStr "mp-2")) eq_refl)
    as (s' & b' & Hrun & Hb' & _ & Hgone & Hkept).
  { intros e v [<- | [<- | [<- | []]]] [= <-]; reflexivity. }
  exists s', b'. split; [exact Hrun|]. split; [exact Hb'|]. split.
  - apply (Hgone [("task_id", VStr "mp-2")] "mp-2"); [right; left| |]; reflexivity.
  - apply Hkept.
    intros e kv [<- | [<- | [<- | []]]] Hc [= <-]; first [discriminate Hc | discriminate].
Defined.

Lemma remove_docs_index_first_witness :
  index (fst (S3Store_remove_docs (without_bucket three_store)
                (same_key_value "task_id" (VStr "mp-2")) true))
    = index_remove_docs (example_index 1 three_entries)
        (same_key_value "task_id" (VStr "mp-2")) /\
  snd (S3Store_remove_docs (without_bucket three_store)
         (same_key_value "task_id" (VStr "mp-2")) true) = Some AttributeError.
Proof.
  destruct (@remove_docs_index_first blob_libs (without_bucket three_store)
              (same_key_value "task_id" (VStr "mp-2"))) as [Hidx Hraise].
  split; [exact Hidx|].
  apply Hraise.
  - reflexivity.
  - intros e v [<- | [<- | [<- | []]]] [= <-]; reflexivity.
  - exists [("task_id", VStr "mp-2")], "mp-2". split; [right; left|split]; reflexivity.
Defined.

(** ** [rebuild_metadata_from_index]: the metadata it writes *)

Lemma lower_char_idem (c : ascii) : lower_char (lower_char c) = lower_char c.
Proof. destruct c as [[] [] [] [] [] [] [] []]; reflexivity. Qed.

Lemma lower_idem (s : string) : lower (lower s) = lower s.
Proof.
  induction s as [|c s IH]; [reflexivity|]. cbn [lower].
  now rewrite lower_char_idem, IH.
Qed.

Lemma lower_keys_cons (k : string) (v : value) (items acc : dict) :
  lower_keys ((k, v) :: items) acc = lower_keys items (dict_set acc (lower k) v).
Proof. reflexivity. Qed.

Lemma lower_keys_wf (items : dict) : forall acc : dict,
  wf_dict acc -> wf_dict (lower_keys items acc).
Proof.
  induction items as [|[k v] items IH]; intros acc Hwf; [exact Hwf|].
  rewrite lower_keys_cons. now apply IH, dict_set_wf.
Qed.

Lemma lower_keys_lowercase (items : dict) : forall acc : dict,
  (forall k, In k (map fst acc) -> lower k = k) ->
  forall k, In k (map fst (lower_keys items acc)) -> lower k = k.
Proof.
  induction items as [|[k0 v] items IH]; intros acc Hacc; [exact Hacc|].
  rewrite lower_keys_cons. apply IH. intros k Hin.
  apply dict_set_keys in Hin as [-> | Hin]; [apply lower_idem | now apply Hacc].
Qed.

Lemma lower_keys_get_other (k : string) (items : dict) : forall acc : dict,
  (forall k0, In k0 (map fst items) -> lower k0 <> k) ->
  dict_get (lower_keys items acc) k = dict_get acc k.
Proof.
  induction items as [|[k0 v] items IH]; intros acc Hno; [reflexivity|].
  rewrite lower_keys_cons, IH by (intros k1 H1; apply Hno; now right).
  apply dict_get_set_ne. apply Hno. now left.
Qed.

Lemma lower_keys_get_hit (k : string) (v : value) (items : dict) : forall acc : dict,
  wf_dict items -> dict_get items k = Some v ->
  (forall k2, In k2 (map fst items) -> lower k2 = lower k -> k2 = k) ->
  dict_get (lower_keys items acc) (lower k) = Some v.
Proof.
  induction items as [|[k0 v0] items IH]; intros acc Hwf Hget Huniq; [discriminate|].
  unfold wf_dict in Hwf. cbn [map fst] in Hwf.
  inversion Hwf as [|? ? Hnot Hwf']; subst.
  rewrite lower_keys_cons. cbn [dict_get] in Hget.
  destruct (String.eqb_spec k k0) as [<-|Hne].
  - injection Hget as ->.
    rewrite lower_keys_get_other; [apply dict_get_set_eq|].
    intros k2 H2 Heq. apply Hnot.
    now rewrite <- (Huniq k2 (or_intror H2) Heq).
  - apply IH; [exact Hwf' | exact Hget |].
    intros k2 H2. apply Huniq. now right.
Qed.

Section RebuildMerge.
Context {L : Libs}.

(** The first entry the index returns has its blob in the bucket, and
    the entry brings the identity field, so that [pop] finds it, and
    what remains can be object metadata.  Then the blob keeps its body
    and gets new metadata, no other object changes, and the loop goes
    on with the next entry.  The new metadata has no ["_id"], all its
    keys are lower case, each field of the entry is there under its
    name in lower case, and a field of the old metadata is kept, under
    its name in lower case, where the entry has none that reads
    the same. *)
Theorem rebuild_metadata_merges (s : S3Store) (b : Bucket)
    (index_query_ : option (dict -> bool)) (index_doc : dict) (rest : list dict)
    (kv : string) (o : S3Object) :
  index_query (index s)
    (mk_query (match index_query_ with Some c => c | None => fun _ => true end)
              (fun l => l) 0 0) = index_doc :: rest ->
  s3_bucket s = Some b ->
  dict_get index_doc (key s) = Some (VStr kv) ->
  faults b !! (sub_dir s +:+ kv) = None ->
  objects b !! (sub_dir s +:+ kv) = Some o ->
  dict_has (merged_metadata (metadata o) index_doc) "_id" = true ->
  valid_metadata (dict_del (merged_metadata (metadata o) index_doc) "_id") = true ->
  wf_dict index_doc -> wf_dict (metadata o) ->
  exists (b' : Bucket) (new_meta : dict),
    S3Store_rebuild_metadata_from_index s index_query_
      = rebuild_loop (with_bucket s b') rest /\
    objects b' !! (sub_dir s +:+ kv) = Some (mk_object (body o) new_meta) /\
    (forall k, k <> sub_dir s +:+ kv -> objects b' !! k = objects b !! k) /\
    dict_get new_meta "_id" = None /\
    (forall k v, dict_get new_meta k = Some v -> lower k = k) /\
    (forall k v,
       dict_get index_doc k = Some v -> lower k <> "_id" ->
       (forall k2, In k2 (map fst index_doc) -> lower k2 = lower k -> k2 = k) ->
       dict_get new_meta (lower k) = Some v) /\
    (forall k v,
       dict_get (metadata o) k = Some v -> lower k <> "_id" ->
       (forall k2, In k2 (map fst (metadata o)) -> lower k2 = lower k -> k2 = k) ->
       (forall k2, In k2 (map fst index_doc) -> lower k2 <> lower k) ->
       dict_get new_meta (lower k) = Some v).
Proof.
  intros Hq Hb Hk Hf Ho Hid Hvalid Hwf Hwfo.
  set (merged := merged_metadata (metadata o) index_doc) in *.
  exists (served (served b (LoadMetadata (sub_dir s +:+ kv)) (objects b))
            (CopyFrom (sub_dir s +:+ kv) (dict_del merged "_id"))
            (<[sub_dir s +:+ kv := mk_object (body o) (dict_del merged "_id")]> (objects b))),
         (dict_del merged "_id").
  assert (Hwfm : wf_dict merged).
  { apply lower_keys_wf, lower_keys_wf. constructor. }
  split; [|split; [|split; [|split; [|split; [|split]]]]].
  - unfold S3Store_rebuild_metadata_from_index. rewrite Hq. cbn [rebuild_loop].
    unfold rebuild_entry, getitem, handle, load_metadata.
    rewrite Hk, Hb. cbn [bind str_add]. rewrite Hf, Ho. cbn [bind fst snd].
    fold merged. unfold dict_pop. rewrite Hid. cbn [bind]. unfold copy_from.
    rewrite Hvalid. cbn [negb served faults objects]. rewrite Hf, Ho. reflexivity.
  - cbn [served objects]. apply lookup_insert_eq.
  - intros k Hne. cbn [served objects]. now rewrite lookup_insert_ne by congruence.
  - now apply dict_get_del_eq.
  - intros k v Hget. apply dict_get_in in Hget. apply dict_del_keys in Hget.
    revert k Hget. apply lower_keys_lowercase, lower_keys_lowercase. intros k [].
  - intros k v Hget Hne Huniq. rewrite dict_get_del_ne by congruence.
    now apply lower_keys_get_hit.
  - intros k v Hget Hne Huniq Hnone. rewrite dict_get_del_ne by congruence.
    unfold merged, merged_metadata. rewrite lower_keys_get_other by exact Hnone.
    now apply lower_keys_get_hit.
Qed.

End RebuildMerge.

Lemma rebuild_metadata_merges_witness :
  exists (b' : @Bucket blob_libs) (new_meta : dict),
    S3Store_rebuild_metadata_from_index (with_identity written_store) None
      = rebuild_loop (with_bucket (with_identity written_store) b') [] /\
    objects b' !! "mp-1" = Some (@mk_object blob_libs (Packed (VDict doc_a)) new_meta) /\
    dict_get new_meta "_id" = None /\
    dict_get new_meta "task_id" = Some (VStr "mp-1").
Proof.
  destruct (s3_bucket (with_identity written_store)) as [b|] eqn:Hb; [|discriminate].
  destruct (@rebuild_metadata_merges blob_libs (with_identity written_store) b None
              [("task_id", VStr "mp-1"); ("_id", VStr "5f0c")] [] "mp-1"
              (@mk_object blob_libs (Packed (VDict doc_a)) [("task_id", VStr "mp-1")]))
    as (b' & new_meta & Hrun & Hobj & _ & Hid & _ & Hentry & _).
  - reflexivity.
  - exact Hb.
  - reflexivity.
  - injection Hb as <-. reflexivity.
  - injection Hb as <-. reflexivity.
  - reflexivity.
  - reflexivity.
  - unfold wf_dict. simpl. repeat constructor; simpl; intuition discriminate.
  - unfold wf_dict. simpl. repeat constructor; simpl; intuition discriminate.
  - exists b', new_meta. split; [exact Hrun|]. split; [exact Hobj|]. split; [exact Hid|].
    apply (Hentry "task_id" (VStr "mp-1")); [reflexivity | discriminate |].
    intros k2 [<- | [<- | []]]; [reflexivity | discriminate].
Defined.

(** ** The Index Entry [write_doc_to_s3] builds *)

Section EntryShape.
Context {L : Libs}.
Implicit Types (s : S3Store) (doc sd : dict) (ks : list string).

Lemma pick_wf doc ks : forall acc r : dict,
  pick doc ks acc = Ok r -> wf_dict acc -> wf_dict r.
Proof.
  induction ks as [|k ks IH]; intros acc r Hpick Hwf; cbn in Hpick.
  - now injection Hpick as <-.
  - destruct (getitem doc k) as [v|]; cbn [bind] in Hpick; [|discriminate].
    apply (IH _ _ Hpick). now apply dict_set_wf.
Qed.

Lemma pick_in doc ks : forall (acc r : dict) (k : string),
  pick doc ks acc = Ok r -> In k ks -> dict_get r k = dict_get doc k.
Proof.
  induction ks as [|k0 ks IH]; intros acc r k Hpick Hin; [destruct Hin|].
  cbn in Hpick. unfold getitem in Hpick.
  destruct (dict_get doc k0) as [v|] eqn:Hv; cbn [bind] in Hpick; [|discriminate].
  destruct (in_dec string_dec k ks) as [Hks | Hks]; [exact (IH _ _ k Hpick Hks)|].
  destruct Hin as [<- | Hin]; [|contradiction].
  rewrite (pick_get doc ks _ r k0 Hpick Hks), Hv. apply dict_get_set_eq.
Qed.

(** The Index Entry of a document that was written: it never has an
    ["_id"]; all its values are strings; it carries the [sub_dir] of
    the store when there is one, and the mark ["zlib"] when the store
    compresses; and a search key that is none of the names the store
    sets itself holds the value the document has under it, which is
    therefore a string. *)
Theorem index_entry_shape s doc ks sd :
  write_result s doc ks = Ok sd ->
  dict_get sd "_id" = None /\
  valid_metadata sd = true /\
  (sub_dir s <> "" -> last_updated_field s <> "sub_dir" ->
   dict_get sd "sub_dir" = Some (VStr (sub_dir s))) /\
  (compress s = true -> last_updated_field s <> "compression" ->
   dict_get sd "compression" = Some (VStr "zlib")) /\
  (forall k,
     In k ks -> k <> key s -> k <> "sub_dir" -> k <> "_id" -> k <> "compression" ->
     k <> last_updated_field s ->
     dict_get sd k = dict_get doc k /\ exists str, dict_get doc k = Some (VStr str)).
Proof.
  intros Hres.
  destruct (write_result_put s s doc ks sd (same_env_refl s) Hres)
    as (_ & _ & data & Hsd & _ & _ & Hvalid & _).
  clear Hres. revert Hsd. unfold search_doc_of.
  destruct (pick doc ks []) as [r|] eqn:Hpick; cbn [bind]; [|discriminate].
  unfold getitem.
  destruct (dict_get doc (key s)) as [v|] eqn:Hv; cbn [bind]; [|discriminate].
  destruct (packb (VDict doc)) as [packed|]; cbn [bind]; [|discriminate].
  set (sd1 := dict_set r (key s) v).
  set (sd2 := if String.eqb (sub_dir s) "" then sd1
              else dict_set sd1 "sub_dir" (VStr (sub_dir s))).
  set (sd3 := if dict_has sd2 "_id" then dict_del sd2 "_id" else sd2).
  set (sd4 := if compress s then dict_set sd3 "compression" (VStr "zlib") else sd3).
  assert (Hwf2 : wf_dict sd2).
  { subst sd2 sd1. destruct (String.eqb (sub_dir s) ""); repeat apply dict_set_wf;
      apply (pick_wf doc ks [] r Hpick); constructor. }
  assert (Hid3 : dict_get sd3 "_id" = None).
  { subst sd3. unfold dict_has. destruct (dict_get sd2 "_id") eqn:E; [|exact E].
    now apply dict_get_del_eq. }
  assert (Hid4 : dict_get sd4 "_id" = None).
  { subst sd4. destruct (compress s); [|exact Hid3].
    now rewrite dict_get_set_ne by discriminate. }
  assert (Hsub4 : sub_dir s <> "" -> dict_get sd4 "sub_dir" = Some (VStr (sub_dir s))).
  { intros Hne. subst sd4.
    assert (H3 : dict_get sd3 "sub_dir" = Some (VStr (sub_dir s))).
    { subst sd3. rewrite dict_get_del_if by discriminate. subst sd2.
      destruct (String.eqb_spec (sub_dir s) ""); [contradiction|]. apply dict_get_set_eq. }
    destruct (compress s); [|exact H3]. now rewrite dict_get_set_ne by discriminate. }
  assert (Hc4 : compress s = true -> dict_get sd4 "compression" = Some (VStr "zlib")).
  { intros Hc. subst sd4. rewrite Hc. apply dict_get_set_eq. }
  assert (Hk4 : forall k, In k ks -> k <> key s -> k <> "sub_dir" -> k <> "_id" ->
                          k <> "compression" -> dict_get sd4 k = dict_get doc k).
  { intros k Hin H1 H2 H3 H4.
    assert (H : dict_get sd3 k = dict_get doc k).
    { subst sd3. rewrite dict_get_del_if by congruence. subst sd2.
      destruct (String.eqb (sub_dir s) ""); [|rewrite dict_get_set_ne by congruence];
        subst sd1; rewrite dict_get_set_ne by congruence;
        exact (pick_in doc ks [] r k Hpick Hin). }
    subst sd4. destruct (compress s); [|exact H].
    now rewrite dict_get_set_ne by congruence. }
  assert (Hsd4 : (if compress s
                  then (dict_set sd3 "compression" (VStr "zlib"), zlib_compress packed)
                  else (sd3, packed))
                 = (sd4, if compress s then zlib_compress packed else packed))
    by (subst sd4; now destruct (compress s)).
  rewrite Hsd4. clearbody sd4. clear sd1 sd2 sd3 Hwf2 Hid3 Hsd4.
  intros Hsd.
  assert (Hshape : forall k, k <> last_updated_field s -> dict_get sd k = dict_get sd4 k).
  { intros k Hne. destruct (dict_get sd4 (last_updated_field s)); cbn [bind] in Hsd.
    - destruct (to_isoformat_ceil_ms v0); cbn [bind] in Hsd; [|discriminate].
      injection Hsd as <- _. now rewrite dict_get_set_ne by congruence.
    - now injection Hsd as <- _. }
  assert (Hid : dict_get sd "_id" = None).
  { destruct (String.eqb_spec "_id" (last_updated_field s)) as [Heq | Hne].
    - rewrite <- Heq, Hid4 in Hsd. cbn [bind] in Hsd. now injection Hsd as <- _.
    - now rewrite Hshape. }
  split; [exact Hid|]. split; [exact Hvalid|].
  split; [intros Hne Hlu; rewrite Hshape by congruence; now apply Hsub4|].
  split; [intros Hc Hlu; rewrite Hshape by congruence; now apply Hc4|].
  intros k Hin H1 H2 H3 H4 H5.
  assert (Hkd : dict_get sd k = dict_get doc k)
    by (rewrite Hshape by congruence; now apply Hk4).
  split; [exact Hkd|].
  assert (Hin' : exists w, dict_get doc k = Some w).
  { rewrite <- (pick_in doc ks [] r k Hpick Hin).
    clear - Hpick Hin. revert Hpick. generalize (@nil (string * value)).
    induction ks as [|k0 ks IH]; intros acc Hpick; [destruct Hin|].
    cbn in Hpick. unfold getitem in Hpick.
    destruct (dict_get doc k0) as [v|] eqn:Hv; cbn [bind] in Hpick; [|discriminate].
    destruct (in_dec string_dec k ks) as [Hks | Hks]; [exact (IH Hks _ Hpick)|].
    destruct Hin as [<- | Hin]; [|contradiction].
    rewrite (pick_get doc ks _ r k0 Hpick Hks). rewrite dict_get_set_eq. eauto. }
  destruct Hin' as [w Hw]. rewrite Hw in Hkd |- *.
  destruct (valid_metadata_get sd k w Hvalid Hkd) as [str ->]. eauto.
Qed.

End EntryShape.

Lemma index_entry_shape_witness :
  let sd := [("task_id", VStr "mp-9"); ("formula", VStr "NaCl"); ("sub_dir", VStr "sub/");
             ("compression", VStr "zlib")] in
  dict_get sd "_id" = None /\
  valid_metadata sd = true /\
  dict_get sd "sub_dir" = Some (VStr "sub/") /\
  dict_get sd "compression" = Some (VStr "zlib") /\
  dict_get sd "formula" = Some (VStr "NaCl").
Proof.
  cbv zeta.
  destruct (@index_entry_shape blob_libs (example_store true "sub/")
              [("task_id", VStr "mp-9"); ("_id", VInt 7); ("formula", VStr "NaCl")]
              ["task_id"; "formula"; "_id"]
              [("task_id", VStr "mp-9"); ("formula", VStr "NaCl"); ("sub_dir", VStr "sub/");
               ("compression", VStr "zlib")] eq_refl)
    as (Hid & Hvalid & Hsub & Hzip & Hkeys).
  split; [exact Hid|]. split; [exact Hvalid|].
  split; [apply Hsub; discriminate|]. split; [apply Hzip; [reflexivity | discriminate]|].
  destruct (Hkeys "formula") as [Hk _]; try discriminate; [right; now left | exact Hk].
Defined.

(** ** [connect] and [close] *)

Section LifecycleFacts.
Context {L : Libs}.

(** [connect] on a store that holds no resource, when the bucket is
    there: the store gets the handle of the bucket and the index is
    connected.  A second [connect] changes nothing, whatever the
    service holds by then: the bucket is not looked for again.  After
    [close] the store holds neither resource nor handle, and [connect]
    looks for the bucket again. *)
Theorem connect_opens_once (c : Client) (service : gmap string Bucket) (b : Bucket) :
  s3 c = None -> service !! bucket (store c) = Some b ->
  snd (S3Store_connect c service) = None /\
  s3_bucket (store (fst (S3Store_connect c service))) = Some b /\
  index_connected (fst (S3Store_connect c service)) = true /\
  (forall service' : gmap string Bucket,
     S3Store_connect (fst (S3Store_connect c service)) service'
     = (fst (S3Store_connect c service), None)) /\
  s3 (S3Store_close (fst (S3Store_connect c service))) = None /\
  s3_bucket (store (S3Store_close (fst (S3Store_connect c service)))) = None /\
  (forall (service' : gmap string Bucket) (b' : Bucket),
     service' !! bucket (store c) = Some b' ->
     s3_bucket (store (fst (S3Store_connect
                              (S3Store_close (fst (S3Store_connect c service))) service')))
     = Some b').
Proof.
  intros Hs Hb.
  assert (Hc : S3Store_connect c service
               = (mk_client (with_bucket (store c) b) (Some service) true, None))
    by (unfold S3Store_connect; now rewrite Hs, Hb).
  rewrite Hc. cbn [fst snd store index_connected with_bucket s3_bucket].
  split; [reflexivity|]. split; [reflexivity|]. split; [reflexivity|].
  split; [reflexivity|]. split; [reflexivity|]. split; [reflexivity|].
  intros service' b' Hb'. unfold S3Store_connect, S3Store_close.
  cbn [s3 store without_bucket with_bucket bucket]. rewrite Hb'. reflexivity.
Qed.

(** [connect] when the bucket is not there raises, and leaves the
    store without a handle but with the resource it made.  So a second
    [connect] does not look for the bucket: it returns without
    raising, even when the bucket is there by then, and the store
    still has no handle; only [close] before it makes [connect] look
    again. *)
Theorem failed_connect_is_not_retried (c : Client) (service : gmap string Bucket) :
  s3 c = None -> service !! bucket (store c) = None ->
  snd (S3Store_connect c service)
    = Some (BucketNotPresent ("Bucket not present on AWS: " +:+ bucket (store c))) /\
  store (fst (S3Store_connect c service)) = store c /\
  (forall service' : gmap string Bucket,
     snd (S3Store_connect (fst (S3Store_connect c service)) service') = None /\
     store (fst (S3Store_connect (fst (S3Store_connect c service)) service')) = store c) /\
  (forall (service' : gmap string Bucket) (b' : Bucket),
     service' !! bucket (store c) = Some b' ->
     s3_bucket (store (fst (S3Store_connect
                              (S3Store_close (fst (S3Store_connect c service))) service')))
     = Some b').
Proof.
  intros Hs Hb.
  assert (Hc : S3Store_connect c service
               = (mk_client (store c) (Some service) (index_connected c),
                  Some (BucketNotPresent
                          ("Bucket not present on AWS: " +:+ bucket (store c)))))
    by (unfold S3Store_connect; now rewrite Hs, Hb).
  rewrite Hc. cbn [fst snd store].
  split; [reflexivity|]. split; [reflexivity|].
  split; [intros service'; split; reflexivity|].
  intros service' b' Hb'. unfold S3Store_connect, S3Store_close.
  cbn [s3 store without_bucket bucket]. rewrite Hb'. reflexivity.
Qed.

End LifecycleFacts.

Lemma connect_opens_once_witness :
  let c := @mk_client blob_libs store_x None false in
  let service : gmap string (@Bucket blob_libs) := {[ "bucket" := empty_bucket ]} in
  snd (S3Store_connect c service) = None /\
  s3_bucket (store (fst (S3Store_connect c service))) = Some empty_bucket.
Proof.
  cbv zeta.
  destruct (@connect_opens_once blob_libs (@mk_client blob_libs store_x None false)
              {[ "bucket" := empty_bucket ]} empty_bucket)
    as (H1 & H2 & _); [reflexivity | reflexivity |].
  split; [exact H1 | exact H2].
Defined.

Lemma failed_connect_is_not_retried_witness :
  let c := @mk_client blob_libs store_x None false in
  let c1 := fst (S3Store_connect c ∅) in
  snd (S3Store_connect c ∅) = Some (BucketNotPresent "Bucket not present on AWS: bucket") /\
  snd (S3Store_connect c1 {[ "bucket" := empty_bucket ]}) = None /\
  s3_bucket (store (fst (S3Store_connect c1 {[ "bucket" := empty_bucket ]}))) = None.
Proof.
  cbv zeta.
  destruct (@failed_connect_is_not_retried blob_libs
              (@mk_client blob_libs store_x None false) ∅)
    as (H1 & _ & H3 & _); [reflexivity | reflexivity |].
  split; [exact H1|].
  destruct (H3 {[ "bucket" := empty_bucket ]}) as [Ha Hb].
  split; [exact Ha|]. now rewrite Hb.
Defined.

(** ** [update] on a store that is not connected *)

Section Unconnected.
Context {L : Libs}.
Implicit Types (s : S3Store) (doc sd : dict) (ks : list string).

Lemma write_unconnected s doc ks :
  s3_bucket s = None ->
  exists e, write_doc_to_s3 s doc ks = (s, Raise e) /\
            (is_ok (search_doc_of s doc ks) = true -> e = AttributeError).
Proof.
  intros Hb. unfold write_doc_to_s3, handle. rewrite Hb.
  destruct (search_doc_of s doc ks) as [p|e]; cbn [bind is_ok].
  - exists AttributeError. auto.
  - exists e. split; [reflexivity | discriminate].
Qed.

Lemma run_pool_unconnected s ks (tasks : list dict) :
  s3_bucket s = None ->
  fst (run_pool s tasks ks) = s /\
  Forall (fun r => exists doc e,
              In doc tasks /\ r = Raise e /\
              (is_ok (search_doc_of s doc ks) = true -> e = AttributeError))
         (snd (run_pool s tasks ks)).
Proof.
  intros Hb. induction tasks as [|doc rest [IHs IHr]]; [split; [reflexivity | constructor]|].
  cbn [run_pool]. destruct (write_unconnected s doc ks Hb) as (e & -> & He).
  destruct (run_pool s rest ks) as [s2 rs]. cbn [fst snd] in *. split; [exact IHs|].
  constructor.
  - exists doc, e. split; [now left | auto].
  - eapply List.Forall_impl; [|exact IHr].
    intros r (d & e' & Hd & Hr & He'). exists d, e'. split; [now right | auto].
Qed.

(** [update] with a batch that is not empty, on a store that is not
    connected (before [connect], after [close], or after a [connect]
    that failed): the call raises in every run and leaves the store as
    it was, the index included.  What it raises is the refusal of the
    executor where it refuses, [ValueError] for a store with no worker
    and [TypeError] where [submit] does not take its callable by
    keyword; and where the pool runs, [AttributeError] when the Index
    Entry of every document can be built. *)
Theorem update_needs_connection s (docs : list dict) (k : key_arg)
    (out : S3Store * option exn) :
  s3_bucket s = None -> docs <> [] ->
  S3Store_update s docs k out ->
  fst out = s /\
  exists e, snd out = Some e /\
    (s3_workers s = 0%nat -> e = ValueError) /\
    (s3_workers s <> 0%nat -> submit_takes_fn_keyword = false -> e = TypeError) /\
    (s3_workers s <> 0%nat -> submit_takes_fn_keyword = true ->
     Forall (fun doc => is_ok (search_doc_of s doc (search_keys_of s k)) = true) docs ->
     e = AttributeError).
Proof.
  intros Hb Hne Hrun.
  destruct Hrun as [Hw | Hw Hsub _ | exec s1 rs fs Hw Hsub Hexec Hpool Hfs].
  { split; [reflexivity|]. exists ValueError. split; [reflexivity|].
    split; [reflexivity|]. split; intros; contradiction. }
  { split; [reflexivity|]. exists TypeError. split; [reflexivity|].
    split; [intros; contradiction|]. split; [reflexivity | intros; congruence]. }
  destruct Hsub as [Hsub | Hempty]; [|contradiction].
  destruct (run_pool_unconnected s (search_keys_of s k) exec Hb) as [Hs Hrs].
  rewrite Hpool in Hs, Hrs. cbn [fst snd] in Hs, Hrs. subst s1.
  destruct fs as [|r fs].
  - apply Permutation_sym, Permutation_nil in Hfs. subst rs.
    pose proof (run_pool_results exec s (search_keys_of s k)) as Hres.
    rewrite Hpool in Hres. cbn [snd] in Hres.
    destruct exec as [|d exec]; [|discriminate].
    apply Permutation_sym, Permutation_nil in Hexec. contradiction.
  - assert (Hin : In r rs)
      by (apply (Permutation_in _ (Permutation_sym Hfs)); now left).
    destruct (proj1 (List.Forall_forall _ _) Hrs r Hin) as (d & e & Hd & -> & He).
    unfold commit. cbn [collect bind fst snd]. split; [reflexivity|].
    exists e. split; [reflexivity|]. split; [intros; contradiction|].
    split; [intros; congruence|]. intros _ _ Hall. apply He.
    apply (proj1 (List.Forall_forall _ _) Hall).
    now apply (Permutation_in _ (Permutation_sym Hexec)).
Qed.

End Unconnected.

Lemma update_needs_connection_witness :
  fst (S3Store_update_seq store_x [doc_a; doc_b] KeyNone) = store_x /\
  snd (S3Store_update_seq store_x [doc_a; doc_b] KeyNone) = Some AttributeError.
Proof.
  destruct (@update_needs_connection blob_libs store_x [doc_a; doc_b] KeyNone
              (S3Store_update_seq store_x [doc_a; doc_b] KeyNone) eq_refl)
    as (Hs & e & He & _ & _ & Hattr).
  - discriminate.
  - exact (update_seq_run store_x [doc_a; doc_b] KeyNone).
  - split; [exact Hs|]. rewrite He. f_equal. apply Hattr.
    + discriminate.
    + reflexivity.
    + repeat constructor.
Defined.

(** ** [__eq__] *)

Lemma value_eqb_sym (a b : value) : value_eqb a b = value_eqb b a.
Proof.
  destruct (value_eqb a b) eqn:Hab.
  - apply value_eqb_eq in Hab as ->. symmetry. apply value_eqb_refl.
  - destruct (value_eqb b a) eqn:Hba; [|reflexivity].
    apply value_eqb_eq in Hba as ->. now rewrite value_eqb_refl in Hab.
Qed.

Section Equality.
Context {L : Libs}.

Lemma S3Store_eq_spec (a b : S3Store) :
  S3Store_eq a b = true <->
  idx_key (index a) = idx_key (index b) /\
  idx_collection (index a) = idx_collection (index b) /\
  idx_last_updated_field (index a) = idx_last_updated_field (index b) /\
  bucket a = bucket b /\ last_updated_field a = last_updated_field b.
Proof.
  unfold S3Store_eq, index_eqb. rewrite !andb_true_iff, !String.eqb_eq. split.
  - intros [[[[Hk Hc] Hl] Hb] Hu]. apply value_eqb_eq in Hk. auto.
  - intros (Hk & Hc & Hl & Hb & Hu). rewrite Hk, value_eqb_refl. auto.
Qed.

(** [__eq__] between stores is reflexive, symmetric and transitive,
    and looks at the index, the bucket name and the last-updated field
    only: stores that differ in [sub_dir], compression, profile,
    endpoint, workers, key field or connection compare equal. *)
Theorem eq_ignores_layout (a b c : S3Store) :
  S3Store_eq a a = true /\
  S3Store_eq a b = S3Store_eq b a /\
  (S3Store_eq a b = true -> S3Store_eq b c = true -> S3Store_eq a c = true) /\
  forall (profile endpoint : option string) (comp : bool) (sub k : string)
         (conn : option Bucket) (workers : nat),
    S3Store_eq a (mk_store (index a) (bucket a) profile comp endpoint sub conn workers k
                           (last_updated_field a)) = true.
Proof.
  split; [|split; [|split]].
  - apply S3Store_eq_spec. auto.
  - unfold S3Store_eq, index_eqb.
    now rewrite (value_eqb_sym (idx_key (index a))),
      (String.eqb_sym (idx_collection (index a))),
      (String.eqb_sym (idx_last_updated_field (index a))),
      (String.eqb_sym (bucket a)), (String.eqb_sym (last_updated_field a)).
  - rewrite !S3Store_eq_spec. intuition congruence.
  - intros. apply S3Store_eq_spec. cbn. auto.
Qed.

End Equality.

(** ** [__init__] *)

Lemma lstrip_slashes (n : nat) (z : string) :
  lstrip_slash (slashes n +:+ z) = lstrip_slash z.
Proof. induction n as [|n IH]; [reflexivity | exact IH]. Qed.

Lemma lstrip_no_slash (z : string) :
  String.get 0 z <> Some "/"%char -> lstrip_slash z = z.
Proof.
  destruct z as [|c z]; [reflexivity|]. cbn [String.get]. intros Hc.
  destruct c as [[] [] [] [] [] [] [] []]; try reflexivity. congruence.
Qed.

Lemma rstrip_slashes (m : nat) : rstrip_slash (slashes m) = "".
Proof. induction m as [|m IH]; [reflexivity|]. cbn [slashes rstrip_slash]. now rewrite IH. Qed.

Lemma rstrip_bare (m : nat) (y : string) :
  y <> "" -> last_char y <> Some "/"%char -> rstrip_slash (y +:+ slashes m) = y.
Proof.
  induction y as [|c y IH]; [congruence|]. intros _ Hlast.
  cbn [append rstrip_slash]. destruct y as [|c' y].
  - cbn [append]. rewrite rstrip_slashes. cbn [last_char] in Hlast.
    destruct (Ascii.eqb_spec c "/"%char); [congruence | reflexivity].
  - rewrite IH; [reflexivity | discriminate | exact Hlast].
Qed.

Lemma strip_slash_bare (n m : nat) (y : string) :
  bare y -> strip_slash (slashes n +:+ y +:+ slashes m) = y.
Proof.
  intros (Hne & Hfirst & Hlast). unfold strip_slash. rewrite lstrip_slashes.
  rewrite lstrip_no_slash.
  - now apply rstrip_bare.
  - destruct y as [|c y]; [congruence | exact Hfirst].
Qed.

(** [__init__] gives a store that is not connected, whose key field is
    that of the index whatever [key] the caller passes, and whose
    [sub_dir] is the path given without the slashes around it,
    followed by one slash: ["a/b"], ["/a/b"] and ["a/b//"] all make
    ["a/b/"].  No [sub_dir], or an empty one, makes the empty
    prefix. *)
Theorem init_normalises_sub_dir {L : Libs} (index : IndexStore) (bucket : string)
    (s3_profile endpoint_url : option string) (compress : bool) (s3_workers : nat)
    (kwargs : dict) (n m : nat) (y : string) :
  bare y ->
  (exists s,
     S3Store_init true index bucket s3_profile compress endpoint_url
                  (Some (slashes n +:+ y +:+ slashes m)) s3_workers kwargs = Ok s /\
     sub_dir s = y +:+ "/" /\ s3_bucket s = None /\ key s = py_str (idx_key index)) /\
  (forall sub, sub = None \/ sub = Some "" ->
     exists s,
       S3Store_init true index bucket s3_profile compress endpoint_url sub s3_workers kwargs
         = Ok s /\
       sub_dir s = "" /\ s3_bucket s = None /\ key s = py_str (idx_key index)).
Proof.
  intros Hbare.
  assert (Hkey : fst (Store_init (dict_set kwargs "key" (VStr (py_str (idx_key index)))))
                 = py_str (idx_key index))
    by (unfold Store_init; cbn [fst]; now rewrite dict_get_set_eq).
  split.
  - unfold S3Store_init. cbn [negb].
    destruct (Store_init (dict_set kwargs "key" (VStr (py_str (idx_key index)))))
      as [k lu] eqn:Hinit. cbn [fst] in Hkey. subst k.
    destruct (slashes n +:+ y +:+ slashes m) as [|c r] eqn:Hx.
    + exfalso. apply (f_equal strip_slash) in Hx.
      rewrite (strip_slash_bare n m y Hbare) in Hx. destruct Hbare as [Hne _].
      now apply Hne.
    + rewrite <- Hx, (strip_slash_bare n m y Hbare). eexists. split; [reflexivity|].
      cbn. auto.
  - intros sub Hsub. unfold S3Store_init. cbn [negb].
    destruct (Store_init (dict_set kwargs "key" (VStr (py_str (idx_key index)))))
      as [k lu] eqn:Hinit. cbn [fst] in Hkey. subst k.
    destruct Hsub as [-> | ->]; eexists; (split; [reflexivity|]); cbn; auto.
Qed.

Lemma init_normalises_sub_dir_witness :
  (exists s,
     @S3Store_init blob_libs true (example_index 1 []) "bucket" None false None
                  (Some "//a/b/") 4 [("key", VStr "other")] = Ok s /\
     sub_dir s = "a/b/" /\ s3_bucket s = None /\ key s = "task_id") /\
  (forall sub, sub = None \/ sub = Some "" ->
     exists s,
       @S3Store_init blob_libs true (example_index 1 []) "bucket" None false None sub 4
                     [("key", VStr "other")] = Ok s /\
       sub_dir s = "" /\ s3_bucket s = None /\ key s = "task_id").
Proof.
  apply (@init_normalises_sub_dir blob_libs (example_index 1 []) "bucket" None None false 4
           [("key", VStr "other")] 2 1 "a/b").
  unfold bare. cbn. repeat split; discriminate.
Defined.

(** ** [Timeout] *)



(** One [Timeout] inside another, each of a number of seconds from one
    up to the largest C [int]: both entries succeed, the inner one
    replacing the handler and the alarm of the outer one; and when the
    inner block ends, its [alarm(0)] cancels the alarm of the process,
    so the rest of the outer block runs with no alarm scheduled, and
    the handler left in place is the inner one. *)
Theorem inner_timeout_cancels_outer (outer inner : Timeout) (n m : Z) (p : signals) :
  seconds outer = Some n -> 1 <= n <= INT_MAX ->
  seconds inner = Some m -> 1 <= m <= INT_MAX ->
  Timeout_enter outer p = (mk_signals (Some (error_message outer)) (Some n), None) /\
  Timeout_enter inner (mk_signals (Some (error_message outer)) (Some n))
  = (mk_signals (Some (error_message inner)) (Some m), None) /\
  Timeout_exit inner (mk_signals (Some (error_message inner)) (Some m))
  = mk_signals (Some (error_message inner)) None.
Proof.
  intros Hn Hnr Hm Hmr.
  assert (Henter : forall (t : Timeout) (x : Z) (q : signals),
            seconds t = Some x -> 1 <= x <= INT_MAX ->
            Timeout_enter t q = (mk_signals (Some (error_message t)) (Some x), None)).
  { intros t x q Ht Hx. unfold Timeout_enter, signal_alarm. rewrite Ht.
    unfold INT_MAX in Hx.
    destruct (Z.eqb_spec x 0); [lia|]. cbn [negb handler].
    replace (INT_MIN <=? x) with true by (symmetry; apply Z.leb_le; unfold INT_MIN; lia).
    replace (x <=? INT_MAX) with true by (symmetry; apply Z.leb_le; unfold INT_MAX; lia).
    cbn [andb]. rewrite Z.mod_small by lia. reflexivity. }
  split; [now apply Henter|]. split; [now apply Henter|].
  unfold Timeout_exit, armed. rewrite Hm.
  destruct (Z.eqb_spec m 0); [lia | reflexivity].
Qed.

Lemma inner_timeout_cancels_outer_witness :
  Timeout_enter (Timeout_init (Some (NInt 60)) "outer") (mk_signals None None)
  = (mk_signals (Some "outer") (Some 60), None) /\
  Timeout_enter (Timeout_init (Some (NInt 5)) "inner") (mk_signals (Some "outer") (Some 60))
  = (mk_signals (Some "inner") (Some 5), None) /\
  Timeout_exit (Timeout_init (Some (NInt 5)) "inner") (mk_signals (Some "inner") (Some 5))
  = mk_signals (Some "inner") None.
Proof.
  apply (inner_timeout_cancels_outer (Timeout_init (Some (NInt 60)) "outer")
           (Timeout_init (Some (NInt 5)) "inner") 60 5 (mk_signals None None));
    first [reflexivity | unfold INT_MAX; lia].
Defined.

